(** * tiny-commit-walker: the pack-file read path ([src/lib/pack.ts])

    A shallow embedding of the pack store: the object-header decoder, the
    index-file parser, the payload decompressor with its retry loop, the
    delta resolver, the per-store decoded-object cache and the process-wide
    store registry, followed by the properties established about them. *)

From Stdlib Require Import ZArith Lia.
From Stdlib.Strings Require Import Byte Ascii.
From stdpp Require Import base option gmap strings list fin_maps.

Local Open Scope Z_scope.

(** ** JavaScript values used by the code *)

(** A [Buffer] is a sequence of bytes. *)
Abbreviation Buffer := (list byte).

(** The numeric value of a byte, [0 .. 255]. *)
Definition byte_val (b : byte) : Z := Z.of_N (Byte.to_N b).

(** The byte whose value is [z mod 256]; used to write buffers down. *)
Definition u8 (z : Z) : byte :=
  default x00 (Byte.of_N (Z.to_N (z mod 256))).

(** [buff[i]]: the byte's value, or [undefined] ([None]) out of range. *)
Definition buf_get (buff : Buffer) (i : Z) : option Z :=
  if i <? 0 then None else byte_val <$> buff !! Z.to_nat i.

(** ToInt32 as the bit operators [&] and [>>] apply it to an operand that is
    a byte value or [undefined]: [undefined] becomes [0]. *)
Definition to_int32 (v : option Z) : Z := default 0 v.

Module JS.

(** A JavaScript number is an IEEE-754 double.  Every number the code
    computes is an integer, so a number is modelled by the integer it holds;
    a sum or difference is the exact result rounded to a 53-bit significand,
    ties to even.  The exponent range is not modelled.  It is never
    exceeded where the code runs: the header decoder is given a buffer of 32
    bytes, on which the largest number it can form is below [2^229]. *)
Definition round53 (z : Z) : Z :=
  if z <? 2 ^ 53 then z
  else
    let e := Z.log2 z - 52 in
    let q := z / 2 ^ e in
    let r := z mod 2 ^ e in
    let half := 2 ^ (e - 1) in
    if r <? half then q * 2 ^ e
    else if half <? r then (q + 1) * 2 ^ e
    else if Z.even q then q * 2 ^ e
    else (q + 1) * 2 ^ e.

Definition to_number (z : Z) : Z :=
  if z <? 0 then - round53 (- z) else round53 z.

(** [a + b] and [a - b] on numbers. *)
Definition add (a b : Z) : Z := to_number (a + b).
Definition sub (a b : Z) : Z := to_number (a - b).

End JS.

(** ** Object kinds ([enum ObjectTypeEnum]) *)

Module ObjectTypeEnum.
Definition BAD : Z := -1.
Definition NONE : Z := 0.
Definition COMMIT : Z := 1.
Definition TREE : Z := 2.
Definition BLOB : Z := 3.
Definition TAG : Z := 4.
Definition OFS_DELTA : Z := 6.
Definition REF_DELTA : Z := 7.
Definition ANY : Z := 8.
Definition MAX : Z := 9.
End ObjectTypeEnum.

(** ** Locations and object headers *)

(** [interface PackedIndex]. *)
Record PackedIndex := mkPackedIndex {
  idx_offset : Z;
  idx_fileIndex : Z
}.

(** [class PackedObject]: the decoded header.  [po_offset] is mutable in the
    source; the delta resolver advances it past the delta-specific fields. *)
Record PackedObject := mkPackedObject {
  po_type : Z;
  po_size : Z;
  po_offset : Z
}.

(** The local variables of the constructor's [while] loop. *)
Record HeaderLoop := mkHeaderLoop {
  hl_c : option Z;
  hl_size : Z;
  hl_offset : Z;
  hl_x : Z
}.

(** One iteration of the loop body:
    [c = buff[offset++]; size += (c & 0x7f) * x; x *= 128].
    The product and [x *= 128] are exact on doubles (a 7-bit integer times a
    power of two); the sum rounds. *)
Definition header_loop_body (buff : Buffer) (st : HeaderLoop) : HeaderLoop :=
  let c := buf_get buff (hl_offset st) in
  {| hl_c := c;
     hl_size := JS.add (hl_size st) (Z.land (to_int32 c) 0x7f * hl_x st);
     hl_offset := hl_offset st + 1;
     hl_x := hl_x st * 128 |}.

(** [while (c & 0x80) { ... }], with a bound on the number of iterations;
    [None] when the bound is reached with the condition still true. *)
Fixpoint header_loop (fuel : nat) (buff : Buffer) (st : HeaderLoop)
  : option HeaderLoop :=
  if Z.land (to_int32 (hl_c st)) 0x80 =? 0 then Some st
  else match fuel with
       | O => None
       | S fuel' => header_loop fuel' buff (header_loop_body buff st)
       end.

(** [new PackedObject(idx, buff)].  The loop stops at the latest on the first
    read past the end of the buffer, so [length buff] iterations are enough
    (see [header_loop_spec]).  On a buffer of more than 146 bytes the
    multiplier of the code can reach [Infinity] and its size [Infinity] or
    [NaN], which the integers here do not follow; the resolver passes 32
    bytes. *)
Definition new_PackedObject (buff : Buffer) : option PackedObject :=
  let c := buf_get buff 0 in
  let type := Z.land (Z.shiftr (to_int32 c) 4) 7 in
  let size := Z.land (to_int32 c) 15 in
  st ← header_loop (length buff) buff
         {| hl_c := c; hl_size := size; hl_offset := 1; hl_x := 16 |};
  Some {| po_type := type; po_size := hl_size st; po_offset := hl_offset st |}.

(** ** The header format in the words of the specification *)

Module HeaderSpec.

(** Bit 7 of a byte: the continuation flag. *)
Definition continues (b : Z) : bool := Z.testbit b 7.

(** The bytes read after byte 0: a byte is read while the byte before it
    has the continuation flag; a read past the end of the lookahead buffer
    yields a byte without payload and without flag. *)
Fixpoint continuation_bytes (prev : Z) (rest : list Z) : list Z :=
  if continues prev then
    match rest with
    | [] => [0]
    | b :: rest' => b :: continuation_bytes b rest'
    end
  else [].

(** The multiplier of the [i]-th continuation byte: starts at 16 and is
    multiplied by 128 per continuation byte. *)
Definition multiplier (i : nat) : Z := 16 * 128 ^ Z.of_nat i.

(** Adding the low 7 bits of each continuation byte, scaled, to [size]. *)
Fixpoint accumulate (i : nat) (size : Z) (conts : list Z) : Z :=
  match conts with
  | [] => size
  | b :: conts' =>
      accumulate (S i) (JS.add size ((b mod 128) * multiplier i)) conts'
  end.

(** The same sum over the integers. *)
Fixpoint exact_sum (i : nat) (conts : list Z) : Z :=
  match conts with
  | [] => 0
  | b :: conts' => (b mod 128) * multiplier i + exact_sum (S i) conts'
  end.

Definition first_byte (buff : Buffer) : Z := to_int32 (buf_get buff 0).

Definition conts (buff : Buffer) : list Z :=
  continuation_bytes (first_byte buff) (byte_val <$> tail buff).

Definition type_code (buff : Buffer) : Z := (first_byte buff / 16) mod 8.

Definition size (buff : Buffer) : Z :=
  accumulate 0 (first_byte buff mod 16) (conts buff).

Definition consumed (buff : Buffer) : Z := 1 + Z.of_nat (length (conts buff)).

End HeaderSpec.

(** ** Buffers: slices, hexadecimal text and big-endian reads *)

(** [Buffer.alloc(n)]: [n] zero bytes. *)
Definition Buffer_alloc (n : Z) : Buffer := replicate (Z.to_nat n) x00.

(** What a read into [buff] at buffer offset 0 leaves: the bytes read, then the
    part of [buff] they did not reach. *)
Definition buffer_fill (buff data : Buffer) : Buffer :=
  take (length buff) (data ++ drop (length data) buff).

(** How [slice] clamps an index: a negative one counts from the end. *)
Definition slice_index (len i : Z) : Z :=
  if i <? 0 then Z.max (len + i) 0 else Z.min i len.

(** [buff.slice(start, end)]. *)
Definition Buffer_slice (buff : Buffer) (start stop : Z) : Buffer :=
  let len := Z.of_nat (length buff) in
  let s := slice_index len start in
  let e := slice_index len stop in
  take (Z.to_nat (e - s)) (drop (Z.to_nat s) buff).

Definition hex_digit (n : Z) : ascii :=
  ascii_of_nat (Z.to_nat (if n <? 10 then 48 + n else 87 + n)).

(** [buff.toString('hex')]. *)
Fixpoint to_hex (buff : Buffer) : string :=
  match buff with
  | [] => EmptyString
  | b :: buff' =>
      String (hex_digit (byte_val b / 16))
        (String (hex_digit (byte_val b mod 16)) (to_hex buff'))
  end.

(** [readHash(buff, offset)]. *)
Definition readHash (buff : Buffer) (offset : Z) : string :=
  to_hex (Buffer_slice buff offset (offset + 20)).

(** The unsigned big-endian integer a byte sequence denotes. *)
Definition be_value (bytes : Buffer) : Z :=
  fold_left (fun acc b => acc * 256 + byte_val b) bytes 0.

(** ** Errors and outcomes *)

Inductive error :=
| NotFound (hash : string)
    (** [Error(`${hash} is not found.`)] *)
| InvalidObjectType (type : Z)
    (** [Error(`${po.type} is a invalid object type.`)] *)
| RangeError
    (** a [Buffer] read outside the buffer, or a [Buffer] requested with a
        size above the largest one *)
| SystemError (code : string) (errno : Z)
    (** a failed file-system call *)
| ZlibError (errno : Z)
    (** a failed [zlib] call *)
| CollaboratorError (message : string).
    (** whatever the delta collaborator throws *)

(** [e.errno]. *)
Definition errno (e : error) : option Z :=
  match e with
  | SystemError _ n => Some n
  | ZlibError n => Some n
  | _ => None
  end.

(** A computation without side effects that may throw. *)
#[global] Instance result_ret : MRet (sum error) := fun A a => inr a.
#[global] Instance result_bind : MBind (sum error) := fun A B f r =>
  match r with
  | inl e => inl e
  | inr a => f a
  end.

(** zlib's [Z_BUF_ERROR]. *)
Definition Z_BUF_ERROR : Z := -5.

(** The result of running a piece of code: a value, a thrown error, no
    result within the bound on the recursion depth, or, where the code
    returns what it finds under a name in a plain object that has no property
    of its own of that name, the member of that name which the object
    inherits from [Object.prototype], which is no value of the declared
    type. *)
Inductive outcome (A : Type) :=
| Ok (a : A)
| Throw (e : error)
| Diverge
| Inherited (name : string).
Arguments Ok {A} a.
Arguments Throw {A} e.
Arguments Diverge {A}.
Arguments Inherited {A} name.

(** ** The runtime and the collaborators of [./delta] *)

(** The [Buffer] read methods changed between Node.js releases: up to
    Node 9 the offset is first coerced with [offset >>> 0]; from Node 10 on
    an offset outside the buffer is rejected as it is. *)
Inductive BufferSemantics := Coercing | Strict.

Class Runtime := {
  buffer_semantics : BufferSemantics;
  (** [zlib.inflateSync] and the promisified [zlib.inflate]: the inflated
      bytes, or the error thrown. *)
  inflate : Buffer -> error + Buffer;
  (** The largest size of a [Buffer] that the runtime serves:
      [buffer.constants.MAX_LENGTH] ([2^30 - 1] or [2^31 - 1] on the older
      releases, more on the later ones, never above [2^53 - 1]), or less
      where memory is short. *)
  max_buffer_length : Z;
  (** The previous contents of the memory [Buffer.allocUnsafe(size)] hands
      out. *)
  uninitialized : Z -> Buffer;
  (** [readBaseOffset(head, offset)] of [./delta]: the backward distance and
      the offset after it. *)
  readBaseOffset : Buffer -> Z -> Z * Z;
  (** [patchDelta(src, delta)] of [./delta]. *)
  patchDelta : Buffer -> Buffer -> error + Buffer
}.

Section WithRuntime.
Context `{RT : Runtime}.

(** [size] bytes of whatever the memory held. *)
Definition fresh_memory (size : Z) : Buffer :=
  resize (Z.to_nat size) x00 (uninitialized size).

(** [Buffer.allocUnsafe(size)] for a [size] that is an integer: a size
    that is negative or above the largest one served is refused with a
    [RangeError]. *)
Definition Buffer_allocUnsafe (size : Z) : error + Buffer :=
  if (0 <=? size) && (size <=? max_buffer_length)
  then inr (fresh_memory size)
  else inl RangeError.

(** The offset a read method works with, if it accepts it for a [width]-byte
    read of a buffer of [len] bytes. *)
Definition checked_offset (len width offset : Z) : option Z :=
  let o := match buffer_semantics with
           | Coercing => offset mod 2 ^ 32
           | Strict => offset
           end in
  if (0 <=? o) && (o + width <=? len) then Some o else None.

Definition read_uint_be (width : Z) (buff : Buffer) (offset : Z) : error + Z :=
  match checked_offset (Z.of_nat (length buff)) width offset with
  | Some o => inr (be_value (take (Z.to_nat width) (drop (Z.to_nat o) buff)))
  | None => inl RangeError
  end.

(** [buff.readUInt32BE(offset)] and [buff.readUInt16BE(offset)]. *)
Definition readUInt32BE : Buffer -> Z -> error + Z := read_uint_be 4.
Definition readUInt16BE : Buffer -> Z -> error + Z := read_uint_be 2.

(** ** The index parser *)

Abbreviation PackedIndexMap := (gmap string PackedIndex).

(** The loop variables of the version-2 branch. *)
Record IdxLoop2 := mkIdxLoop2 {
  l2_index : Z;
  l2_off32 : Z;
  l2_off64 : Z;
  l2_map : PackedIndexMap
}.

(** The body of the version-2 [for] loop.  All the sums stay far below
    [2^53], so they are exact. *)
Definition idx_loop2_body (buff : Buffer) (fileIndex : Z) (st : IdxLoop2)
  : error + IdxLoop2 :=
  let hash := readHash buff (l2_index st) in
  let index := l2_index st + 20 in
  offset ← readUInt32BE buff (l2_off32 st);
  let off32 := l2_off32 st + 4 in
  if Z.land offset 0x80000000 =? 0 then
    inr {| l2_index := index; l2_off32 := off32; l2_off64 := l2_off64 st;
           l2_map := <[hash := mkPackedIndex offset fileIndex]> (l2_map st) |}
  else
    offset ← readUInt32BE buff (l2_off64 st * 4294967296);
    let off64 := l2_off64 st + 4 in
    low ← readUInt16BE buff off64;
    let offset := offset + low in
    let off64 := off64 + 4 in
    inr {| l2_index := index; l2_off32 := off32; l2_off64 := off64;
           l2_map := <[hash := mkPackedIndex offset fileIndex]> (l2_map st) |}.

Fixpoint idx_loop2 (n : nat) (buff : Buffer) (fileIndex : Z) (st : IdxLoop2)
  : error + IdxLoop2 :=
  match n with
  | O => inr st
  | S n' => st' ← idx_loop2_body buff fileIndex st;
            idx_loop2 n' buff fileIndex st'
  end.

(** The version-1 [for] loop, with its variables [index] and [map]. *)
Fixpoint idx_loop1 (n : nat) (buff : Buffer) (fileIndex : Z)
    (index : Z) (map : PackedIndexMap) : error + PackedIndexMap :=
  match n with
  | O => inr map
  | S n' =>
      offset ← readUInt32BE buff index;
      let index := index + 4 in
      let hash := readHash buff index in
      let index := index + 20 in
      idx_loop1 n' buff fileIndex index
        (<[hash := mkPackedIndex offset fileIndex]> map)
  end.

(** [setupPackedIndexMap(idxFileBuffer, fileIndex, map)]: the map after the
    call, or the error thrown. *)
Definition setupPackedIndexMap (idxFileBuffer : Buffer) (fileIndex : Z)
    (map : PackedIndexMap) : error + PackedIndexMap :=
  let index := 255 * 4 in
  magic ← readUInt32BE idxFileBuffer 0;
  '(idxVersion, index) ←
     (if magic =? 0xff744f63
      then v ← readUInt32BE idxFileBuffer 4; inr (v, index + 8)
      else inr (1, index));
  n ← readUInt32BE idxFileBuffer index;
  let index := index + 4 in
  if 1 <? idxVersion then
    let off32 := index + n * 24 in
    let off64 := off32 + n * 4 in
    st ← idx_loop2 (Z.to_nat n) idxFileBuffer fileIndex
           (mkIdxLoop2 index off32 off64 map);
    inr (l2_map st)
  else
    idx_loop1 (Z.to_nat n) idxFileBuffer fileIndex index map.

(** ** The world: files, descriptors, caches and the registry *)

(** The two copies of each operation: with blocking I/O ([...Sync]) and with
    suspending I/O.  A suspending operation is run to completion before the
    next one starts; calls that overlap are outside this model. *)
Inductive Mode := Blocking | Suspending.

(** The file-system calls made, in order. *)
Inductive io_event :=
| IoReaddir (mode : Mode) (path : string)
| IoReadFile (mode : Mode) (path : string)
| IoOpen (mode : Mode) (path : string)
| IoRead (mode : Mode) (fd : Z) (position : Z) (len : Z)
| IoClose (mode : Mode) (fd : Z).

(** The part of the file system the code reads: the listing of each readable
    directory and the contents of each readable file. *)
Record FileSystem := mkFileSystem {
  fs_dirs : gmap string (list string);
  fs_files : gmap string Buffer
}.

(** [class Packs].  [packedObjectCache] names the instance's own
    [_packedObjectCache] map, which lives in the world: two values with the
    same name are the same instance. *)
Record Packs := mkPacks {
  packDir : string;
  packFileNames : list string;
  packedIndexMap : PackedIndexMap;
  hasPackFiles : bool;
  packedObjectCache : nat
}.

(** A decoded-object cache.  The source keys it by the text
    [`${idx.fileIndex}:${idx.offset}`], which determines the pair. *)
Abbreviation ObjectCache := (gmap (Z * Z) Buffer).

(** A settled promise of [_initialize]. *)
Abbreviation Promise := (error + Packs)%type.

Record World := mkWorld {
  w_fs : FileSystem;
  (** open descriptors: the file and the current position *)
  w_fds : gmap Z (string * Z);
  w_next_fd : Z;
  w_trace : list io_event;
  (** the [_packedObjectCache] of every [Packs] instance created *)
  w_objects : gmap nat ObjectCache;
  w_next_packs : nat;
  (** [packsCache = LRU<Packs>(4)], most recently used first *)
  w_packsCache : list (string * Packs);
  (** [processings]: the properties of its own of the plain object that is
      used as a map from directory names to promises *)
  w_processings : gmap string Promise
}.

(** The same process over another state of the file system. *)
Definition set_fs (fs : FileSystem) (w : World) : World :=
  mkWorld fs (w_fds w) (w_next_fd w) (w_trace w) (w_objects w)
    (w_next_packs w) (w_packsCache w) (w_processings w).

Definition set_fds (f : gmap Z (string * Z)) (n : Z) (w : World) : World :=
  mkWorld (w_fs w) f n (w_trace w) (w_objects w) (w_next_packs w)
    (w_packsCache w) (w_processings w).

Definition set_trace (t : list io_event) (w : World) : World :=
  mkWorld (w_fs w) (w_fds w) (w_next_fd w) t (w_objects w) (w_next_packs w)
    (w_packsCache w) (w_processings w).

Definition set_objects (o : gmap nat ObjectCache) (n : nat) (w : World)
  : World :=
  mkWorld (w_fs w) (w_fds w) (w_next_fd w) (w_trace w) o n
    (w_packsCache w) (w_processings w).

Definition set_packsCache (c : list (string * Packs)) (w : World) : World :=
  mkWorld (w_fs w) (w_fds w) (w_next_fd w) (w_trace w) (w_objects w)
    (w_next_packs w) c (w_processings w).

Definition set_processings (p : gmap string Promise) (w : World) : World :=
  mkWorld (w_fs w) (w_fds w) (w_next_fd w) (w_trace w) (w_objects w)
    (w_next_packs w) (w_packsCache w) p.

(** A process that has just started, on file system [fs]. *)
Definition boot (fs : FileSystem) : World :=
  mkWorld fs ∅ 3 [] ∅ 0 [] ∅.

(** ** Code with effects *)

Definition M (A : Type) : Type := World -> outcome A * World.

#[global] Instance M_ret : MRet M := fun A a w => (Ok a, w).
#[global] Instance M_bind : MBind M := fun A B f m w =>
  match m w with
  | (Ok a, w') => f a w'
  | (Throw e, w') => (Throw e, w')
  | (Diverge, w') => (Diverge, w')
  | (Inherited name, w') => (Inherited name, w')
  end.

Definition throw {A} (e : error) : M A := fun w => (Throw e, w).
Definition diverge {A} : M A := fun w => (Diverge, w).
Definition inherited {A} (name : string) : M A := fun w => (Inherited name, w).
Definition get_world : M World := fun w => (Ok w, w).
Definition modify (f : World -> World) : M unit := fun w => (Ok tt, f w).

(** A pure computation that may throw, run as a step. *)
Definition lift {A} (r : error + A) : M A :=
  match r with
  | inl e => throw e
  | inr a => mret a
  end.

(** [try { body } finally { cleanup }]. *)
Definition try_finally {A} (body : M A) (cleanup : M unit) : M A := fun w =>
  match body w with
  | (Ok a, w') =>
      match cleanup w' with
      | (Ok _, w'') => (Ok a, w'')
      | (Throw e, w'') => (Throw e, w'')
      | (Diverge, w'') => (Diverge, w'')
      | (Inherited name, w'') => (Inherited name, w'')
      end
  | (Throw e, w') =>
      match cleanup w' with
      | (Ok _, w'') => (Throw e, w'')
      | (Throw e', w'') => (Throw e', w'')
      | (Diverge, w'') => (Diverge, w'')
      | (Inherited name, w'') => (Inherited name, w'')
      end
  | (Diverge, w') => (Diverge, w')
  | (Inherited name, w') =>
      match cleanup w' with
      | (Ok _, w'') => (Inherited name, w'')
      | (Throw e, w'') => (Throw e, w'')
      | (Diverge, w'') => (Diverge, w'')
      | (Inherited name', w'') => (Inherited name', w'')
      end
  end.

(** The promise of an [async] call that has run to completion. *)
Definition settled {A} (body : M A) : M (error + A) := fun w =>
  match body w with
  | (Ok a, w') => (Ok (inr a), w')
  | (Throw e, w') => (Ok (inl e), w')
  | (Diverge, w') => (Diverge, w')
  | (Inherited name, w') => (Inherited name, w')
  end.

(** ** File-system calls *)

Definition log (ev : io_event) : M unit :=
  modify (fun w => set_trace (w_trace w ++ [ev]) w).

Definition ENOENT : error := SystemError "ENOENT" (-2).
Definition EBADF : error := SystemError "EBADF" (-9).

(** *** [path.join] (POSIX)

    The segments between the separators of [path]. *)
Fixpoint path_segments (path : string) : list string :=
  match path with
  | EmptyString => [EmptyString]
  | String c rest =>
      if decide (c = "/"%char) then EmptyString :: path_segments rest
      else match path_segments rest with
           | [] => [String c EmptyString]
           | seg :: segs => String c seg :: segs
           end
  end.

(** [normalizeString(path, allowAboveRoot)] of Node's [path] module, on the
    segments of the path: empty segments and [.] are dropped, [..] removes
    the segment before it, and where there is none (or only [..]) it is kept
    when [allowAboveRoot] and dropped otherwise.  [res] holds the segments
    kept so far, the last one first. *)
Fixpoint normalize_segments (allowAboveRoot : bool) (res segs : list string)
  : list string :=
  match segs with
  | [] => reverse res
  | seg :: segs' =>
      if decide (seg = "" \/ seg = ".") then
        normalize_segments allowAboveRoot res segs'
      else if decide (seg = "..") then
        match res with
        | last :: res' =>
            if decide (last = "..") then
              normalize_segments allowAboveRoot
                (if allowAboveRoot then ".." :: res else res) segs'
            else normalize_segments allowAboveRoot res' segs'
        | [] =>
            normalize_segments allowAboveRoot
              (if allowAboveRoot then [".."] else []) segs'
        end
      else normalize_segments allowAboveRoot (seg :: res) segs'
  end.

(** The last character of a text is a separator. *)
Fixpoint ends_with_separator (path : string) : bool :=
  match path with
  | EmptyString => false
  | String c EmptyString => bool_decide (c = "/"%char)
  | String _ rest => ends_with_separator rest
  end.

(** [path.normalize(path)]. *)
Definition path_normalize (path : string) : string :=
  match path with
  | EmptyString => "."
  | String c _ =>
      let isAbsolute := bool_decide (c = "/"%char) in
      let trailingSeparator := ends_with_separator path in
      let res :=
        String.concat "/"
          (normalize_segments (negb isAbsolute) [] (path_segments path)) in
      if decide (res = "") then
        if isAbsolute then "/" else if trailingSeparator then "./" else "."
      else
        (if isAbsolute then "/" else "")
        +:+ res +:+ (if trailingSeparator then "/" else "")
  end.

(** [path.join(...paths)]: the non-empty arguments joined by separators,
    normalised; [.] when there is none. *)
Definition path_join_all (paths : list string) : string :=
  match filter (fun p => p <> "") paths with
  | [] => "."
  | parts => path_normalize (String.concat "/" parts)
  end.

(** [path.join(a, b)]. *)
Definition path_join (a b : string) : string := path_join_all [a; b].

(** [fs.readdirSync(path)] and [readDirAsync(path)]. *)
Definition fs_readdir (mode : Mode) (path : string) : M (list string) :=
  log (IoReaddir mode path);;
  w ← get_world;
  match fs_dirs (w_fs w) !! path with
  | Some names => mret names
  | None => throw ENOENT
  end.

(** [fs.readFileSync(path)] and [readFileAsync(path)]. *)
Definition fs_readFile (mode : Mode) (path : string) : M Buffer :=
  log (IoReadFile mode path);;
  w ← get_world;
  match fs_files (w_fs w) !! path with
  | Some content => mret content
  | None => throw ENOENT
  end.

(** [fs.openSync(path, 'r')] and [openFileAsync(path, 'r')]. *)
Definition fs_open (mode : Mode) (path : string) : M Z :=
  log (IoOpen mode path);;
  w ← get_world;
  match fs_files (w_fs w) !! path with
  | Some _ =>
      let fd := w_next_fd w in
      modify (set_fds (<[fd := (path, 0)]> (w_fds w)) (fd + 1));;
      mret fd
  | None => throw ENOENT
  end.

(** The bytes a read of [len] bytes returns: from [position], or from the
    descriptor's current position when [position] is negative. *)
Definition file_read (content : Buffer) (current position len : Z)
  : Buffer :=
  let start := if position <? 0 then current else position in
  take (Z.to_nat len) (drop (Z.to_nat start) content).

(** [fs.readSync(fd, buff, 0, len, position)] and its [readAsync] twin:
    the bytes read, which the caller finds at the start of [buff].  Only a
    read at the current position moves it. *)
Definition fs_read (mode : Mode) (fd position len : Z) : M Buffer :=
  log (IoRead mode fd position len);;
  w ← get_world;
  match w_fds w !! fd with
  | Some (path, current) =>
      let content := default [] (fs_files (w_fs w) !! path) in
      let data := file_read content current position len in
      (if position <? 0
       then modify (set_fds
                      (<[fd := (path, current + Z.of_nat (length data))]> (w_fds w))
                      (w_next_fd w))
       else mret tt);;
      mret data
  | None => throw EBADF
  end.

(** [fs.closeSync(fd)] and [closeFileAsync(fd)]. *)
Definition fs_close (mode : Mode) (fd : Z) : M unit :=
  log (IoClose mode fd);;
  w ← get_world;
  match w_fds w !! fd with
  | Some _ => modify (set_fds (delete fd (w_fds w)) (w_next_fd w))
  | None => throw EBADF
  end.

(** ** The pack store: lookups and the decoded-object cache *)

(** [array[i]] for an index that is an integer. *)
Definition array_get {A} (l : list A) (i : Z) : option A :=
  if i <? 0 then None else l !! Z.to_nat i.

Definition cache_key (idx : PackedIndex) : Z * Z :=
  (idx_fileIndex idx, idx_offset idx).

(** The current contents of [this._packedObjectCache]. *)
Definition object_cache (this : Packs) (w : World) : ObjectCache :=
  default ∅ (w_objects w !! packedObjectCache this).

Definition _getPackedIndexFromCache (this : Packs) (hash : string)
  : M PackedIndex :=
  match packedIndexMap this !! hash with
  | None => throw (NotFound hash)
  | Some idx => mret idx
  end.

Definition _getPackedObjectBufferFromCach (this : Packs) (idx : PackedIndex)
  : M (option Buffer) :=
  w ← get_world;
  mret (object_cache this w !! cache_key idx).

Definition _setPackedObjectBuffrToCache (this : Packs) (idx : PackedIndex)
    (buff : Buffer) : M unit :=
  modify (fun w =>
    set_objects
      (<[packedObjectCache this := <[cache_key idx := buff]> (object_cache this w)]>
         (w_objects w))
      (w_next_packs w) w).

(** [this.packFileNames[idx.fileIndex] + '.pack'] under [this.packDir]; a
    missing name is rendered as the text [undefined]. *)
Definition _getPackFilePath (this : Packs) (idx : PackedIndex) : string :=
  path_join (packDir this)
    (default "undefined" (array_get (packFileNames this) (idx_fileIndex idx))
       +:+ ".pack").

(** ** The payload decompressor *)

(** The default value of the parameter [size]: [po.size * 2 + 32]. *)
Definition inf_initial_size (po : PackedObject) : Z :=
  JS.add (po_size po * 2) 32.

(** [infSync(fd, idx, po, size)] and [inf(fd, idx, po, size)]; [fuel] bounds
    the number of attempts. *)
Fixpoint inf_from (fuel : nat) (mode : Mode) (fd : Z) (idx : PackedIndex)
    (po : PackedObject) (size : Z) : M Buffer :=
  match fuel with
  | O => diverge
  | S fuel' =>
      buff ← lift (Buffer_allocUnsafe size);
      data ← fs_read mode fd (JS.add (idx_offset idx) (po_offset po))
               (Z.of_nat (length buff));
      match inflate (buffer_fill buff data) with
      | inr out => mret out
      | inl e =>
          if decide (errno e = Some Z_BUF_ERROR)
          then inf_from fuel' mode fd idx po (JS.add size 128)
          else throw e
      end
  end.

Definition infSync (fuel : nat) (fd : Z) (idx : PackedIndex)
    (po : PackedObject) : M Buffer :=
  inf_from fuel Blocking fd idx po (inf_initial_size po).

Definition inf (fuel : nat) (fd : Z) (idx : PackedIndex)
    (po : PackedObject) : M Buffer :=
  inf_from fuel Suspending fd idx po (inf_initial_size po).

(** ** Object resolution *)

(** The two entry points of the recursion: [unpackGitObject(hash)] and
    [_unpackGitObject(fd, idx)] (and their [Sync] twins). *)
Inductive call :=
| Resolve (hash : string)
| ResolveAt (fd : Z) (idx : PackedIndex).

Section Bodies.

(** The method bodies, with the recursive calls left open. *)
Variable fuel : nat.
Variable mode : Mode.
Variable this : Packs.
Variable recur : call -> M Buffer.

(** [_unpackDeltaObject(fd, idx, po, head)]. *)
Definition _unpackDeltaObject_body (fd : Z) (idx : PackedIndex)
    (po : PackedObject) (head : Buffer) : M Buffer :=
  '(src, po) ←
    (if po_type po =? ObjectTypeEnum.OFS_DELTA then
       let '(baseOffset, offset) := readBaseOffset head (po_offset po) in
       let po := mkPackedObject (po_type po) (po_size po) offset in
       src ← recur (ResolveAt fd
                {| idx_offset := JS.sub (idx_offset idx) baseOffset;
                   idx_fileIndex := idx_fileIndex idx |});
       mret (src, po)
     else
       src ← recur (Resolve (readHash head (po_offset po)));
       mret (src, mkPackedObject (po_type po) (po_size po) (po_offset po + 20)));
  delta ← inf_from fuel mode fd idx po (inf_initial_size po);
  lift (patchDelta src delta).

(** [_unpackGitObject(fd, idx)]. *)
Definition _unpackGitObject_body (fd : Z) (idx : PackedIndex) : M Buffer :=
  dst ← _getPackedObjectBufferFromCach this idx;
  match dst with
  | Some dst => mret dst
  | None =>
      data ← fs_read mode fd (idx_offset idx) 32;
      let head := buffer_fill (Buffer_alloc 32) data in
      match new_PackedObject head with
      | None => diverge
      | Some po =>
          dst ←
            (if (po_type po =? ObjectTypeEnum.COMMIT)
                || (po_type po =? ObjectTypeEnum.TAG)
             then d ← inf_from fuel mode fd idx po (inf_initial_size po);
                  mret (Some d)
             else if (po_type po =? ObjectTypeEnum.OFS_DELTA)
                     || (po_type po =? ObjectTypeEnum.REF_DELTA)
             then d ← _unpackDeltaObject_body fd idx po head;
                  mret (Some d)
             else mret None);
          match dst with
          | None => throw (InvalidObjectType (po_type po))
          | Some dst =>
              _setPackedObjectBuffrToCache this idx dst;;
              mret dst
          end
      end
  end.

(** [unpackGitObject(hash)]. *)
Definition unpackGitObject_body (hash : string) : M Buffer :=
  idx ← _getPackedIndexFromCache this hash;
  dst ← _getPackedObjectBufferFromCach this idx;
  match dst with
  | Some dst => mret dst
  | None =>
      fd ← fs_open mode (_getPackFilePath this idx);
      try_finally (recur (ResolveAt fd idx)) (fs_close mode fd)
  end.

End Bodies.

(** The recursion through [unpackGitObject], [_unpackGitObject] and
    [_unpackDeltaObject]; [fuel] bounds its depth and the number of attempts
    of each decompression. *)
Fixpoint unpack (fuel : nat) (mode : Mode) (this : Packs) (c : call)
  : M Buffer :=
  match fuel with
  | O => diverge
  | S fuel' =>
      match c with
      | Resolve hash =>
          unpackGitObject_body mode this (unpack fuel' mode this) hash
      | ResolveAt fd idx =>
          _unpackGitObject_body fuel mode this (unpack fuel' mode this) fd idx
      end
  end.

Definition unpackGitObject (fuel : nat) (this : Packs) (hash : string)
  : M Buffer := unpack fuel Suspending this (Resolve hash).

Definition unpackGitObjectSync (fuel : nat) (this : Packs) (hash : string)
  : M Buffer := unpack fuel Blocking this (Resolve hash).

Definition _unpackGitObject (fuel : nat) (this : Packs) (fd : Z)
    (idx : PackedIndex) : M Buffer :=
  unpack fuel Suspending this (ResolveAt fd idx).

Definition _unpackGitObjectSync (fuel : nat) (this : Packs) (fd : Z)
    (idx : PackedIndex) : M Buffer :=
  unpack fuel Blocking this (ResolveAt fd idx).

Definition _unpackDeltaObject (fuel : nat) (this : Packs) (fd : Z)
    (idx : PackedIndex) (po : PackedObject) (head : Buffer) : M Buffer :=
  _unpackDeltaObject_body (S fuel) Suspending
    (unpack fuel Suspending this) fd idx po head.

Definition _unpackDeltaObjectSync (fuel : nat) (this : Packs) (fd : Z)
    (idx : PackedIndex) (po : PackedObject) (head : Buffer) : M Buffer :=
  _unpackDeltaObject_body (S fuel) Blocking
    (unpack fuel Blocking this) fd idx po head.

(** ** The store registry *)

(** [lru-cache] with [max = 4]: a list of entries, most recently used first. *)
Definition lru_max : nat := 4.

Fixpoint lru_find (key : string) (l : list (string * Packs)) : option Packs :=
  match l with
  | [] => None
  | (k, v) :: l' => if decide (k = key) then Some v else lru_find key l'
  end.

Fixpoint lru_remove (key : string) (l : list (string * Packs))
  : list (string * Packs) :=
  match l with
  | [] => []
  | (k, v) :: l' =>
      if decide (k = key) then lru_remove key l' else (k, v) :: lru_remove key l'
  end.

(** [packsCache.get(key)]: a hit becomes the most recently used entry. *)
Definition packsCache_get (key : string) : M (option Packs) :=
  w ← get_world;
  match lru_find key (w_packsCache w) with
  | Some v =>
      modify (set_packsCache ((key, v) :: lru_remove key (w_packsCache w)));;
      mret (Some v)
  | None => mret None
  end.

(** [packsCache.set(key, value)]: the entry becomes the most recently used
    one and the least recently used entries beyond [max] are dropped. *)
Definition packsCache_set (key : string) (v : Packs) : M unit :=
  modify (fun w =>
    set_packsCache (take lru_max ((key, v) :: lru_remove key (w_packsCache w))) w).

(** [new Packs(packDir, packFileNames, packedIndexMap)]. *)
Definition new_Packs (dir : string) (names : list string)
    (map : PackedIndexMap) : M Packs :=
  w ← get_world;
  let id := w_next_packs w in
  modify (set_objects (<[id := ∅]> (w_objects w)) (S id));;
  mret {| packDir := dir;
          packFileNames := names;
          packedIndexMap := map;
          hasPackFiles := negb (bool_decide (length names = 0%nat));
          packedObjectCache := id |}.

(** [/\.idx$/.test(name)]. *)
Definition is_idx_name (name : string) : bool :=
  let n := String.length name in
  (4 <=? n)%nat && bool_decide (String.substring (n - 4) 4 name = ".idx").

(** [name.split(".").shift()]: the text before the first dot. *)
Fixpoint before_first_dot (name : string) : string :=
  match name with
  | EmptyString => EmptyString
  | String c rest =>
      if decide (c = "."%char) then EmptyString
      else String c (before_first_dot rest)
  end.

(** [names.filter(name => /\.idx$/.test(name))
         .map(name => name.split(".").shift())]. *)
Definition idx_base_names (names : list string) : list string :=
  before_first_dot <$> filter (fun name => is_idx_name name = true) names.

(** The loop that reads and parses [fileNames[i] + ".idx"] for
    [i = i0, i0 + 1, ...] into [map]. *)
Fixpoint read_indexes (mode : Mode) (dir : string) (fileNames : list string)
    (i : Z) (map : PackedIndexMap) : M PackedIndexMap :=
  match fileNames with
  | [] => mret map
  | name :: rest =>
      buff ← fs_readFile mode (path_join dir (name +:+ ".idx"));
      map' ← lift (setupPackedIndexMap buff i map);
      read_indexes mode dir rest (i + 1) map'
  end.

(** [path.join(gitDir, 'objects', 'pack')]. *)
Definition pack_dir_of (gitDir : string) : string :=
  path_join_all [gitDir; "objects"; "pack"].

(** [Packs._initialize(gitDir)]. *)
Definition _initialize (gitDir : string) : M Packs :=
  let dir := pack_dir_of gitDir in
  listing ← settled (fs_readdir Suspending dir);
  match listing with
  | inl _ => new_Packs gitDir [] ∅
  | inr names =>
      let fileNames := idx_base_names names in
      if bool_decide (length fileNames = 0%nat) then new_Packs gitDir [] ∅
      else
        map ← read_indexes Suspending dir fileNames 0 ∅;
        new_Packs dir fileNames map
  end.

(** The property names of [Object.prototype], which every plain object
    inherits: the members the language defines (with those of its Annex B).
    Each of them holds a function, or for [__proto__] the prototype itself:
    none is falsy. *)
Definition Object_prototype_names : list string :=
  ["constructor"; "__defineGetter__"; "__defineSetter__"; "hasOwnProperty";
   "__lookupGetter__"; "__lookupSetter__"; "isPrototypeOf";
   "propertyIsEnumerable"; "toString"; "valueOf"; "__proto__";
   "toLocaleString"].

(** [Packs.initialize(gitDir)].  [processings[gitDir]] is a property of its
    own of [processings], a promise, or else the member of that name it
    inherits from [Object.prototype], and what is found is returned as it
    is.  The promise of [_initialize] is stored in [processings] and the
    callback of [promise.then] runs when the promise is fulfilled; a
    rejected promise skips the callback and rejects the promise
    [initialize] returns. *)
Definition initialize (gitDir : string) : M Packs :=
  packs ← packsCache_get gitDir;
  match packs with
  | Some packs => mret packs
  | None =>
      w ← get_world;
      match w_processings w !! gitDir with
      | Some promise => lift promise
      | None =>
          if bool_decide (gitDir ∈ Object_prototype_names)
          then inherited gitDir
          else
            promise ← settled (_initialize gitDir);
            modify (fun w =>
              set_processings (<[gitDir := promise]> (w_processings w)) w);;
            match promise with
            | inr packs =>
                modify (fun w =>
                  set_processings (delete gitDir (w_processings w)) w);;
                packsCache_set gitDir packs;;
                mret packs
            | inl e => throw e
            end
      end
  end.

(** [Packs.initializeSync(gitDir)]. *)
Definition initializeSync (gitDir : string) : M Packs :=
  packs ← packsCache_get gitDir;
  match packs with
  | Some packs => mret packs
  | None =>
      let dir := pack_dir_of gitDir in
      listing ← settled (fs_readdir Blocking dir);
      match listing with
      | inl _ =>
          packs ← new_Packs gitDir [] ∅;
          packsCache_set gitDir packs;;
          mret packs
      | inr names =>
          let fileNames := idx_base_names names in
          if bool_decide (length fileNames = 0%nat) then
            packs ← new_Packs gitDir [] ∅;
            packsCache_set gitDir packs;;
            mret packs
          else
            map ← read_indexes Blocking dir fileNames 0 ∅;
            packs ← new_Packs dir fileNames map;
            packsCache_set gitDir packs;;
            mret packs
      end
  end.

(** ** Delta resolution and the retry loop in the words of the specification *)

(** Where the base of a delta object is resolved: for OFS_DELTA at the
    object's own offset minus the decoded backward distance, in the same
    pack file, through [_unpackGitObject]; for REF_DELTA through
    [unpackGitObject] on the hash held by the 20 bytes after the header. *)
Definition delta_base (fd : Z) (idx : PackedIndex) (po : PackedObject)
    (head : Buffer) : call :=
  if po_type po =? ObjectTypeEnum.OFS_DELTA then
    ResolveAt fd
      (mkPackedIndex
         (JS.sub (idx_offset idx) (readBaseOffset head (po_offset po)).1)
         (idx_fileIndex idx))
  else Resolve (readHash head (po_offset po)).

(** The header once the delta-specific field has been consumed: the payload
    starts after the distance, or after the 20 bytes of the hash. *)
Definition delta_payload (po : PackedObject) (head : Buffer) : PackedObject :=
  if po_type po =? ObjectTypeEnum.OFS_DELTA then
    mkPackedObject (po_type po) (po_size po)
      (readBaseOffset head (po_offset po)).2
  else mkPackedObject (po_type po) (po_size po) (po_offset po + 20).

(** The buffer size of attempt [i], from a first buffer of [size] bytes:
    grown by 128 bytes per failed attempt. *)
Definition grown_size (size : Z) (i : nat) : Z := size + 128 * Z.of_nat i.

(** What an attempt with a buffer of [size] bytes hands to [inflate] when it
    reads [content] at [position >= 0]: the bytes read, then what the memory
    of the buffer held. *)
Definition attempt_input (content : Buffer) (position size : Z) : Buffer :=
  buffer_fill (fresh_memory size) (file_read content 0 position size).

(** The reads of the first [n] attempts: all at the same position. *)
Definition attempt_reads (mode : Mode) (fd position size : Z) (n : nat)
  : list io_event :=
  (fun i => IoRead mode fd position (grown_size size i)) <$> seq 0 n.

(** ** Histories of calls *)

(** The operations the module exports. *)
Inductive api_call :=
| CallInitialize (gitDir : string)
| CallInitializeSync (gitDir : string)
| CallUnpackGitObject (fuel : nat) (this : Packs) (hash : string)
| CallUnpackGitObjectSync (fuel : nat) (this : Packs) (hash : string).

(** The world a call leaves behind, whatever its outcome. *)
Definition run_call (c : api_call) (w : World) : World :=
  match c with
  | CallInitialize gitDir => (initialize gitDir w).2
  | CallInitializeSync gitDir => (initializeSync gitDir w).2
  | CallUnpackGitObject fuel this hash => (unpackGitObject fuel this hash w).2
  | CallUnpackGitObjectSync fuel this hash =>
      (unpackGitObjectSync fuel this hash w).2
  end.

Definition run_calls (cs : list api_call) (w : World) : World :=
  foldl (fun w c => run_call c w) w cs.

(** The worlds a process can be in over a file system that does not change
    while it runs. *)
Definition reachable (fs : FileSystem) (w : World) : Prop :=
  exists cs, w = run_calls cs (boot fs).

(** The directory a call initialises, if it is an initialisation. *)
Definition call_dir (c : api_call) : option string :=
  match c with
  | CallInitialize gitDir | CallInitializeSync gitDir => Some gitDir
  | _ => None
  end.


(** The pack directory of [gitDir] cannot be listed or lists no index file. *)
Definition no_index_files (fs : FileSystem) (gitDir : string) : Prop :=
  match fs_dirs fs !! pack_dir_of gitDir with
  | None => True
  | Some names => idx_base_names names = []
  end.

(** ** Predicates used in the proofs *)

(** The build part of [initializeSync], as one step. *)
Definition build_sync (gitDir : string) : M Packs :=
  let dir := pack_dir_of gitDir in
  listing ← settled (fs_readdir Blocking dir);
  match listing with
  | inl _ => new_Packs gitDir [] ∅
  | inr names =>
      let fileNames := idx_base_names names in
      if bool_decide (length fileNames = 0%nat) then new_Packs gitDir [] ∅
      else
        map ← read_indexes Blocking dir fileNames 0 ∅;
        new_Packs dir fileNames map
  end.

End WithRuntime.

(** Effects that stay within a preorder on worlds. *)
Definition stable {A} (R : relation World) (m : M A) : Prop :=
  forall w, R w (m w).2.

(** Only descriptors and the trace may differ. *)
Definition io_step (w w' : World) : Prop :=
  w_fs w' = w_fs w /\ w_objects w' = w_objects w
  /\ w_next_packs w' = w_next_packs w
  /\ w_packsCache w' = w_packsCache w /\ w_processings w' = w_processings w.

(** The registry and the file system are the same. *)
Definition store_step (w w' : World) : Prop :=
  w_fs w' = w_fs w /\ w_next_packs w' = w_next_packs w
  /\ w_packsCache w' = w_packsCache w /\ w_processings w' = w_processings w.

(** The file system and the registry are the same; stores may have been
    created. *)
Definition build_step (w w' : World) : Prop :=
  w_fs w' = w_fs w /\ w_packsCache w' = w_packsCache w
  /\ w_processings w' = w_processings w.

(** A store without pack files. *)
Definition empty_store (p : Packs) : Prop :=
  packedIndexMap p = ∅ /\ hasPackFiles p = false /\ packFileNames p = [].

(** An invariant of the registry over a file system [fs] that does not
    change: the promises left in [processings] are rejected ones, of
    directories that do have index files; and a directory without index
    files is only ever registered with an empty store. *)
Definition registry_inv (fs : FileSystem) (w : World) : Prop :=
  w_fs w = fs
  /\ (forall d pr, w_processings w !! d = Some pr ->
        exists e, pr = inl e /\ ~ no_index_files fs d)
  /\ (forall d p, lru_find d (w_packsCache w) = Some p ->
        no_index_files fs d -> empty_store p).


(** ** The version-2 index format as documented *)

Module IdxSpec.

(** Where the 64-bit offset table starts in an index of [n] objects: after
    the 8-byte header, the 256-entry fan-out table, [n] hashes of 20 bytes,
    [n] checksums of 4 bytes and [n] 32-bit offsets. *)
Definition table64_start (n : Z) : Z := 8 + 256 * 4 + n * 20 + n * 4 + n * 4.

(** The offset a 32-bit table entry stands for: itself, or, with its high
    bit set, the 8-byte big-endian entry of the 64-bit table whose index is
    the entry's lower 31 bits. *)
Definition true_offset (buff : Buffer) (n entry : Z) : Z :=
  if Z.testbit entry 31 then
    let i := Z.land entry 0x7fffffff in
    be_value (take 8 (drop (Z.to_nat (table64_start n + 8 * i)) buff))
  else entry.

End IdxSpec.

(** ** A small repository to run the code on *)

Module Sample.

(** A stand-in for zlib: a stream is a length byte [n < 255] followed by
    [n] literal bytes; input that ends before the stream does is
    [Z_BUF_ERROR], a length byte of 255 is [Z_DATA_ERROR]. *)
Definition sample_inflate (buff : Buffer) : error + Buffer :=
  match buff with
  | [] => inl (ZlibError Z_BUF_ERROR)
  | n :: rest =>
      if byte_val n =? 255 then inl (ZlibError (-3))
      else if Z.of_nat (length rest) <? byte_val n
           then inl (ZlibError Z_BUF_ERROR)
           else inr (take (Z.to_nat (byte_val n)) rest)
  end.

Fixpoint base_offset_loop (fuel : nat) (buff : Buffer) (c value offset : Z)
  : Z * Z :=
  if Z.land c 0x80 =? 0 then (value, offset)
  else match fuel with
       | O => (value, offset)
       | S fuel' =>
           let c' := to_int32 (buf_get buff offset) in
           base_offset_loop fuel' buff c'
             (Z.lor (Z.shiftl (value + 1) 7) (Z.land c' 0x7f)) (offset + 1)
       end.

(** Modelled from the spec: [readBaseOffset] of [./delta], which is not
    among the sources.  The value is seeded from the first byte's low 7
    bits; for each continuation byte (high bit set on the previous byte),
    [value = ((value + 1) << 7) | (nextByte & 0x7f)]. *)
Definition sample_readBaseOffset (buff : Buffer) (offset : Z) : Z * Z :=
  let c := to_int32 (buf_get buff offset) in
  base_offset_loop (length buff) buff c (Z.land c 0x7f) (offset + 1).

(** A stand-in for [patchDelta]: the base followed by the delta. *)
Definition sample_patchDelta (src delta : Buffer) : error + Buffer :=
  inr (src ++ delta).

Definition runtime (sem : BufferSemantics) : Runtime :=
  {| buffer_semantics := sem;
     inflate := sample_inflate;
     max_buffer_length := 2 ^ 31 - 1;
     uninitialized := fun _ => [];
     readBaseOffset := sample_readBaseOffset;
     patchDelta := sample_patchDelta |}.

Definition strict_runtime : Runtime := runtime Strict.

Definition be32 (z : Z) : Buffer :=
  u8 <$> [z / 16777216; z / 65536; z / 256; z].

Definition id_commit : Buffer := replicate 20 (u8 0x1a).
Definition id_ofs : Buffer := replicate 20 (u8 0x2b).
Definition id_blob : Buffer := replicate 20 (u8 0x3c).
Definition id_ref : Buffer := replicate 20 (u8 0x4d).
Definition id_big : Buffer := replicate 20 (u8 0x5e).

(** A pack of five objects: a commit at offset 12, an OFS_DELTA on it at
    17, a blob at 22, a REF_DELTA on the commit at 25, and at 48 a commit
    whose stream is longer than the first buffer. *)
Definition pack : Buffer :=
  (u8 <$> [0x50; 0x41; 0x43; 0x4b; 0; 0; 0; 2; 0; 0; 0; 5])
  ++ (u8 <$> [0x13; 3; 0x61; 0x62; 0x63])
  ++ (u8 <$> [0x62; 5; 2; 0x64; 0x65])
  ++ (u8 <$> [0x31; 1; 0x7a])
  ++ (u8 <$> [0x71]) ++ id_commit ++ (u8 <$> [1; 0x66])
  ++ (u8 <$> [0x10; 40]) ++ replicate 40 (u8 0x67).

(** Its version-1 index. *)
Definition idx_v1 : Buffer :=
  mjoin (replicate 0x1a (be32 0)) ++ mjoin (replicate 0x11 (be32 1))
  ++ mjoin (replicate 0x11 (be32 2)) ++ mjoin (replicate 0x11 (be32 3))
  ++ mjoin (replicate 0x11 (be32 4)) ++ mjoin (replicate 0xa2 (be32 5))
  ++ be32 12 ++ id_commit ++ be32 17 ++ id_ofs ++ be32 22 ++ id_blob
  ++ be32 25 ++ id_ref ++ be32 48 ++ id_big
  ++ replicate 40 x00.

(** A version-2 index of one object whose 32-bit offset entry has the high
    bit set and selects entry 0 of the 64-bit table, which holds
    [2^32 + 12]. *)
Definition idx_v2_large : Buffer :=
  (u8 <$> [0xff; 0x74; 0x4f; 0x63]) ++ be32 2
  ++ mjoin (replicate 0x1a (be32 0)) ++ mjoin (replicate 0xe6 (be32 1))
  ++ id_commit
  ++ be32 0
  ++ be32 0x80000000
  ++ be32 1 ++ be32 12
  ++ replicate 40 x00.

Definition fs : FileSystem :=
  {| fs_dirs :=
       {[ "repo/objects/pack" := ["pack-1.idx"; "pack-1.pack"];
          "large/objects/pack" := ["pack-2.idx"; "pack-2.pack"];
          "bare/objects/pack" := ["README"];
          "torn/objects/pack" := ["pack-3.idx"] ]};
     fs_files :=
       {[ "repo/objects/pack/pack-1.idx" := idx_v1;
          "repo/objects/pack/pack-1.pack" := pack;
          "large/objects/pack/pack-2.idx" := idx_v2_large;
          "torn/objects/pack/pack-3.idx" := [] ]} |}.

(** The same file system after the index of [torn] has been written out. *)
Definition fs_repaired : FileSystem :=
  {| fs_dirs := fs_dirs fs;
     fs_files := <["torn/objects/pack/pack-3.idx" := idx_v1]> (fs_files fs) |}.

(** The store [initialize("repo")] builds in a fresh process. *)
Definition store : Packs :=
  {| packDir := "repo/objects/pack";
     packFileNames := ["pack-1"];
     packedIndexMap :=
       {[ to_hex id_commit := mkPackedIndex 12 0;
          to_hex id_ofs := mkPackedIndex 17 0;
          to_hex id_blob := mkPackedIndex 22 0;
          to_hex id_ref := mkPackedIndex 25 0;
          to_hex id_big := mkPackedIndex 48 0 ]};
     hasPackFiles := true;
     packedObjectCache := 0 |}.

(** A process that has opened the pack file (descriptor 3). *)
Definition opened : World :=
  (fs_open Blocking "repo/objects/pack/pack-1.pack" (boot fs)).2.


End Sample.

(** ** Index files and object headers as git writes them *)

Module IdxLayout.

(** An index entry: the 20-byte object id and the object's offset in the
    pack file. *)
Definition entry : Type := Buffer * Z.

(** Ids of 20 bytes, offsets that fit the table entry ([bound] is [2^32] for
    version 1 and [2^31] for a version-2 entry without the high bit). *)
Definition entries_ok (bound : Z) (es : list entry) : Prop :=
  Forall (fun e : entry => length e.1 = 20%nat /\ 0 <= e.2 < bound) es.

(** A version-1 index: the first 255 fan-out entries, the last fan-out
    entry (the number of objects), then per object the 4-byte offset followed
    by the id, then the trailer. *)
Definition v1 (fanout : Buffer) (es : list entry) (trailer : Buffer)
  : Buffer :=
  fanout ++ Sample.be32 (Z.of_nat (length es))
  ++ mjoin ((fun e : entry => Sample.be32 e.2 ++ e.1) <$> es)
  ++ trailer.

(** A version-2 index: the magic number, the version, the fan-out table, the
    table of ids, the table of checksums, the table of 32-bit offsets, then
    the rest (64-bit offsets and trailer). *)
Definition v2 (version : Z) (fanout : Buffer) (es : list entry)
    (crcs rest : Buffer) : Buffer :=
  Sample.be32 0xff744f63 ++ Sample.be32 version
  ++ fanout ++ Sample.be32 (Z.of_nat (length es))
  ++ mjoin (fst <$> es)
  ++ crcs
  ++ mjoin ((fun e : entry => Sample.be32 e.2) <$> es)
  ++ rest.

(** The map after the entries have been stored in order. *)
Definition stored (fileIndex : Z) (es : list entry)
    (map : gmap string PackedIndex) : gmap string PackedIndex :=
  foldl (fun m (e : entry) => <[to_hex e.1 := mkPackedIndex e.2 fileIndex]> m)
    map es.

End IdxLayout.

Module HeaderLayout.

(** The bytes after the first one: 7 bits of [s] per byte, least
    significant group first, every byte but the last with the continuation
    flag; at most [n] bytes. *)
Fixpoint size_tail (n : nat) (s : Z) : list Z :=
  match n with
  | O => []
  | S n' =>
      if s <? 128 then [s]
      else (128 + s mod 128) :: size_tail n' (s / 128)
  end.

(** The header of an object of kind [type] and inflated size [size]: the
    kind in bits 4-6 and the low 4 bits of the size in the first byte, the
    other bits of the size in the bytes after it. *)
Definition encode (type size : Z) : Buffer :=
  let first := type * 16 + size mod 16 in
  if size / 16 =? 0 then [u8 first]
  else u8 <$> (128 + first) :: size_tail 7 (size / 16).

End HeaderLayout.

(** ** Hexadecimal text, read back *)

(** The value of a lower-case hexadecimal digit. *)
Definition hex_value (c : ascii) : option Z :=
  let n := Z.of_nat (nat_of_ascii c) in
  if (48 <=? n) && (n <=? 57) then Some (n - 48)
  else if (97 <=? n) && (n <=? 102) then Some (n - 87)
  else None.

(** The bytes that a text of lower-case hexadecimal digits denotes: two
    digits per byte, the high digit first. *)
Fixpoint of_hex (text : string) : option Buffer :=
  match text with
  | EmptyString => Some []
  | String _ EmptyString => None
  | String hi (String lo rest) =>
      match hex_value hi, hex_value lo, of_hex rest with
      | Some h, Some l, Some bytes => Some (u8 (h * 16 + l) :: bytes)
      | _, _, _ => None
      end
  end.

(** ** Predicates about descriptors and the decoded-object caches *)

(** No descriptor at or above the next one to be handed out is open. *)
Definition fds_fresh (w : World) : Prop :=
  forall fd, w_next_fd w <= fd -> w_fds w !! fd = None.

(** The descriptor a call is handed by its caller, if any. *)
Definition own_of (c : call) : option Z :=
  match c with
  | Resolve _ => None
  | ResolveAt fd _ => Some fd
  end.

(** From a world whose open descriptors are all below the next one, with
    the descriptor [own] among them: the same holds afterwards, every
    descriptor other than [own] is open or closed as it was, with the same
    file and position, and [own] is still open if it was. *)
Definition fds_step (own : option Z) (w w' : World) : Prop :=
  fds_fresh w ->
  (forall fd, own = Some fd -> fd < w_next_fd w) ->
  fds_fresh w'
  /\ w_next_fd w <= w_next_fd w'
  /\ (forall fd, own <> Some fd -> w_fds w' !! fd = w_fds w !! fd)
  /\ (forall fd, own = Some fd ->
        is_Some (w_fds w !! fd) -> is_Some (w_fds w' !! fd)).

(** Effects of the runs that return or throw stay within a preorder. *)
Definition stable_nd {A} (R : relation World) (m : M A) : Prop :=
  forall w, (m w).1 <> Diverge -> R w (m w).2.

(** The file system and the registry are the same, the caches of the other
    stores are the same, and the cache of [this] has lost no key. *)
Definition cache_step (this : Packs) (w w' : World) : Prop :=
  store_step w w'
  /\ (forall id, id <> packedObjectCache this ->
        w_objects w' !! id = w_objects w !! id)
  /\ (forall k, is_Some (object_cache this w !! k) ->
        is_Some (object_cache this w' !! k)).

(** ** Builds and the stores they return *)

Section Builds.
Context `{RT : Runtime}.

(** The build that [_initialize] ([mode = Suspending]) and [initializeSync]
    ([mode = Blocking]) share: list the pack directory, keep the index
    files, parse each of them, create the store. *)
Definition build (mode : Mode) (gitDir : string) : M Packs :=
  let dir := pack_dir_of gitDir in
  listing ← settled (fs_readdir mode dir);
  match listing with
  | inl _ => new_Packs gitDir [] ∅
  | inr names =>
      let fileNames := idx_base_names names in
      if bool_decide (length fileNames = 0%nat) then new_Packs gitDir [] ∅
      else
        map ← read_indexes mode dir fileNames 0 ∅;
        new_Packs dir fileNames map
  end.

(** [p] is a store that a build of [gitDir] over the file system [fs] has
    returned. *)
Definition built_from (fs : FileSystem) (gitDir : string) (p : Packs) : Prop :=
  exists mode w0 w1, w_fs w0 = fs /\ build mode gitDir w0 = (Ok p, w1).

(** Every store in the registry has been built over [fs] for the directory
    it is registered under. *)
Definition registry_built (fs : FileSystem) (w : World) : Prop :=
  w_fs w = fs
  /\ forall d p, lru_find d (w_packsCache w) = Some p -> built_from fs d p.

End Builds.

(** The registry holds at most [lru_max] stores, under distinct names. *)
Definition registry_bounded (w : World) : Prop :=
  (length (w_packsCache w) <= lru_max)%nat /\ NoDup (w_packsCache w).*1.

(** The name contains a dot. *)
Fixpoint has_dot (name : string) : bool :=
  match name with
  | EmptyString => false
  | String c rest => bool_decide (c = "."%char) || has_dot rest
  end.

(** ** The two copies of each operation *)

(** An event with the mode [m] in place of its own. *)
Definition with_mode (m : Mode) (ev : io_event) : io_event :=
  match ev with
  | IoReaddir _ path => IoReaddir m path
  | IoReadFile _ path => IoReadFile m path
  | IoOpen _ path => IoOpen m path
  | IoRead _ fd position len => IoRead m fd position len
  | IoClose _ fd => IoClose m fd
  end.

(** Two worlds that differ at most in the modes recorded in the trace. *)
Definition same_but_modes (w w' : World) : Prop :=
  set_trace [] w = set_trace [] w'
  /\ with_mode Blocking <$> w_trace w = with_mode Blocking <$> w_trace w'.

(** Two pieces of code that, from worlds that differ at most in the
    recorded modes, have the same outcome and lead to such worlds again. *)
Definition agree {A} (m1 m2 : M A) : Prop :=
  forall w w', same_but_modes w w' ->
    (m1 w).1 = (m2 w').1 /\ same_but_modes (m1 w).2 (m2 w').2.

(** ** The two copies of the resolver, each written out on its own

    The source has every method of the resolver twice, once on the blocking
    file-system calls and once on the suspending ones.  Each copy is
    embedded here from its own lines; [fuel] bounds the depth of the
    recursion and the number of attempts of a decompression. *)

Module BlockingCopy.
Section Code.
Context `{RT : Runtime}.

(** [infSync(fd, idx, po, size)]. *)
Fixpoint infSync (fuel : nat) (fd : Z) (idx : PackedIndex) (po : PackedObject)
    (size : Z) : M Buffer :=
  match fuel with
  | O => diverge
  | S fuel' =>
      buff ← lift (Buffer_allocUnsafe size);
      data ← fs_read Blocking fd (JS.add (idx_offset idx) (po_offset po))
               (Z.of_nat (length buff));
      match inflate (buffer_fill buff data) with
      | inr out => mret out
      | inl e =>
          if decide (errno e = Some Z_BUF_ERROR)
          then infSync fuel' fd idx po (JS.add size 128)
          else throw e
      end
  end.

Section Bodies.
Variable fuel : nat.
Variable this : Packs.
Variable recur : call -> M Buffer.

(** [_unpackDeltaObjectSync(fd, idx, po, head)]. *)
Definition _unpackDeltaObjectSync (fd : Z) (idx : PackedIndex)
    (po : PackedObject) (head : Buffer) : M Buffer :=
  '(src, po) ←
    (if po_type po =? ObjectTypeEnum.OFS_DELTA then
       let '(baseOffset, offset) := readBaseOffset head (po_offset po) in
       let po := mkPackedObject (po_type po) (po_size po) offset in
       src ← recur (ResolveAt fd
                {| idx_offset := JS.sub (idx_offset idx) baseOffset;
                   idx_fileIndex := idx_fileIndex idx |});
       mret (src, po)
     else
       src ← recur (Resolve (readHash head (po_offset po)));
       mret (src, mkPackedObject (po_type po) (po_size po) (po_offset po + 20)));
  delta ← infSync fuel fd idx po (JS.add (po_size po * 2) 32);
  lift (patchDelta src delta).

(** [_unpackGitObjectSync(fd, idx)]. *)
Definition _unpackGitObjectSync (fd : Z) (idx : PackedIndex) : M Buffer :=
  dst ← _getPackedObjectBufferFromCach this idx;
  match dst with
  | Some dst => mret dst
  | None =>
      data ← fs_read Blocking fd (idx_offset idx) 32;
      let head := buffer_fill (Buffer_alloc 32) data in
      match new_PackedObject head with
      | None => diverge
      | Some po =>
          dst ←
            (if (po_type po =? ObjectTypeEnum.COMMIT)
                || (po_type po =? ObjectTypeEnum.TAG)
             then d ← infSync fuel fd idx po (JS.add (po_size po * 2) 32);
                  mret (Some d)
             else if (po_type po =? ObjectTypeEnum.OFS_DELTA)
                     || (po_type po =? ObjectTypeEnum.REF_DELTA)
             then d ← _unpackDeltaObjectSync fd idx po head;
                  mret (Some d)
             else mret None);
          match dst with
          | None => throw (InvalidObjectType (po_type po))
          | Some dst =>
              _setPackedObjectBuffrToCache this idx dst;;
              mret dst
          end
      end
  end.

(** [unpackGitObjectSync(hash)]. *)
Definition unpackGitObjectSync (hash : string) : M Buffer :=
  idx ← _getPackedIndexFromCache this hash;
  dst ← _getPackedObjectBufferFromCach this idx;
  match dst with
  | Some dst => mret dst
  | None =>
      fd ← fs_open Blocking (_getPackFilePath this idx);
      try_finally (recur (ResolveAt fd idx)) (fs_close Blocking fd)
  end.

End Bodies.

(** The recursion through the three methods. *)
Fixpoint resolve (fuel : nat) (this : Packs) (c : call) : M Buffer :=
  match fuel with
  | O => diverge
  | S fuel' =>
      match c with
      | Resolve hash => unpackGitObjectSync this (resolve fuel' this) hash
      | ResolveAt fd idx =>
          _unpackGitObjectSync fuel this (resolve fuel' this) fd idx
      end
  end.

End Code.
End BlockingCopy.

Module SuspendingCopy.
Section Code.
Context `{RT : Runtime}.

(** [inf(fd, idx, po, size)]. *)
Fixpoint inf (fuel : nat) (fd : Z) (idx : PackedIndex) (po : PackedObject)
    (size : Z) : M Buffer :=
  match fuel with
  | O => diverge
  | S fuel' =>
      buff ← lift (Buffer_allocUnsafe size);
      data ← fs_read Suspending fd (JS.add (idx_offset idx) (po_offset po))
               (Z.of_nat (length buff));
      match inflate (buffer_fill buff data) with
      | inr out => mret out
      | inl e =>
          if decide (errno e = Some Z_BUF_ERROR)
          then inf fuel' fd idx po (JS.add size 128)
          else throw e
      end
  end.

Section Bodies.
Variable fuel : nat.
Variable this : Packs.
Variable recur : call -> M Buffer.

(** [_unpackDeltaObject(fd, idx, po, head)]. *)
Definition _unpackDeltaObject (fd : Z) (idx : PackedIndex)
    (po : PackedObject) (head : Buffer) : M Buffer :=
  '(src, po) ←
    (if po_type po =? ObjectTypeEnum.OFS_DELTA then
       let '(baseOffset, offset) := readBaseOffset head (po_offset po) in
       let po := mkPackedObject (po_type po) (po_size po) offset in
       src ← recur (ResolveAt fd
                {| idx_offset := JS.sub (idx_offset idx) baseOffset;
                   idx_fileIndex := idx_fileIndex idx |});
       mret (src, po)
     else
       src ← recur (Resolve (readHash head (po_offset po)));
       mret (src, mkPackedObject (po_type po) (po_size po) (po_offset po + 20)));
  delta ← inf fuel fd idx po (JS.add (po_size po * 2) 32);
  lift (patchDelta src delta).

(** [_unpackGitObject(fd, idx)]. *)
Definition _unpackGitObject (fd : Z) (idx : PackedIndex) : M Buffer :=
  dst ← _getPackedObjectBufferFromCach this idx;
  match dst with
  | Some dst => mret dst
  | None =>
      data ← fs_read Suspending fd (idx_offset idx) 32;
      let head := buffer_fill (Buffer_alloc 32) data in
      match new_PackedObject head with
      | None => diverge
      | Some po =>
          dst ←
            (if (po_type po =? ObjectTypeEnum.COMMIT)
                || (po_type po =? ObjectTypeEnum.TAG)
             then d ← inf fuel fd idx po (JS.add (po_size po * 2) 32);
                  mret (Some d)
             else if (po_type po =? ObjectTypeEnum.OFS_DELTA)
                     || (po_type po =? ObjectTypeEnum.REF_DELTA)
             then d ← _unpackDeltaObject fd idx po head;
                  mret (Some d)
             else mret None);
          match dst with
          | None => throw (InvalidObjectType (po_type po))
          | Some dst =>
              _setPackedObjectBuffrToCache this idx dst;;
              mret dst
          end
      end
  end.

(** [unpackGitObject(hash)]. *)
Definition unpackGitObject (hash : string) : M Buffer :=
  idx ← _getPackedIndexFromCache this hash;
  dst ← _getPackedObjectBufferFromCach this idx;
  match dst with
  | Some dst => mret dst
  | None =>
      fd ← fs_open Suspending (_getPackFilePath this idx);
      try_finally (recur (ResolveAt fd idx)) (fs_close Suspending fd)
  end.

End Bodies.

(** The recursion through the three methods. *)
Fixpoint resolve (fuel : nat) (this : Packs) (c : call) : M Buffer :=
  match fuel with
  | O => diverge
  | S fuel' =>
      match c with
      | Resolve hash => unpackGitObject this (resolve fuel' this) hash
      | ResolveAt fd idx =>
          _unpackGitObject fuel this (resolve fuel' this) fd idx
      end
  end.

End Code.
End SuspendingCopy.

(** The call is answered from the decoded-object cache of [this], with
    [bytes]. *)
Definition in_cache (this : Packs) (w : World) (c : call) (bytes : Buffer)
  : Prop :=
  match c with
  | Resolve hash =>
      exists idx, packedIndexMap this !! hash = Some idx
        /\ object_cache this w !! (idx_fileIndex idx, idx_offset idx)
           = Some bytes
  | ResolveAt _ idx =>
      object_cache this w !! (idx_fileIndex idx, idx_offset idx) = Some bytes
  end.

(** ** Further scenes on the sample repository *)

Module Scenes.

(** A process that has resolved the sample commit. *)
Definition warmed : World :=
  (@unpack Sample.strict_runtime 5 Blocking Sample.store
     (Resolve (to_hex Sample.id_commit)) (boot Sample.fs)).2.

(** The 32 bytes read at the OFS_DELTA object, offset 17. *)
Definition ofs_head : Buffer :=
  buffer_fill (Buffer_alloc 32) (file_read Sample.pack 0 17 32).

(** A store whose only index entry points at offset 1000 of the sample
    pack, which has 90 bytes. *)
Definition far_store : Packs :=
  {| packDir := "repo/objects/pack";
     packFileNames := ["pack-1"];
     packedIndexMap := {[ "ab" := mkPackedIndex 1000 0 ]};
     hasPackFiles := true;
     packedObjectCache := 0 |}.

(** A pack directory that lists [pack-9.2.idx] and nothing else. *)
Definition odd_fs : FileSystem :=
  {| fs_dirs := {[ "odd/objects/pack" := ["pack-9.2.idx"] ]};
     fs_files := {[ "odd/objects/pack/pack-9.2.idx" := [] ]} |}.

(** The process after [bare] and then four directories that have no pack
    directory have been initialised. *)
Definition visits (n : nat) : World :=
  @run_calls Sample.strict_runtime
    (take (S n)
       [CallInitialize "bare"; CallInitialize "a"; CallInitializeSync "b";
        CallInitialize "c"; CallInitializeSync "e"])
    (boot Sample.fs).

(** The empty store created for [name] as the [id]-th store of the
    process. *)
Definition empty_store_of (name : string) (id : nat) : Packs :=
  {| packDir := name;
     packFileNames := [];
     packedIndexMap := ∅;
     hasPackFiles := false;
     packedObjectCache := id |}.

(** A header of three bytes: a commit of 5 + 5 * 16 + 3 * 2048 bytes. *)
Definition three_byte_header : Buffer := u8 <$> [0x95; 0x85; 0x03].

(** A version-1 index of two objects, the sample commit at offset 12 and
    the OFS_DELTA at offset 17; a map that already holds an entry under
    another key and an older entry for the commit; and the map after the
    index has been parsed into it as pack file 7. *)
Definition two_entry_index : Buffer :=
  IdxLayout.v1 (replicate 1020 x00)
    [(Sample.id_commit, 12); (Sample.id_ofs, 17)] [].

Definition prefilled : gmap string PackedIndex :=
  {[ "k" := mkPackedIndex 5 9; to_hex Sample.id_commit := mkPackedIndex 99 3 ]}.

Definition parsed : gmap string PackedIndex :=
  <[to_hex Sample.id_ofs := mkPackedIndex 17 7]>
    (<[to_hex Sample.id_commit := mkPackedIndex 12 7]> prefilled).

(** The sample file system after the pack directory of [torn] has been
    removed. *)
Definition fs_cleared : FileSystem :=
  {| fs_dirs := delete "torn/objects/pack" (fs_dirs Sample.fs);
     fs_files := delete "torn/objects/pack/pack-3.idx" (fs_files Sample.fs) |}.

(** A pack of one commit, at offset 12, whose header declares 5 bytes and
    whose stream takes 61 bytes: more than the first buffer, of 42 bytes,
    holds. *)
Definition long_pack : Buffer :=
  (u8 <$> [0x50; 0x41; 0x43; 0x4b; 0; 0; 0; 2; 0; 0; 0; 1])
  ++ (u8 <$> [0x15; 60]) ++ replicate 60 (u8 0x68).

Definition long_fs : FileSystem :=
  {| fs_dirs := {[ "long/objects/pack" := ["pack-4.pack"] ]};
     fs_files := {[ "long/objects/pack/pack-4.pack" := long_pack ]} |}.

(** A store whose only index entry points at that commit. *)
Definition long_store : Packs :=
  {| packDir := "long/objects/pack";
     packFileNames := ["pack-4"];
     packedIndexMap := {[ "cd" := mkPackedIndex 12 0 ]};
     hasPackFiles := true;
     packedObjectCache := 0 |}.

(** A process that has opened that pack file (descriptor 3). *)
Definition long_opened : World :=
  (fs_open Blocking "long/objects/pack/pack-4.pack" (boot long_fs)).2.

End Scenes.

(** * Supporting lemmas *)

Lemma byte_val_range b : 0 <= byte_val b < 256.
Proof. destruct b; vm_compute; split; congruence. Qed.

Lemma land_0x80_testbit b :
  (Z.land (byte_val b) 0x80 =? 0) = negb (HeaderSpec.continues (byte_val b)).
Proof. destruct b; reflexivity. Qed.

Lemma land_0x7f_mod b : Z.land (byte_val b) 0x7f = byte_val b mod 128.
Proof. destruct b; reflexivity. Qed.

Lemma land_15_mod b : Z.land (byte_val b) 15 = byte_val b mod 16.
Proof. destruct b; reflexivity. Qed.

Lemma shiftr_4_type b :
  Z.land (Z.shiftr (byte_val b) 4) 7 = (byte_val b / 16) mod 8.
Proof. destruct b; reflexivity. Qed.

Lemma multiplier_succ i : HeaderSpec.multiplier i * 128 = HeaderSpec.multiplier (S i).
Proof.
  unfold HeaderSpec.multiplier. rewrite Nat2Z.inj_succ, Z.pow_succ_r by lia. lia.
Qed.

Lemma buf_get_app_length (pre rest : Buffer) :
  buf_get (pre ++ rest) (Z.of_nat (length pre)) = byte_val <$> head rest.
Proof.
  unfold buf_get. destruct (Z.ltb_spec (Z.of_nat (length pre)) 0); [lia|].
  rewrite Nat2Z.id. rewrite lookup_app_r by lia.
  replace (length pre - length pre)%nat with 0%nat by lia. by destruct rest.
Qed.


Lemma to_int32_Some z : to_int32 (Some z) = z.
Proof. reflexivity. Qed.

Ltac simp_int32 :=
  cbn [fmap option_fmap option_map] in *;
  rewrite ?to_int32_Some in *;
  change (to_int32 None) with 0 in *.

Lemma header_loop_spec (rest : Buffer) : forall (pre : Buffer) (c : option byte) s i fuel,
  (length rest < fuel)%nat ->
  exists st,
    header_loop fuel (pre ++ rest)
      {| hl_c := byte_val <$> c; hl_size := s;
         hl_offset := Z.of_nat (length pre);
         hl_x := HeaderSpec.multiplier i |} = Some st
    /\ hl_size st =
         HeaderSpec.accumulate i s
           (HeaderSpec.continuation_bytes (to_int32 (byte_val <$> c))
              (byte_val <$> rest))
    /\ hl_offset st =
         Z.of_nat (length pre)
         + Z.of_nat (length (HeaderSpec.continuation_bytes
                               (to_int32 (byte_val <$> c)) (byte_val <$> rest))).
Proof.
  induction rest as [|b' rest' IH]; intros pre c s i fuel Hfuel.
  - destruct c as [b|]; simp_int32.
    + destruct fuel as [|fuel']; [cbn in Hfuel; lia|].
      cbn [header_loop hl_c]; simp_int32.
      rewrite land_0x80_testbit.
      rewrite ?fmap_cons, ?fmap_nil; cbn [HeaderSpec.continuation_bytes].
      destruct (HeaderSpec.continues (byte_val b)); cbn [negb].
      * unfold header_loop_body; cbn [hl_offset hl_size hl_x].
        rewrite buf_get_app_length. cbn [head]; simp_int32.
        eexists; split; [destruct fuel'; reflexivity|].
        cbn [hl_size hl_offset HeaderSpec.accumulate length].
        split; [reflexivity | lia].
      * eexists; split; [reflexivity|]. cbn. split; [reflexivity | lia].
    + exists {| hl_c := None; hl_size := s; hl_offset := Z.of_nat (length pre);
                hl_x := HeaderSpec.multiplier i |}.
      split; [destruct fuel; reflexivity|]. cbn. split; [reflexivity | lia].
  - destruct c as [b|]; simp_int32.
    + destruct fuel as [|fuel']; [cbn in Hfuel; lia|].
      cbn [header_loop hl_c]; simp_int32.
      rewrite land_0x80_testbit.
      rewrite ?fmap_cons, ?fmap_nil; cbn [HeaderSpec.continuation_bytes].
      destruct (HeaderSpec.continues (byte_val b)); cbn [negb].
      * unfold header_loop_body; cbn [hl_offset hl_size hl_x].
        rewrite buf_get_app_length.
        cbn [head]; simp_int32.
        rewrite land_0x7f_mod, multiplier_succ.
        replace (Z.of_nat (length pre) + 1) with (Z.of_nat (length (pre ++ [b'])))
          by (rewrite length_app; cbn; lia).
        replace (pre ++ b' :: rest') with ((pre ++ [b']) ++ rest')
          by (rewrite <- app_assoc; reflexivity).
        destruct (IH (pre ++ [b']) (Some b')
                    (JS.add s (byte_val b' mod 128 * HeaderSpec.multiplier i))
                    (S i) fuel') as (st & Hrun & Hsize & Hoff);
          [cbn in Hfuel; lia|].
        exists st. split; [exact Hrun|].
        simp_int32.
        cbn [HeaderSpec.accumulate length].
        split; [exact Hsize|]. rewrite Hoff, length_app. cbn [length]. lia.
      * eexists; split; [reflexivity|]. cbn. split; [reflexivity | lia].
    + exists {| hl_c := None; hl_size := s; hl_offset := Z.of_nat (length pre);
                hl_x := HeaderSpec.multiplier i |}.
      split; [destruct fuel; reflexivity|]. cbn. split; [reflexivity | lia].
Qed.

Lemma new_PackedObject_spec (buff : Buffer) :
  new_PackedObject buff =
  Some {| po_type := HeaderSpec.type_code buff;
          po_size := HeaderSpec.size buff;
          po_offset := HeaderSpec.consumed buff |}.
Proof.
  unfold new_PackedObject, HeaderSpec.type_code, HeaderSpec.size,
    HeaderSpec.consumed, HeaderSpec.conts, HeaderSpec.first_byte.
  destruct buff as [|b0 rest].
  - reflexivity.
  - change (buf_get (b0 :: rest) 0) with (byte_val <$> Some b0).
    change (b0 :: rest) with ([b0] ++ rest) at 2.
    destruct (header_loop_spec rest [b0] (Some b0)
                (Z.land (to_int32 (byte_val <$> Some b0)) 15) 0
                (length (b0 :: rest))) as (st & Hrun & Hsize & Hoff);
      [cbn; lia|].
    change (Z.of_nat (length [b0])) with 1 in Hrun, Hoff.
    change (HeaderSpec.multiplier 0) with 16 in Hrun.
    rewrite Hrun. cbn [mbind option_bind].
    cbn [tail] in *; simp_int32.
    rewrite shiftr_4_type, Hsize, Hoff, land_15_mod. reflexivity.
Qed.

Lemma JS_add_exact a b : 0 <= a + b < 2 ^ 53 -> JS.add a b = a + b.
Proof.
  intros H. unfold JS.add, JS.to_number, JS.round53.
  destruct (Z.ltb_spec (a + b) 0); [lia|].
  destruct (Z.ltb_spec (a + b) (2 ^ 53)); [reflexivity | lia].
Qed.

Lemma multiplier_pos i : 0 < HeaderSpec.multiplier i.
Proof. unfold HeaderSpec.multiplier. assert (0 < 128 ^ Z.of_nat i) by (apply Z.pow_pos_nonneg; lia). lia. Qed.

Lemma multiplier_mono i j : (i <= j)%nat -> HeaderSpec.multiplier i <= HeaderSpec.multiplier j.
Proof.
  intros H. unfold HeaderSpec.multiplier.
  assert (128 ^ Z.of_nat i <= 128 ^ Z.of_nat j) by (apply Z.pow_le_mono_r; lia). lia.
Qed.

Lemma accumulate_exact cs : forall i s,
  (i + length cs <= 7)%nat -> 0 <= s < HeaderSpec.multiplier i ->
  HeaderSpec.accumulate i s cs = s + HeaderSpec.exact_sum i cs
  /\ 0 <= HeaderSpec.accumulate i s cs < HeaderSpec.multiplier (i + length cs).
Proof.
  induction cs as [|b cs IH]; intros i s Hlen Hs; cbn [HeaderSpec.accumulate HeaderSpec.exact_sum length] in *.
  - rewrite Nat.add_0_r. lia.
  - assert (Hb : 0 <= b mod 128 < 128) by (apply Z.mod_pos_bound; lia).
    pose proof (multiplier_pos i) as Hm.
    pose proof (multiplier_succ i) as Hsucc.
    pose proof (multiplier_mono (S i) 7 ltac:(lia)) as Hle.
    change (HeaderSpec.multiplier 7) with (2 ^ 53) in Hle.
    assert (Hbound : 0 <= s + b mod 128 * HeaderSpec.multiplier i < HeaderSpec.multiplier (S i)) by nia.
    rewrite JS_add_exact by lia.
    destruct (IH (S i) (s + b mod 128 * HeaderSpec.multiplier i)) as [Heq Hlt]; [lia | exact Hbound |].
    rewrite Heq in *. replace (i + S (length cs))%nat with (S i + length cs)%nat by lia.
    split; [lia | exact Hlt].
Qed.

Lemma header_size_exact (buff : Buffer) :
  (length (HeaderSpec.conts buff) <= 7)%nat ->
  HeaderSpec.size buff =
    HeaderSpec.first_byte buff mod 16 + HeaderSpec.exact_sum 0 (HeaderSpec.conts buff)
  /\ 0 <= HeaderSpec.size buff < 2 ^ 53.
Proof.
  intros Hlen. unfold HeaderSpec.size.
  destruct (accumulate_exact (HeaderSpec.conts buff) 0 (HeaderSpec.first_byte buff mod 16))
    as [Heq Hlt]; [lia | |].
  - change (HeaderSpec.multiplier 0) with 16. apply Z.mod_pos_bound. lia.
  - split; [exact Heq|].
    pose proof (multiplier_mono (0 + length (HeaderSpec.conts buff)) 7 ltac:(lia)) as Hle.
    change (HeaderSpec.multiplier 7) with (2 ^ 53) in Hle. lia.
Qed.

Example header_example :
  new_PackedObject (u8 <$> [0x95; 0x0a; 0x78; 0x9c]) =
  Some {| po_type := 1; po_size := 165; po_offset := 2 |}.
Proof. reflexivity. Qed.

(** ** Running code step by step *)

Lemma bind_run {A B} (m : M A) (f : A -> M B) (w : World) :
  (m ≫= f) w =
  match m w with
  | (Ok a, w') => f a w'
  | (Throw e, w') => (Throw e, w')
  | (Diverge, w') => (Diverge, w')
  | (Inherited name, w') => (Inherited name, w')
  end.
Proof. reflexivity. Qed.

Lemma bind_ok {A B} (m : M A) (f : A -> M B) (w w' : World) (a : A) :
  m w = (Ok a, w') -> (m ≫= f) w = f a w'.
Proof. intros H. rewrite bind_run, H. reflexivity. Qed.

Lemma bind_throw {A B} (m : M A) (f : A -> M B) (w w' : World) (e : error) :
  m w = (Throw e, w') -> (m ≫= f) w = (Throw e, w').
Proof. intros H. rewrite bind_run, H. reflexivity. Qed.

Lemma bind_ok_inv {A B} (m : M A) (f : A -> M B) (w w2 : World) (b : B) :
  (m ≫= f) w = (Ok b, w2) ->
  exists a w1, m w = (Ok a, w1) /\ f a w1 = (Ok b, w2).
Proof.
  rewrite bind_run. destruct (m w) as [[a|e| |?] w1]; intros H; try discriminate.
  eauto.
Qed.

Lemma try_finally_ok_inv {A} (body : M A) (cleanup : M unit) (w w2 : World) (a : A) :
  try_finally body cleanup w = (Ok a, w2) ->
  exists w1, body w = (Ok a, w1) /\ cleanup w1 = (Ok tt, w2).
Proof.
  unfold try_finally. destruct (body w) as [[a'|e| |?] w1]; try discriminate.
  - destruct (cleanup w1) as [[[]|e| |?] w1'] eqn:Hc; intros H; try discriminate.
    injection H as -> ->. eauto.
  - destruct (cleanup w1) as [[[]|e'| |?] w1']; discriminate.
  - destruct (cleanup w1) as [[[]|e'| |?] w1']; discriminate.
Qed.

Section Stable.
Context (R : relation World) `{!PreOrder R}.

Lemma stable_ret {A} (a : A) : stable R (mret a).
Proof. intros w. reflexivity. Qed.

Lemma stable_throw {A} (e : error) : stable R (@throw A e).
Proof. intros w. reflexivity. Qed.

Lemma stable_diverge {A} : stable R (@diverge A).
Proof. intros w. reflexivity. Qed.

Lemma stable_inherited {A} (name : string) : stable R (@inherited A name).
Proof. intros w. reflexivity. Qed.

Lemma stable_get_world : stable R get_world.
Proof. intros w. reflexivity. Qed.

Lemma stable_lift {A} (r : error + A) : stable R (lift r).
Proof. destruct r; [apply stable_throw | apply stable_ret]. Qed.

Lemma stable_bind {A B} (m : M A) (f : A -> M B) :
  stable R m -> (forall a, stable R (f a)) -> stable R (m ≫= f).
Proof.
  intros Hm Hf w. rewrite bind_run. specialize (Hm w).
  destruct (m w) as [[a|e| |?] w1]; cbn [snd] in *; try exact Hm.
  etransitivity; [exact Hm | apply Hf].
Qed.

Lemma stable_try_finally {A} (body : M A) (cleanup : M unit) :
  stable R body -> stable R cleanup -> stable R (try_finally body cleanup).
Proof.
  intros Hb Hc w. unfold try_finally. specialize (Hb w).
  destruct (body w) as [[a|e| |?] w1]; cbn [snd] in *; try exact Hb.
  - specialize (Hc w1). destruct (cleanup w1) as [[[]|e| |?] w2]; cbn [snd] in *;
      etransitivity; eauto.
  - specialize (Hc w1). destruct (cleanup w1) as [[[]|e'| |?] w2]; cbn [snd] in *;
      etransitivity; eauto.
  - specialize (Hc w1). destruct (cleanup w1) as [[[]|e'| |?] w2]; cbn [snd] in *;
      etransitivity; eauto.
Qed.

Lemma stable_settled {A} (body : M A) :
  stable R body -> stable R (settled body).
Proof.
  intros Hb w. unfold settled. specialize (Hb w).
  destruct (body w) as [[a|e| |?] w1]; exact Hb.
Qed.

Lemma stable_modify (f : World -> World) :
  (forall w, R w (f w)) -> stable R (modify f).
Proof. intros H w. apply H. Qed.

End Stable.

(** Apply a [stable] lemma and discharge its preorder side condition. *)
Ltac stable_by lem := apply lem; try typeclasses eauto.

(** ** What the file-system calls leave alone *)

#[global] Instance io_step_preorder : PreOrder io_step.
Proof.
  split.
  - intros w. repeat split.
  - intros w1 w2 w3 (? & ? & ? & ? & ?) (? & ? & ? & ? & ?).
    repeat split; congruence.
Qed.

#[global] Instance store_step_preorder : PreOrder store_step.
Proof.
  split.
  - intros w. repeat split.
  - intros w1 w2 w3 (? & ? & ? & ?) (? & ? & ? & ?).
    repeat split; congruence.
Qed.

Lemma io_step_store_step w w' : io_step w w' -> store_step w w'.
Proof. intros (? & ? & ? & ? & ?). repeat split; assumption. Qed.

Lemma stable_io_store {A} (m : M A) : stable io_step m -> stable store_step m.
Proof. intros H w. apply io_step_store_step, H. Qed.

Lemma log_io ev : stable io_step (log ev).
Proof. stable_by @stable_modify. intros w. repeat split. Qed.

Lemma fs_open_io mode path : stable io_step (fs_open mode path).
Proof.
  unfold fs_open.
  stable_by @stable_bind; [apply log_io | intros _].
  stable_by @stable_bind; [stable_by @stable_get_world | intros w0].
  destruct (fs_files (w_fs w0) !! path).
  - stable_by @stable_bind; [| intros _; stable_by @stable_ret].
    stable_by @stable_modify. intros w. repeat split.
  - stable_by @stable_throw.
Qed.

Lemma fs_read_io mode fd position len : stable io_step (fs_read mode fd position len).
Proof.
  unfold fs_read.
  stable_by @stable_bind; [apply log_io | intros _].
  stable_by @stable_bind; [stable_by @stable_get_world | intros w0].
  destruct (w_fds w0 !! fd) as [[path current]|].
  - stable_by @stable_bind; [| intros _; stable_by @stable_ret].
    destruct (position <? 0).
    + stable_by @stable_modify. intros w. repeat split.
    + stable_by @stable_ret.
  - stable_by @stable_throw.
Qed.

Lemma fs_close_io mode fd : stable io_step (fs_close mode fd).
Proof.
  unfold fs_close.
  stable_by @stable_bind; [apply log_io | intros _].
  stable_by @stable_bind; [stable_by @stable_get_world | intros w0].
  destruct (w_fds w0 !! fd).
  - stable_by @stable_modify. intros w. repeat split.
  - stable_by @stable_throw.
Qed.

Section StoreFacts.
Context `{RT : Runtime}.

Lemma inf_from_io fuel mode fd idx po : forall size,
  stable io_step (inf_from fuel mode fd idx po size).
Proof.
  induction fuel as [|fuel IH]; intros size; cbn [inf_from].
  - stable_by @stable_diverge.
  - stable_by @stable_bind; [stable_by @stable_lift | intros buff].
    stable_by @stable_bind; [apply fs_read_io | intros data].
    destruct (inflate _) as [e|out].
    + destruct (decide _); [apply IH | stable_by @stable_throw].
    + stable_by @stable_ret.
Qed.

(** ** C4: an absent hash *)

Lemma resolve_absent (fuel : nat) (mode : Mode) (this : Packs) (hash : string)
    (w : World) :
  packedIndexMap this !! hash = None ->
  unpack (S fuel) mode this (Resolve hash) w = (Throw (NotFound hash), w).
Proof.
  intros Hnone. cbn [unpack]. unfold unpackGitObject_body, _getPackedIndexFromCache.
  rewrite Hnone. reflexivity.
Qed.

(** ** C8: what a successful resolution leaves in the cache *)

Lemma index_get_run (this : Packs) (hash : string) (idx : PackedIndex) (w : World) :
  packedIndexMap this !! hash = Some idx ->
  _getPackedIndexFromCache this hash w = (Ok idx, w).
Proof. intros H. unfold _getPackedIndexFromCache. rewrite H. reflexivity. Qed.

Lemma cache_get_run (this : Packs) (idx : PackedIndex) (w : World) :
  _getPackedObjectBufferFromCach this idx w
  = (Ok (object_cache this w !! cache_key idx), w).
Proof. reflexivity. Qed.

Lemma cache_set_lookup (this : Packs) (idx : PackedIndex) (buff : Buffer) (w : World) :
  object_cache this (_setPackedObjectBuffrToCache this idx buff w).2
    !! cache_key idx = Some buff.
Proof.
  unfold _setPackedObjectBuffrToCache, modify, object_cache. cbn.
  rewrite lookup_insert_eq. cbn. apply lookup_insert_eq.
Qed.

Lemma resolve_at_caches (fuel : nat) (mode : Mode) (this : Packs) (fd : Z)
    (idx : PackedIndex) (w w' : World) (bytes : Buffer) :
  unpack fuel mode this (ResolveAt fd idx) w = (Ok bytes, w') ->
  object_cache this w' !! cache_key idx = Some bytes.
Proof.
  destruct fuel as [|fuel]; [discriminate|].
  cbn [unpack]. unfold _unpackGitObject_body.
  intros H. apply bind_ok_inv in H as (dst & w1 & Hget & H).
  unfold _getPackedObjectBufferFromCach in Hget.
  injection Hget as <- <-.
  destruct (object_cache this w !! cache_key idx) as [dst|] eqn:Hdst.
  - injection H as <- <-. exact Hdst.
  - apply bind_ok_inv in H as (data & w2 & _ & H).
    destruct (new_PackedObject _) as [po|]; [|discriminate].
    apply bind_ok_inv in H as ([dst|] & w3 & _ & H); [|discriminate].
    apply bind_ok_inv in H as ([] & w4 & Hset & H).
    injection H as <- <-.
    pose proof (cache_set_lookup this idx dst w3) as Hl.
    rewrite Hset in Hl. exact Hl.
Qed.

Lemma resolve_cached (fuel : nat) (mode : Mode) (this : Packs) (hash : string)
    (idx : PackedIndex) (bytes : Buffer) (w : World) :
  packedIndexMap this !! hash = Some idx ->
  object_cache this w !! cache_key idx = Some bytes ->
  unpack (S fuel) mode this (Resolve hash) w = (Ok bytes, w).
Proof.
  intros Hidx Hhit. cbn [unpack]. unfold unpackGitObject_body.
  rewrite (bind_ok _ _ w w idx) by (apply index_get_run, Hidx).
  rewrite (bind_ok _ _ w w (Some bytes))
    by (rewrite cache_get_run, Hhit; reflexivity).
  reflexivity.
Qed.

Lemma resolve_ok_cached (fuel : nat) (mode : Mode) (this : Packs) (hash : string)
    (bytes : Buffer) (w w' : World) :
  unpack fuel mode this (Resolve hash) w = (Ok bytes, w') ->
  exists idx, packedIndexMap this !! hash = Some idx
    /\ object_cache this w' !! cache_key idx = Some bytes.
Proof.
  destruct fuel as [|fuel]; [discriminate|].
  cbn [unpack]. unfold unpackGitObject_body. intros H.
  apply bind_ok_inv in H as (idx & w1 & Hidx & H).
  unfold _getPackedIndexFromCache in Hidx.
  destruct (packedIndexMap this !! hash) as [idx'|] eqn:Hmap; [|discriminate].
  injection Hidx as <- <-. exists idx'. split; [reflexivity|].
  apply bind_ok_inv in H as (dst & w2 & Hget & H).
  unfold _getPackedObjectBufferFromCach in Hget. injection Hget as <- <-.
  destruct (object_cache this w !! cache_key idx') as [dst|] eqn:Hdst.
  - injection H as <- <-. exact Hdst.
  - apply bind_ok_inv in H as (fd & w3 & _ & H).
    apply try_finally_ok_inv in H as (w4 & Hin & Hclose).
    apply resolve_at_caches in Hin.
    pose proof (fs_close_io mode fd w4) as (_ & Hobj & _).
    rewrite Hclose in Hobj. cbn in Hobj.
    unfold object_cache in *. rewrite Hobj. exact Hin.
Qed.

End StoreFacts.

(** ** C6: the attempts of the payload decompressor *)

Lemma round53_nonneg z : 0 <= z -> 0 <= JS.round53 z.
Proof.
  intros Hz. unfold JS.round53.
  destruct (z <? 2 ^ 53); [exact Hz|].
  set (e := Z.log2 z - 52).
  assert (0 <= 2 ^ e) by (apply Z.pow_nonneg; lia).
  assert (0 <= z / 2 ^ e) by (apply Z_div_nonneg_nonneg; assumption).
  repeat match goal with |- context [if ?b then _ else _] => destruct b end; nia.
Qed.

Lemma JS_add_nonneg a b : 0 <= a -> 0 <= b -> 0 <= JS.add a b.
Proof.
  intros Ha Hb. unfold JS.add, JS.to_number.
  destruct (Z.ltb_spec (a + b) 0); [lia|]. apply round53_nonneg. lia.
Qed.

Lemma accumulate_nonneg cs : forall i s,
  0 <= s -> 0 <= HeaderSpec.accumulate i s cs.
Proof.
  induction cs as [|b cs IH]; intros i s Hs; cbn [HeaderSpec.accumulate]; [exact Hs|].
  apply IH, JS_add_nonneg; [exact Hs|].
  pose proof (multiplier_pos i). pose proof (Z.mod_pos_bound b 128 ltac:(lia)). nia.
Qed.

(** A decoded header has a non-negative size and a payload offset of at
    least 1. *)
Lemma decoded_header_bounds (buff : Buffer) (po : PackedObject) :
  new_PackedObject buff = Some po -> 0 <= po_size po /\ 1 <= po_offset po.
Proof.
  rewrite new_PackedObject_spec. intros [= <-]. cbn [po_size po_offset]. split.
  - apply accumulate_nonneg, Z.mod_pos_bound. lia.
  - unfold HeaderSpec.consumed. lia.
Qed.

Lemma round53_small z : z < 2 ^ 53 -> JS.round53 z = z.
Proof.
  intros H. unfold JS.round53. destruct (Z.ltb_spec z (2 ^ 53)); [reflexivity | lia].
Qed.

Lemma round53_large z : 2 ^ 53 <= z -> 2 ^ 53 <= JS.round53 z.
Proof.
  intros Hz. unfold JS.round53. destruct (Z.ltb_spec z (2 ^ 53)); [lia|].
  set (e := Z.log2 z - 52).
  assert (He : 1 <= e).
  { unfold e. pose proof (Z.log2_le_mono _ _ Hz) as Hl.
    rewrite Z.log2_pow2 in Hl by lia. lia. }
  assert (Hpow : 2 <= 2 ^ e).
  { change 2 with (2 ^ 1) at 1. apply Z.pow_le_mono_r; lia. }
  assert (Hq : 2 ^ 52 <= z / 2 ^ e).
  { apply Z.div_le_lower_bound; [lia|].
    rewrite <- Z.pow_add_r by lia.
    replace (e + 52) with (Z.log2 z) by (unfold e; lia).
    apply Z.log2_spec. lia. }
  assert (2 ^ 53 <= z / 2 ^ e * 2 ^ e).
  { change (2 ^ 53) with (2 ^ 52 * 2). apply Z.mul_le_mono_nonneg; lia. }
  repeat match goal with |- context [if ?b then _ else _] => destruct b end; nia.
Qed.

Lemma to_number_small z : 0 <= z < 2 ^ 53 -> JS.to_number z = z.
Proof.
  intros H. unfold JS.to_number. destruct (Z.ltb_spec z 0); [lia|].
  apply round53_small. lia.
Qed.

Lemma to_number_large z : 2 ^ 53 <= z -> 2 ^ 53 <= JS.to_number z.
Proof.
  intros H. unfold JS.to_number. destruct (Z.ltb_spec z 0); [lia|].
  apply round53_large. exact H.
Qed.

(** The sizes the code computes, [size + 128 + ... + 128] on numbers, are
    the exact sums as long as the sizes before them are sizes of buffers. *)
Lemma grown_size_exact `{RT : Runtime} k : forall size,
  0 <= size ->
  max_buffer_length < 2 ^ 53 ->
  (forall i, (i < k)%nat -> grown_size size i <= max_buffer_length) ->
  (grown_size size k < 2 ^ 53 ->
     Nat.iter k (fun s => JS.add s 128) (JS.to_number size) = grown_size size k)
  /\ (2 ^ 53 <= grown_size size k ->
     2 ^ 53 <= Nat.iter k (fun s => JS.add s 128) (JS.to_number size)).
Proof.
  induction k as [|k IH]; intros size Hsize Hmax Hbelow.
  - unfold grown_size. cbn [Nat.iter nat_rect]. rewrite Z.mul_0_r, Z.add_0_r. split.
    + intros H. apply to_number_small. lia.
    + apply to_number_large.
  - destruct (IH size Hsize Hmax ltac:(intros i Hi; apply Hbelow; lia)) as [Hexact _].
    pose proof (Hbelow k ltac:(lia)) as Hk.
    change (Nat.iter (S k) (fun s => JS.add s 128) (JS.to_number size))
      with (JS.add (Nat.iter k (fun s => JS.add s 128) (JS.to_number size)) 128).
    rewrite Hexact by lia.
    replace (grown_size size (S k)) with (grown_size size k + 128)
      by (unfold grown_size; lia).
    assert (0 <= grown_size size k) by (unfold grown_size; lia).
    unfold JS.add. split.
    + intros H1. apply to_number_small. lia.
    + apply to_number_large.
Qed.

Lemma fresh_memory_length `{RT : Runtime} size :
  0 <= size -> Z.of_nat (length (fresh_memory size)) = size.
Proof. intros H. unfold fresh_memory. rewrite length_resize. lia. Qed.

Lemma allocUnsafe_served `{RT : Runtime} size :
  0 <= size <= max_buffer_length ->
  Buffer_allocUnsafe size = inr (fresh_memory size).
Proof.
  intros H. unfold Buffer_allocUnsafe.
  destruct (Z.leb_spec 0 size); [|lia].
  destruct (Z.leb_spec size max_buffer_length); [reflexivity | lia].
Qed.

Lemma allocUnsafe_refused `{RT : Runtime} size :
  max_buffer_length < size -> Buffer_allocUnsafe size = inl RangeError.
Proof.
  intros H. unfold Buffer_allocUnsafe.
  destruct (Z.leb_spec size max_buffer_length); [lia|].
  rewrite andb_false_r. reflexivity.
Qed.

Lemma file_read_at content current position len :
  0 <= position ->
  file_read content current position len = file_read content 0 position len.
Proof.
  intros H. unfold file_read. destruct (Z.ltb_spec position 0); [lia | reflexivity].
Qed.

Lemma fs_read_run mode fd position len w path current content :
  w_fds w !! fd = Some (path, current) ->
  fs_files (w_fs w) !! path = Some content ->
  0 <= position ->
  fs_read mode fd position len w =
  (Ok (file_read content 0 position len),
   set_trace (w_trace w ++ [IoRead mode fd position len]) w).
Proof.
  intros Hfd Hfile Hpos. unfold fs_read, log, modify.
  rewrite bind_run. rewrite bind_run. cbn [get_world set_trace w_fds w_fs].
  rewrite Hfd, Hfile. cbn [default].
  destruct (Z.ltb_spec position 0) as [|_]; [lia|].
  rewrite bind_run. cbn. rewrite (file_read_at _ current) by exact Hpos. reflexivity.
Qed.

Section InfFacts.
Context `{RT : Runtime}.

(** An attempt whose buffer is refused: no read is made. *)
Lemma inf_from_refused fuel mode fd idx po size w :
  max_buffer_length < size ->
  inf_from (S fuel) mode fd idx po size w = (Throw RangeError, w).
Proof.
  intros H. cbn [inf_from]. rewrite allocUnsafe_refused by exact H. reflexivity.
Qed.

Lemma inf_from_step fuel mode fd idx po size w path current content :
  w_fds w !! fd = Some (path, current) ->
  fs_files (w_fs w) !! path = Some content ->
  0 <= JS.add (idx_offset idx) (po_offset po) ->
  0 <= size <= max_buffer_length ->
  inf_from (S fuel) mode fd idx po size w =
  let position := JS.add (idx_offset idx) (po_offset po) in
  let w' := set_trace (w_trace w ++ [IoRead mode fd position size]) w in
  match inflate (attempt_input content position size) with
  | inr out => (Ok out, w')
  | inl e =>
      if decide (errno e = Some Z_BUF_ERROR)
      then inf_from fuel mode fd idx po (JS.add size 128) w'
      else (Throw e, w')
  end.
Proof.
  intros Hfd Hfile Hpos Hsize. cbn [inf_from].
  rewrite allocUnsafe_served by exact Hsize.
  cbn [lift]. rewrite bind_run. cbn [mret M_ret].
  rewrite fresh_memory_length by lia.
  erewrite bind_ok by (eapply fs_read_run; eassumption).
  unfold attempt_input.
  destruct (inflate _) as [e|out]; [|reflexivity].
  destruct (decide _); reflexivity.
Qed.

(** [k] attempts that fail for want of room, on the sizes the code
    computes. *)
Lemma inf_from_failed_attempts k :
  forall fuel mode fd idx po size w path current content,
  w_fds w !! fd = Some (path, current) ->
  fs_files (w_fs w) !! path = Some content ->
  0 <= JS.add (idx_offset idx) (po_offset po) ->
  (forall i, (i < k)%nat ->
     0 <= Nat.iter i (fun s => JS.add s 128) size <= max_buffer_length
     /\ exists e, inflate (attempt_input content
                             (JS.add (idx_offset idx) (po_offset po))
                             (Nat.iter i (fun s => JS.add s 128) size)) = inl e
                  /\ errno e = Some Z_BUF_ERROR) ->
  inf_from (k + fuel) mode fd idx po size w =
  inf_from fuel mode fd idx po (Nat.iter k (fun s => JS.add s 128) size)
    (set_trace
       (w_trace w
        ++ ((fun i => IoRead mode fd (JS.add (idx_offset idx) (po_offset po))
                        (Nat.iter i (fun s => JS.add s 128) size))
              <$> seq 0 k)) w).
Proof.
  induction k as [|k IH]; intros fuel mode fd idx po size w path current content
    Hfd Hfile Hpos Hfail.
  - cbn [Nat.add seq fmap list_fmap Nat.iter nat_rect]. rewrite app_nil_r.
    destruct w; reflexivity.
  - replace (S k + fuel)%nat with (k + S fuel)%nat by lia.
    rewrite (IH (S fuel) mode fd idx po size w path current content
               Hfd Hfile Hpos) by (intros i Hi; apply Hfail; lia).
    destruct (Hfail k ltac:(lia)) as (Hsize & e & He & Herrno).
    erewrite inf_from_step; [| exact Hfd | exact Hfile | exact Hpos | exact Hsize].
    cbv zeta. rewrite He.
    destruct (decide _) as [_|Hne]; [|contradiction].
    change (Nat.iter (S k) (fun s => JS.add s 128) size)
      with (JS.add (Nat.iter k (fun s => JS.add s 128) size) 128).
    f_equal. rewrite seq_S, fmap_app, app_assoc. reflexivity.
Qed.

Lemma attempt_reads_snoc mode fd position size k :
  attempt_reads mode fd position size (S k) =
  attempt_reads mode fd position size k
    ++ [IoRead mode fd position (grown_size size k)].
Proof. unfold attempt_reads. rewrite seq_S, fmap_app. reflexivity. Qed.

(** [k] attempts that fail for want of room, from the first size
    [po.size * 2 + 32]: what is left to run is the attempt on the next
    size, which is the exact sum when a buffer of that size is served and is
    refused when the exact sum is. *)
Lemma inf_from_attempts k fuel mode fd idx po w path current content :
  w_fds w !! fd = Some (path, current) ->
  fs_files (w_fs w) !! path = Some content ->
  0 <= JS.add (idx_offset idx) (po_offset po) ->
  0 <= po_size po ->
  max_buffer_length < 2 ^ 53 ->
  (forall i, (i < k)%nat ->
     po_size po * 2 + 32 + 128 * Z.of_nat i <= max_buffer_length
     /\ exists e,
       inflate (attempt_input content (JS.add (idx_offset idx) (po_offset po))
                  (po_size po * 2 + 32 + 128 * Z.of_nat i)) = inl e
       /\ errno e = Some Z_BUF_ERROR) ->
  exists size,
    inf_from (k + fuel) mode fd idx po (inf_initial_size po) w
    = inf_from fuel mode fd idx po size
        (set_trace
           (w_trace w ++ attempt_reads mode fd
              (JS.add (idx_offset idx) (po_offset po)) (po_size po * 2 + 32) k)
           w)
    /\ (po_size po * 2 + 32 + 128 * Z.of_nat k <= max_buffer_length ->
        size = grown_size (po_size po * 2 + 32) k)
    /\ (max_buffer_length < po_size po * 2 + 32 + 128 * Z.of_nat k ->
        max_buffer_length < size).
Proof.
  intros Hfd Hfile Hpos Hsize Hmax Hfail.
  set (s0 := po_size po * 2 + 32) in *.
  assert (Hs0 : 0 <= s0) by (unfold s0; lia).
  assert (Hbelow : forall i, (i < k)%nat -> grown_size s0 i <= max_buffer_length)
    by (intros i Hi; apply Hfail, Hi).
  assert (Hexact : forall i, (i < k)%nat ->
            Nat.iter i (fun s => JS.add s 128) (JS.to_number s0) = grown_size s0 i).
  { intros i Hi.
    apply (grown_size_exact i s0 Hs0 Hmax); [intros j Hj; apply Hbelow; lia|].
    specialize (Hbelow i Hi). lia. }
  exists (Nat.iter k (fun s => JS.add s 128) (JS.to_number s0)).
  split; [|split].
  - change (inf_initial_size po) with (JS.to_number s0).
    rewrite (inf_from_failed_attempts k fuel mode fd idx po (JS.to_number s0) w
               path current content Hfd Hfile Hpos).
    + f_equal. f_equal. f_equal. unfold attempt_reads.
      apply list_fmap_ext. intros n i Hn.
      apply lookup_seq in Hn as [-> Hn]. rewrite Hexact by lia. reflexivity.
    + intros i Hi. rewrite (Hexact i Hi).
      destruct (Hfail i Hi) as (Hle & e & He & Herrno).
      split; [unfold grown_size; lia|]. exists e. split; assumption.
  - intros Hk. apply (grown_size_exact k s0 Hs0 Hmax Hbelow).
    unfold grown_size. lia.
  - intros Hk.
    destruct (grown_size_exact k s0 Hs0 Hmax Hbelow) as [Hlow Hhigh].
    destruct (Z.lt_ge_cases (grown_size s0 k) (2 ^ 53)) as [Hc|Hc].
    + rewrite (Hlow Hc). unfold grown_size. lia.
    + specialize (Hhigh Hc). lia.
Qed.

(** The run in which the attempt after [k] failed ones succeeds. *)
Lemma inf_from_result k fuel mode fd idx po w path current content out :
  w_fds w !! fd = Some (path, current) ->
  fs_files (w_fs w) !! path = Some content ->
  0 <= JS.add (idx_offset idx) (po_offset po) ->
  0 <= po_size po ->
  max_buffer_length < 2 ^ 53 ->
  po_size po * 2 + 32 + 128 * Z.of_nat k <= max_buffer_length ->
  (forall i, (i < k)%nat ->
     exists e,
       inflate (attempt_input content (JS.add (idx_offset idx) (po_offset po))
                  (po_size po * 2 + 32 + 128 * Z.of_nat i)) = inl e
       /\ errno e = Some Z_BUF_ERROR) ->
  inflate (attempt_input content (JS.add (idx_offset idx) (po_offset po))
             (po_size po * 2 + 32 + 128 * Z.of_nat k)) = inr out ->
  inf_from (S k + fuel) mode fd idx po (inf_initial_size po) w =
  (Ok out,
   set_trace
     (w_trace w ++ attempt_reads mode fd
        (JS.add (idx_offset idx) (po_offset po)) (po_size po * 2 + 32) (S k))
     w).
Proof.
  intros Hfd Hfile Hpos Hsize Hmax Hk Hfail Hout.
  assert (Hfail' : forall i, (i < k)%nat ->
            po_size po * 2 + 32 + 128 * Z.of_nat i <= max_buffer_length
            /\ exists e,
              inflate (attempt_input content
                         (JS.add (idx_offset idx) (po_offset po))
                         (po_size po * 2 + 32 + 128 * Z.of_nat i)) = inl e
              /\ errno e = Some Z_BUF_ERROR)
    by (intros i Hi; split; [lia | apply Hfail, Hi]).
  destruct (inf_from_attempts k (S fuel) mode fd idx po w path current content
              Hfd Hfile Hpos Hsize Hmax Hfail') as (size & Hrun & Hserved & _).
  replace (S k + fuel)%nat with (k + S fuel)%nat by lia.
  rewrite Hrun, (Hserved Hk).
  erewrite inf_from_step;
    [| exact Hfd | exact Hfile | exact Hpos | unfold grown_size; lia].
  cbv zeta. rewrite attempt_reads_snoc, app_assoc.
  unfold grown_size. rewrite Hout. reflexivity.
Qed.

(** The run in which the first attempt succeeds. *)
Lemma inf_from_at_once fuel mode fd idx po w path current content out :
  w_fds w !! fd = Some (path, current) ->
  fs_files (w_fs w) !! path = Some content ->
  0 <= JS.add (idx_offset idx) (po_offset po) ->
  0 <= po_size po ->
  max_buffer_length < 2 ^ 53 ->
  po_size po * 2 + 32 <= max_buffer_length ->
  inflate (attempt_input content (JS.add (idx_offset idx) (po_offset po))
             (po_size po * 2 + 32)) = inr out ->
  inf_from (S fuel) mode fd idx po (inf_initial_size po) w =
  (Ok out,
   set_trace
     (w_trace w ++ [IoRead mode fd (JS.add (idx_offset idx) (po_offset po))
                      (po_size po * 2 + 32)])
     w).
Proof.
  intros Hfd Hfile Hpos Hsize Hmax Hle Hout.
  assert (Hinit : inf_initial_size po = po_size po * 2 + 32)
    by (apply to_number_small; lia).
  rewrite Hinit.
  erewrite inf_from_step; [| exact Hfd | exact Hfile | exact Hpos | lia].
  cbv zeta. rewrite Hout. reflexivity.
Qed.

End InfFacts.

(** ** Opening, reading and closing a pack file *)

Lemma fs_open_run mode path w content :
  fs_files (w_fs w) !! path = Some content ->
  fs_open mode path w =
  (Ok (w_next_fd w),
   set_fds (<[w_next_fd w := (path, 0)]> (w_fds w)) (w_next_fd w + 1)
     (set_trace (w_trace w ++ [IoOpen mode path]) w)).
Proof.
  intros Hfile. unfold fs_open, log, modify.
  rewrite bind_run. rewrite bind_run. cbn [get_world set_trace w_fs].
  rewrite Hfile. reflexivity.
Qed.

Lemma fs_read_open mode fd position len w path current :
  w_fds w !! fd = Some (path, current) ->
  exists w',
    fs_read mode fd position len w =
      (Ok (file_read (default [] (fs_files (w_fs w) !! path)) current position len), w')
    /\ w_trace w' = w_trace w ++ [IoRead mode fd position len]
    /\ (exists current', w_fds w' !! fd = Some (path, current'))
    /\ io_step w w'.
Proof.
  intros Hfd. unfold fs_read, log, modify.
  rewrite bind_run. rewrite bind_run. cbn [get_world set_trace w_fds w_fs].
  rewrite Hfd. rewrite bind_run.
  destruct (position <? 0); cbn.
  - eexists; split; [reflexivity|]. cbn. split; [reflexivity|].
    split; [|repeat split]. eexists. apply lookup_insert_eq.
  - eexists; split; [reflexivity|]. cbn. split; [reflexivity|].
    split; [|repeat split]. eexists. exact Hfd.
Qed.

Lemma fs_close_open mode fd w x :
  w_fds w !! fd = Some x ->
  exists w',
    fs_close mode fd w = (Ok tt, w')
    /\ w_trace w' = w_trace w ++ [IoClose mode fd]
    /\ io_step w w'.
Proof.
  intros Hfd. unfold fs_close, log, modify.
  rewrite bind_run. rewrite bind_run. cbn [get_world set_trace w_fds w_fs].
  rewrite Hfd. eexists; split; [reflexivity|]. cbn. repeat split.
Qed.

(** Run both sides of an equation between programs, case by case. *)
Ltac run_both_sides :=
  repeat first
    [ reflexivity
    | rewrite bind_run
    | progress cbn [mret M_ret]
    | match goal with
      | |- context [match ?m ?w with (_, _) => _ end] =>
          destruct (m w) as [[?|?| |?] ?]
      | |- context [lift ?r] => destruct r
      end ].

Section ResolveFacts.
Context `{RT : Runtime}.

(** ** C7: kinds that are not dispatched *)

Lemma resolve_at_undispatched (fuel : nat) (mode : Mode) (this : Packs)
    (fd : Z) (idx : PackedIndex) (w : World) (path : string) (current : Z)
    (po : PackedObject) :
  object_cache this w !! cache_key idx = None ->
  w_fds w !! fd = Some (path, current) ->
  new_PackedObject
    (buffer_fill (Buffer_alloc 32)
       (file_read (default [] (fs_files (w_fs w) !! path)) current
          (idx_offset idx) 32)) = Some po ->
  po_type po <> ObjectTypeEnum.COMMIT ->
  po_type po <> ObjectTypeEnum.TAG ->
  po_type po <> ObjectTypeEnum.OFS_DELTA ->
  po_type po <> ObjectTypeEnum.REF_DELTA ->
  exists w',
    unpack (S fuel) mode this (ResolveAt fd idx) w
      = (Throw (InvalidObjectType (po_type po)), w')
    /\ w_trace w' = w_trace w ++ [IoRead mode fd (idx_offset idx) 32]
    /\ (exists current', w_fds w' !! fd = Some (path, current'))
    /\ io_step w w'.
Proof.
  intros Hmiss Hfd Hpo Hc Ht Ho Hr.
  destruct (fs_read_open mode fd (idx_offset idx) 32 w path current Hfd)
    as (w' & Hread & Htrace & Hopen & Hio).
  exists w'. split; [|auto].
  cbn [unpack]. unfold _unpackGitObject_body.
  rewrite (bind_ok _ _ w w None) by (rewrite cache_get_run, Hmiss; reflexivity).
  rewrite (bind_ok _ _ _ _ _ Hread). rewrite Hpo.
  apply Z.eqb_neq in Hc, Ht, Ho, Hr. rewrite Hc, Ht, Ho, Hr. reflexivity.
Qed.

Lemma resolve_undispatched (fuel : nat) (mode : Mode) (this : Packs)
    (hash : string) (idx : PackedIndex) (w : World) (content : Buffer)
    (po : PackedObject) :
  packedIndexMap this !! hash = Some idx ->
  object_cache this w !! cache_key idx = None ->
  fs_files (w_fs w) !! _getPackFilePath this idx = Some content ->
  new_PackedObject
    (buffer_fill (Buffer_alloc 32) (file_read content 0 (idx_offset idx) 32))
    = Some po ->
  po_type po <> ObjectTypeEnum.COMMIT ->
  po_type po <> ObjectTypeEnum.TAG ->
  po_type po <> ObjectTypeEnum.OFS_DELTA ->
  po_type po <> ObjectTypeEnum.REF_DELTA ->
  exists w',
    unpack (S (S fuel)) mode this (Resolve hash) w
      = (Throw (InvalidObjectType (po_type po)), w')
    /\ w_trace w' =
         w_trace w ++ [IoOpen mode (_getPackFilePath this idx);
                       IoRead mode (w_next_fd w) (idx_offset idx) 32;
                       IoClose mode (w_next_fd w)]
    /\ w_objects w' = w_objects w.
Proof.
  intros Hidx Hmiss Hfile Hpo Hc Ht Ho Hr.
  set (path := _getPackFilePath this idx) in *.
  set (fd := w_next_fd w).
  pose proof (fs_open_run mode path w content Hfile) as Hopen.
  set (w1 := set_fds _ _ _) in Hopen.
  destruct (resolve_at_undispatched fuel mode this fd idx w1 path 0 po)
    as (w2 & Hrun & Htrace2 & (current' & Hfd2) & Hio2); try assumption.
  { apply lookup_insert_eq. }
  { cbn [w1 w_fs set_fds set_trace]. rewrite Hfile. exact Hpo. }
  destruct (fs_close_open mode fd w2 _ Hfd2) as (w3 & Hclose & Htrace3 & Hio3).
  exists w3. split; [|split].
  - change (unpack (S (S fuel)) mode this (Resolve hash))
      with (unpackGitObject_body mode this (unpack (S fuel) mode this) hash).
    unfold unpackGitObject_body.
    rewrite (bind_ok _ _ w w idx) by (apply index_get_run, Hidx).
    rewrite (bind_ok _ _ w w None) by (rewrite cache_get_run, Hmiss; reflexivity).
    rewrite (bind_ok _ _ _ _ _ Hopen).
    unfold try_finally. fold fd. rewrite Hrun, Hclose. reflexivity.
  - rewrite Htrace3, Htrace2. cbn [w1 w_trace set_fds set_trace].
    rewrite <- !app_assoc. reflexivity.
  - destruct Hio3 as (_ & -> & _). destruct Hio2 as (_ & -> & _). reflexivity.
Qed.

(** ** C1: the order of the steps of a delta resolution *)

(** When the 20 bytes after the header are within the buffer, they are the
    hash that is looked up. *)
Lemma readHash_within (buff : Buffer) (offset : Z) :
  0 <= offset -> offset + 20 <= Z.of_nat (length buff) ->
  readHash buff offset = to_hex (take 20 (drop (Z.to_nat offset) buff)).
Proof.
  intros Hlo Hhi. unfold readHash, Buffer_slice, slice_index.
  destruct (Z.ltb_spec offset 0); [lia|].
  destruct (Z.ltb_spec (offset + 20) 0); [lia|].
  rewrite !Z.min_l by lia.
  replace (offset + 20 - offset) with 20 by lia. reflexivity.
Qed.

Lemma resolve_at_delta (fuel : nat) (mode : Mode) (this : Packs) (fd : Z)
    (idx : PackedIndex) (w w1 : World) (data : Buffer) (po : PackedObject) :
  object_cache this w !! cache_key idx = None ->
  fs_read mode fd (idx_offset idx) 32 w = (Ok data, w1) ->
  new_PackedObject (buffer_fill (Buffer_alloc 32) data) = Some po ->
  po_type po = ObjectTypeEnum.OFS_DELTA \/ po_type po = ObjectTypeEnum.REF_DELTA ->
  unpack (S (S fuel)) mode this (ResolveAt fd idx) w =
  (let head := buffer_fill (Buffer_alloc 32) data in
   base ← unpack (S fuel) mode this (delta_base fd idx po head);
   delta ← inf_from (S (S fuel)) mode fd idx (delta_payload po head)
             (inf_initial_size (delta_payload po head));
   out ← lift (patchDelta base delta);
   _setPackedObjectBuffrToCache this idx out;;
   mret out) w1.
Proof.
  intros Hmiss Hread Hpo Hkind.
  change (unpack (S (S fuel)) mode this (ResolveAt fd idx))
    with (_unpackGitObject_body (S (S fuel)) mode this
            (unpack (S fuel) mode this) fd idx).
  unfold _unpackGitObject_body.
  rewrite (bind_ok _ _ w w None) by (rewrite cache_get_run, Hmiss; reflexivity).
  rewrite (bind_ok _ _ _ _ _ Hread). rewrite Hpo.
  cbv zeta. set (head := buffer_fill (Buffer_alloc 32) data).
  unfold _unpackDeltaObject_body, delta_base, delta_payload.
  destruct Hkind as [Hk|Hk]; rewrite Hk; cbn [Z.eqb Pos.eqb orb ObjectTypeEnum.OFS_DELTA
    ObjectTypeEnum.REF_DELTA ObjectTypeEnum.COMMIT ObjectTypeEnum.TAG].
  - destruct (readBaseOffset head (po_offset po)) as [baseOffset offset].
    cbn [fst snd]. run_both_sides.
  - run_both_sides.
Qed.

End ResolveFacts.

(** ** The LRU list *)

Lemma lru_find_head d p l : lru_find d ((d, p) :: l) = Some p.
Proof. cbn. destruct (decide (d = d)); [reflexivity | contradiction]. Qed.

Lemma lru_find_remove_ne d d' l :
  d <> d' -> lru_find d (lru_remove d' l) = lru_find d l.
Proof.
  intros Hne. induction l as [|[k v] l IH]; [reflexivity|]. cbn.
  destruct (decide (k = d')) as [->|Hk].
  - rewrite IH. destruct (decide (d' = d)); [congruence | reflexivity].
  - cbn. rewrite IH. reflexivity.
Qed.

Lemma lru_find_take d p n l :
  lru_find d (take n l) = Some p -> lru_find d l = Some p.
Proof.
  revert n. induction l as [|[k v] l IH]; intros [|n]; cbn; try discriminate.
  destruct (decide (k = d)); [trivial | apply IH].
Qed.

Lemma lru_find_touch d d' v l :
  lru_find d' l = Some v ->
  lru_find d ((d', v) :: lru_remove d' l) = lru_find d l.
Proof.
  intros Hv. cbn. destruct (decide (d' = d)) as [->|Hne].
  - symmetry. exact Hv.
  - apply lru_find_remove_ne. congruence.
Qed.

(** ** What a build leaves alone *)

#[global] Instance build_step_preorder : PreOrder build_step.
Proof.
  split.
  - intros w. repeat split.
  - intros w1 w2 w3 (? & ? & ?) (? & ? & ?). repeat split; congruence.
Qed.

Lemma store_step_build_step w w' : store_step w w' -> build_step w w'.
Proof. intros (? & ? & ? & ?). repeat split; assumption. Qed.

Lemma fs_readdir_run mode path w :
  fs_readdir mode path w =
  (match fs_dirs (w_fs w) !! path with
   | Some names => Ok names
   | None => Throw ENOENT
   end,
   set_trace (w_trace w ++ [IoReaddir mode path]) w).
Proof.
  unfold fs_readdir, log, modify. rewrite bind_run. rewrite bind_run.
  cbn [get_world set_trace w_fs]. destruct (fs_dirs (w_fs w) !! path); reflexivity.
Qed.

Lemma fs_readFile_run mode path w :
  fs_readFile mode path w =
  (match fs_files (w_fs w) !! path with
   | Some content => Ok content
   | None => Throw ENOENT
   end,
   set_trace (w_trace w ++ [IoReadFile mode path]) w).
Proof.
  unfold fs_readFile, log, modify. rewrite bind_run. rewrite bind_run.
  cbn [get_world set_trace w_fs]. destruct (fs_files (w_fs w) !! path); reflexivity.
Qed.

Lemma new_Packs_run dir names map w :
  new_Packs dir names map w =
  (Ok {| packDir := dir; packFileNames := names; packedIndexMap := map;
         hasPackFiles := negb (bool_decide (length names = 0%nat));
         packedObjectCache := w_next_packs w |},
   set_objects (<[w_next_packs w := ∅]> (w_objects w)) (S (w_next_packs w)) w).
Proof. reflexivity. Qed.

Lemma fs_readdir_build mode path : stable build_step (fs_readdir mode path).
Proof. intros w. rewrite fs_readdir_run. repeat split. Qed.

Lemma fs_readFile_build mode path : stable build_step (fs_readFile mode path).
Proof. intros w. rewrite fs_readFile_run. repeat split. Qed.

Lemma new_Packs_build dir names map : stable build_step (new_Packs dir names map).
Proof. intros w. rewrite new_Packs_run. repeat split. Qed.

Section RegistryFacts.
Context `{RT : Runtime}.

Lemma read_indexes_build mode dir fileNames : forall i map,
  stable build_step (read_indexes mode dir fileNames i map).
Proof.
  induction fileNames as [|name rest IH]; intros i map; cbn [read_indexes].
  - stable_by @stable_ret.
  - stable_by @stable_bind; [apply fs_readFile_build | intros buff].
    stable_by @stable_bind; [stable_by @stable_lift | intros map'; apply IH].
Qed.

Lemma _initialize_build gitDir : stable build_step (_initialize gitDir).
Proof.
  unfold _initialize.
  stable_by @stable_bind.
  - stable_by @stable_settled. apply fs_readdir_build.
  - intros [e|names]; [apply new_Packs_build|].
    destruct (bool_decide _); [apply new_Packs_build|].
    stable_by @stable_bind; [apply read_indexes_build | intros map].
    apply new_Packs_build.
Qed.

(** Resolution leaves the file system and the registry alone. *)
Lemma unpack_store fuel mode this : forall c,
  stable store_step (unpack fuel mode this c).
Proof.
  induction fuel as [|fuel IH]; intros c; cbn [unpack].
  - stable_by @stable_diverge.
  - destruct c as [hash|fd idx].
    + unfold unpackGitObject_body.
      stable_by @stable_bind.
      { unfold _getPackedIndexFromCache.
        destruct (_ !! _); [stable_by @stable_ret | stable_by @stable_throw]. }
      intros idx. stable_by @stable_bind.
      { intros w. repeat split. }
      intros [dst|]; [stable_by @stable_ret|].
      stable_by @stable_bind; [apply stable_io_store, fs_open_io | intros fd].
      stable_by @stable_try_finally; [apply IH | apply stable_io_store, fs_close_io].
    + unfold _unpackGitObject_body.
      stable_by @stable_bind.
      { intros w. repeat split. }
      intros [dst|]; [stable_by @stable_ret|].
      stable_by @stable_bind; [apply stable_io_store, fs_read_io | intros data].
      destruct (new_PackedObject _) as [po|]; [|stable_by @stable_diverge].
      stable_by @stable_bind.
      * destruct (_ || _).
        { stable_by @stable_bind; [apply stable_io_store, inf_from_io|].
          intros d. stable_by @stable_ret. }
        destruct (_ || _); [|stable_by @stable_ret].
        stable_by @stable_bind; [|intros d; stable_by @stable_ret].
        unfold _unpackDeltaObject_body.
        stable_by @stable_bind.
        { destruct (_ =? _).
          - destruct (readBaseOffset _ _) as [baseOffset offset].
            stable_by @stable_bind; [apply IH | intros src; stable_by @stable_ret].
          - stable_by @stable_bind; [apply IH | intros src; stable_by @stable_ret]. }
        intros [src po'].
        stable_by @stable_bind; [apply stable_io_store, inf_from_io | intros delta].
        stable_by @stable_lift.
      * intros [dst|]; [|stable_by @stable_throw].
        stable_by @stable_bind; [|intros _; stable_by @stable_ret].
        intros w. repeat split.
Qed.

(** ** Builds *)

Lemma _initialize_empty gitDir w :
  no_index_files (w_fs w) gitDir ->
  exists w1,
    _initialize gitDir w =
      (Ok (mkPacks gitDir [] ∅ false (w_next_packs w)), w1).
Proof.
  unfold no_index_files, _initialize. intros H.
  rewrite bind_run. unfold settled. rewrite fs_readdir_run.
  destruct (fs_dirs (w_fs w) !! pack_dir_of gitDir) as [names|].
  - rewrite H. rewrite bool_decide_eq_true_2 by reflexivity.
    rewrite new_Packs_run. eexists. reflexivity.
  - rewrite new_Packs_run. eexists. reflexivity.
Qed.

(** ** Calls that find the store in the registry *)

Lemma initialize_hit gitDir p w :
  lru_find gitDir (w_packsCache w) = Some p ->
  initialize gitDir w =
    (Ok p, set_packsCache ((gitDir, p) :: lru_remove gitDir (w_packsCache w)) w).
Proof.
  intros Hhit. unfold initialize, packsCache_get.
  rewrite bind_run. rewrite bind_run. cbn [get_world]. rewrite Hhit. reflexivity.
Qed.

Lemma initializeSync_hit gitDir p w :
  lru_find gitDir (w_packsCache w) = Some p ->
  initializeSync gitDir w =
    (Ok p, set_packsCache ((gitDir, p) :: lru_remove gitDir (w_packsCache w)) w).
Proof.
  intros Hhit. unfold initializeSync, packsCache_get.
  rewrite bind_run. rewrite bind_run. cbn [get_world]. rewrite Hhit. reflexivity.
Qed.

(** ** Calls that build *)

(** [initialize] when neither the registry nor [processings] holds the
    directory. *)
Lemma initialize_miss gitDir w :
  lru_find gitDir (w_packsCache w) = None ->
  w_processings w !! gitDir = None ->
  gitDir ∉ Object_prototype_names ->
  initialize gitDir w =
  match _initialize gitDir w with
  | (Ok p, w1) =>
      (Ok p,
       set_packsCache
         (take lru_max ((gitDir, p) :: lru_remove gitDir (w_packsCache w1)))
         (set_processings
            (delete gitDir (<[gitDir := inr p]> (w_processings w1))) w1))
  | (Throw e, w1) =>
      (Throw e, set_processings (<[gitDir := inl e]> (w_processings w1)) w1)
  | (Diverge, w1) => (Diverge, w1)
  | (Inherited name, w1) => (Inherited name, w1)
  end.
Proof.
  intros Hmiss Hnone Hname. unfold initialize, packsCache_get.
  rewrite bind_run. rewrite bind_run. cbn [get_world]. rewrite Hmiss.
  cbn [mret M_ret]. rewrite bind_run. cbn [get_world]. rewrite Hnone.
  rewrite bool_decide_eq_false_2 by exact Hname.
  rewrite bind_run. unfold settled.
  destruct (_initialize gitDir w) as [[p|e| |?] w1]; reflexivity.
Qed.

(** [initialize] when the registry does not hold the directory and
    [processings] has no property of its own under the name, but inherits
    one. *)
Lemma initialize_inherited gitDir w :
  lru_find gitDir (w_packsCache w) = None ->
  w_processings w !! gitDir = None ->
  gitDir ∈ Object_prototype_names ->
  initialize gitDir w = (Inherited gitDir, w).
Proof.
  intros Hmiss Hnone Hname. unfold initialize, packsCache_get.
  rewrite bind_run. rewrite bind_run. cbn [get_world]. rewrite Hmiss.
  cbn [mret M_ret]. rewrite bind_run. cbn [get_world]. rewrite Hnone.
  rewrite bool_decide_eq_true_2 by exact Hname. reflexivity.
Qed.

(** [initialize] when [processings] still holds a promise. *)
Lemma initialize_pending gitDir w promise :
  lru_find gitDir (w_packsCache w) = None ->
  w_processings w !! gitDir = Some promise ->
  initialize gitDir w = lift promise w.
Proof.
  intros Hmiss Hsome. unfold initialize, packsCache_get.
  rewrite bind_run. rewrite bind_run. cbn [get_world]. rewrite Hmiss.
  cbn [mret M_ret]. rewrite bind_run. cbn [get_world]. rewrite Hsome.
  reflexivity.
Qed.

Lemma build_sync_build gitDir : stable build_step (build_sync gitDir).
Proof.
  unfold build_sync.
  stable_by @stable_bind.
  - stable_by @stable_settled. apply fs_readdir_build.
  - intros [e|names]; [apply new_Packs_build|].
    destruct (bool_decide _); [apply new_Packs_build|].
    stable_by @stable_bind; [apply read_indexes_build | intros map].
    apply new_Packs_build.
Qed.

Lemma build_sync_empty gitDir w :
  no_index_files (w_fs w) gitDir ->
  exists w1,
    build_sync gitDir w =
      (Ok (mkPacks gitDir [] ∅ false (w_next_packs w)), w1).
Proof.
  unfold no_index_files, build_sync. intros H.
  rewrite bind_run. unfold settled. rewrite fs_readdir_run.
  destruct (fs_dirs (w_fs w) !! pack_dir_of gitDir) as [names|].
  - rewrite H. rewrite bool_decide_eq_true_2 by reflexivity.
    rewrite new_Packs_run. eexists. reflexivity.
  - rewrite new_Packs_run. eexists. reflexivity.
Qed.

Lemma initializeSync_miss gitDir w :
  lru_find gitDir (w_packsCache w) = None ->
  initializeSync gitDir w =
  match build_sync gitDir w with
  | (Ok p, w1) =>
      (Ok p,
       set_packsCache
         (take lru_max ((gitDir, p) :: lru_remove gitDir (w_packsCache w1))) w1)
  | (Throw e, w1) => (Throw e, w1)
  | (Diverge, w1) => (Diverge, w1)
  | (Inherited name, w1) => (Inherited name, w1)
  end.
Proof.
  intros Hmiss. unfold initializeSync, packsCache_get, build_sync.
  rewrite bind_run. rewrite bind_run. cbn [get_world]. rewrite Hmiss.
  cbn [mret M_ret]. rewrite !bind_run.
  destruct (settled (fs_readdir Blocking (pack_dir_of gitDir)) w)
    as [[[e|names]|e| |?] w0]; try reflexivity.
  destruct (bool_decide _); [reflexivity|].
  rewrite !bind_run.
  destruct (read_indexes _ _ _ _ _ w0) as [[map|e| |?] w1]; reflexivity.
Qed.

End RegistryFacts.

(** ** An invariant of the registry over a fixed file system *)

Section Invariant.
Context `{RT : Runtime}.

Lemma registry_inv_boot fs : registry_inv fs (boot fs).
Proof.
  split; [reflexivity|]. split.
  - intros d pr H. cbn in H. rewrite lookup_empty in H. discriminate.
  - intros d p H. discriminate.
Qed.

Lemma registry_inv_build_step fs w w' :
  registry_inv fs w -> build_step w w' -> registry_inv fs w'.
Proof.
  intros (Hfs & Hpr & Hlru) (Hfs' & Hc & Hp).
  split; [congruence|]. rewrite Hc, Hp. split; assumption.
Qed.

Lemma registry_inv_touch fs w d v :
  registry_inv fs w ->
  lru_find d (w_packsCache w) = Some v ->
  registry_inv fs (set_packsCache ((d, v) :: lru_remove d (w_packsCache w)) w).
Proof.
  intros (Hfs & Hpr & Hlru) Hv. split; [exact Hfs|]. split; [exact Hpr|].
  cbn [w_packsCache set_packsCache]. intros d0 p0 Hfind.
  rewrite (lru_find_touch d0 d v _ Hv) in Hfind. apply Hlru. exact Hfind.
Qed.

Lemma registry_inv_insert fs w d p :
  registry_inv fs w ->
  (no_index_files fs d -> empty_store p) ->
  registry_inv fs
    (set_packsCache (take lru_max ((d, p) :: lru_remove d (w_packsCache w))) w).
Proof.
  intros (Hfs & Hpr & Hlru) Hp. split; [exact Hfs|]. split; [exact Hpr|].
  cbn [w_packsCache set_packsCache]. intros d0 p0 Hfind Hno.
  apply lru_find_take in Hfind. cbn [lru_find] in Hfind.
  destruct (decide (d = d0)) as [->|Hne].
  - injection Hfind as <-. apply Hp, Hno.
  - rewrite lru_find_remove_ne in Hfind by congruence. eapply Hlru; eassumption.
Qed.

Lemma _initialize_result_empty gitDir w p w1 :
  _initialize gitDir w = (Ok p, w1) ->
  no_index_files (w_fs w) gitDir -> empty_store p.
Proof.
  intros Hrun Hno. destruct (_initialize_empty gitDir w Hno) as (w1' & Hrun').
  rewrite Hrun in Hrun'. injection Hrun' as -> _. repeat split.
Qed.

Lemma build_sync_result_empty gitDir w p w1 :
  build_sync gitDir w = (Ok p, w1) ->
  no_index_files (w_fs w) gitDir -> empty_store p.
Proof.
  intros Hrun Hno. destruct (build_sync_empty gitDir w Hno) as (w1' & Hrun').
  rewrite Hrun in Hrun'. injection Hrun' as -> _. repeat split.
Qed.

Lemma registry_inv_initialize fs gitDir w :
  registry_inv fs w -> registry_inv fs (initialize gitDir w).2.
Proof.
  intros Hinv.
  destruct (lru_find gitDir (w_packsCache w)) as [p|] eqn:Hfind.
  { rewrite (initialize_hit _ _ _ Hfind). apply registry_inv_touch; assumption. }
  destruct (w_processings w !! gitDir) as [promise|] eqn:Hprom.
  { rewrite (initialize_pending _ _ _ Hfind Hprom).
    destruct promise; exact Hinv. }
  destruct (decide (gitDir ∈ Object_prototype_names)) as [Hname|Hname].
  { rewrite (initialize_inherited _ _ Hfind Hprom Hname). exact Hinv. }
  rewrite (initialize_miss _ _ Hfind Hprom Hname).
  pose proof (_initialize_build gitDir w) as Hstep.
  destruct (_initialize gitDir w) as [[p|e| |?] w1] eqn:Hrun; cbn [snd] in *.
  - pose proof (registry_inv_build_step _ _ _ Hinv Hstep) as Hinv1.
    destruct Hstep as (Hfs1 & Hc1 & Hp1).
    apply (registry_inv_insert fs
             (set_processings (delete gitDir (<[gitDir:=inr p]> (w_processings w1))) w1)
             gitDir p).
    + destruct Hinv1 as (Hfs & Hpr & Hlru). split; [exact Hfs|]. split; [|exact Hlru].
      cbn [w_processings set_processings]. intros d pr Hd.
      destruct (decide (d = gitDir)) as [->|Hne].
      * rewrite lookup_delete_eq in Hd. discriminate.
      * rewrite lookup_delete_ne, lookup_insert_ne in Hd by congruence.
        eapply Hpr. exact Hd.
    + intros Hno. eapply _initialize_result_empty; [exact Hrun|].
      destruct Hinv as (-> & _). exact Hno.
  - pose proof (registry_inv_build_step _ _ _ Hinv Hstep) as (Hfs & Hpr & Hlru).
    split; [exact Hfs|]. split; [|exact Hlru].
    cbn [w_processings set_processings]. intros d pr Hd.
    destruct (decide (d = gitDir)) as [->|Hne].
    + rewrite lookup_insert_eq in Hd. injection Hd as <-.
      exists e. split; [reflexivity|]. intros Hno.
      destruct Hinv as (Hfs0 & _). rewrite <- Hfs0 in Hno.
      destruct (_initialize_empty gitDir w Hno) as (w1' & Hrun').
      rewrite Hrun in Hrun'. discriminate.
    + rewrite lookup_insert_ne in Hd by congruence. eapply Hpr. exact Hd.
  - eapply registry_inv_build_step; eassumption.
  - eapply registry_inv_build_step; eassumption.
Qed.

Lemma registry_inv_initializeSync fs gitDir w :
  registry_inv fs w -> registry_inv fs (initializeSync gitDir w).2.
Proof.
  intros Hinv.
  destruct (lru_find gitDir (w_packsCache w)) as [p|] eqn:Hfind.
  { rewrite (initializeSync_hit _ _ _ Hfind). apply registry_inv_touch; assumption. }
  rewrite (initializeSync_miss _ _ Hfind).
  pose proof (build_sync_build gitDir w) as Hstep.
  destruct (build_sync gitDir w) as [[p|e| |?] w1] eqn:Hrun; cbn [snd] in *.
  - apply registry_inv_insert.
    + eapply registry_inv_build_step; eassumption.
    + intros Hno. eapply build_sync_result_empty; [exact Hrun|].
      destruct Hinv as (-> & _). exact Hno.
  - eapply registry_inv_build_step; eassumption.
  - eapply registry_inv_build_step; eassumption.
  - eapply registry_inv_build_step; eassumption.
Qed.

Lemma registry_inv_run_call fs c w :
  registry_inv fs w -> registry_inv fs (run_call c w).
Proof.
  intros Hinv. destruct c as [d|d|fuel this hash|fuel this hash]; cbn [run_call].
  - apply registry_inv_initialize, Hinv.
  - apply registry_inv_initializeSync, Hinv.
  - eapply registry_inv_build_step; [exact Hinv|].
    apply store_step_build_step, unpack_store.
  - eapply registry_inv_build_step; [exact Hinv|].
    apply store_step_build_step, unpack_store.
Qed.

Lemma registry_inv_run_calls fs cs : forall w,
  registry_inv fs w -> registry_inv fs (run_calls cs w).
Proof.
  induction cs as [|c cs IH]; intros w Hinv; [exact Hinv|].
  cbn [run_calls foldl]. apply IH, registry_inv_run_call, Hinv.
Qed.

Lemma reachable_inv fs w : reachable fs w -> registry_inv fs w.
Proof.
  intros (cs & ->). apply registry_inv_run_calls, registry_inv_boot.
Qed.

End Invariant.

(** ** How long an entry stays in the LRU list *)




Lemma lru_remove_keys k (l : list (string * Packs)) :
  (lru_remove k l).*1 = filter (fun k' => k' <> k) l.*1.
Proof.
  induction l as [|[k' v] l IH]; [reflexivity|]. cbn [lru_remove].
  destruct (decide (k' = k)) as [->|Hne]; rewrite ?fmap_cons; cbn [fst].
  - rewrite filter_cons_False by (cbn; congruence). exact IH.
  - rewrite filter_cons_True by (cbn; congruence). rewrite IH. reflexivity.
Qed.






Section Survival.
Context `{RT : Runtime}.

(** What an initialisation does to the LRU list. *)
Lemma initialize_cache_shape d w :
  w_packsCache (initialize d w).2 = w_packsCache w
  \/ (exists v, lru_find d (w_packsCache w) = Some v
        /\ w_packsCache (initialize d w).2
           = (d, v) :: lru_remove d (w_packsCache w))
  \/ (exists v, lru_find d (w_packsCache w) = None
        /\ w_packsCache (initialize d w).2
           = take lru_max ((d, v) :: lru_remove d (w_packsCache w))).
Proof.
  destruct (lru_find d (w_packsCache w)) as [p|] eqn:Hfind.
  { right; left. exists p. rewrite (initialize_hit _ _ _ Hfind). auto. }
  destruct (w_processings w !! d) as [promise|] eqn:Hprom.
  { left. rewrite (initialize_pending _ _ _ Hfind Hprom). destruct promise; reflexivity. }
  destruct (decide (d ∈ Object_prototype_names)) as [Hname|Hname].
  { left. rewrite (initialize_inherited _ _ Hfind Hprom Hname). reflexivity. }
  rewrite (initialize_miss _ _ Hfind Hprom Hname).
  pose proof (_initialize_build d w) as (_ & Hc & _).
  destruct (_initialize d w) as [[p|e| |?] w1]; cbn [snd] in *.
  - right; right. exists p. rewrite <- Hc. auto.
  - left. exact Hc.
  - left. exact Hc.
  - left. exact Hc.
Qed.

Lemma initializeSync_cache_shape d w :
  w_packsCache (initializeSync d w).2 = w_packsCache w
  \/ (exists v, lru_find d (w_packsCache w) = Some v
        /\ w_packsCache (initializeSync d w).2
           = (d, v) :: lru_remove d (w_packsCache w))
  \/ (exists v, lru_find d (w_packsCache w) = None
        /\ w_packsCache (initializeSync d w).2
           = take lru_max ((d, v) :: lru_remove d (w_packsCache w))).
Proof.
  destruct (lru_find d (w_packsCache w)) as [p|] eqn:Hfind.
  { right; left. exists p. rewrite (initializeSync_hit _ _ _ Hfind). auto. }
  rewrite (initializeSync_miss _ _ Hfind).
  pose proof (build_sync_build d w) as (_ & Hc & _).
  destruct (build_sync d w) as [[p|e| |?] w1]; cbn [snd] in *.
  - right; right. exists p. rewrite <- Hc. auto.
  - left. exact Hc.
  - left. exact Hc.
  - left. exact Hc.
Qed.

Lemma run_call_cache_shape c w :
  match call_dir c with
  | None => w_packsCache (run_call c w) = w_packsCache w
  | Some d =>
      w_packsCache (run_call c w) = w_packsCache w
      \/ (exists v, lru_find d (w_packsCache w) = Some v
            /\ w_packsCache (run_call c w)
               = (d, v) :: lru_remove d (w_packsCache w))
      \/ (exists v, lru_find d (w_packsCache w) = None
            /\ w_packsCache (run_call c w)
               = take lru_max ((d, v) :: lru_remove d (w_packsCache w)))
  end.
Proof.
  destruct c as [d|d|fuel this hash|fuel this hash]; cbn [call_dir run_call].
  - apply initialize_cache_shape.
  - apply initializeSync_cache_shape.
  - apply (unpack_store fuel Suspending this (Resolve hash) w).
  - apply (unpack_store fuel Blocking this (Resolve hash) w).
Qed.



(** A store that an initialisation returns is at the front of the list. *)
Lemma returned_store_at_front fs w w1 gitDir p :
  registry_inv fs w ->
  initialize gitDir w = (Ok p, w1) \/ initializeSync gitDir w = (Ok p, w1) ->
  exists post, w_packsCache w1 = (gitDir, p) :: post.
Proof.
  intros (Hfs & Hpr & Hlru) Hrun.
  destruct (lru_find gitDir (w_packsCache w)) as [p0|] eqn:Hfind.
  - rewrite (initialize_hit _ _ _ Hfind), (initializeSync_hit _ _ _ Hfind) in Hrun.
    assert (Heq : (Ok p0, set_packsCache
               ((gitDir, p0) :: lru_remove gitDir (w_packsCache w)) w)
            = (Ok p, w1)) by (destruct Hrun; assumption).
    injection Heq as -> <-. eexists. reflexivity.
  - destruct Hrun as [Hrun|Hrun].
    + destruct (w_processings w !! gitDir) as [promise|] eqn:Hprom.
      { destruct (Hpr _ _ Hprom) as (e & -> & _).
        rewrite (initialize_pending _ _ _ Hfind Hprom) in Hrun. discriminate. }
      destruct (decide (gitDir ∈ Object_prototype_names)) as [Hname|Hname];
        [rewrite (initialize_inherited _ _ Hfind Hprom Hname) in Hrun;
         discriminate|].
      rewrite (initialize_miss _ _ Hfind Hprom Hname) in Hrun.
      destruct (_initialize gitDir w) as [[p0|e| |?] w0]; try discriminate.
      injection Hrun as -> <-. eexists. reflexivity.
    + rewrite (initializeSync_miss _ _ Hfind) in Hrun.
      destruct (build_sync gitDir w) as [[p0|e| |?] w0]; try discriminate.
      injection Hrun as -> <-. eexists. reflexivity.
Qed.

End Survival.

(** * Properties of the specification *)

Section SpecProperties.
Context `{RT : Runtime}.

(** C1.  Resolving a delta object whose header has just been read into
    [head]: the base is resolved first, at the object's own offset minus the
    decoded distance in the same pack file through [_unpackGitObject] for
    OFS_DELTA, and through the top-level [unpackGitObject] on the hash in
    the 20 bytes after the header for REF_DELTA ([delta_base]); only then is
    the delta payload decompressed, the patch applied to the base bytes and
    the delta bytes, and the result cached.  A failure of an earlier step
    ends the resolution. *)
Theorem delta_base_resolved_before_patch (fuel : nat) (mode : Mode)
    (this : Packs) (fd : Z) (idx : PackedIndex) (w w1 : World)
    (data : Buffer) (po : PackedObject) :
  object_cache this w !! cache_key idx = None ->
  fs_read mode fd (idx_offset idx) 32 w = (Ok data, w1) ->
  new_PackedObject (buffer_fill (Buffer_alloc 32) data) = Some po ->
  po_type po = ObjectTypeEnum.OFS_DELTA
    \/ po_type po = ObjectTypeEnum.REF_DELTA ->
  unpack (S (S fuel)) mode this (ResolveAt fd idx) w =
  (base ← unpack (S fuel) mode this
            (delta_base fd idx po (buffer_fill (Buffer_alloc 32) data));
   delta ← inf_from (S (S fuel)) mode fd idx
             (delta_payload po (buffer_fill (Buffer_alloc 32) data))
             (inf_initial_size
                (delta_payload po (buffer_fill (Buffer_alloc 32) data)));
   out ← lift (patchDelta base delta);
   _setPackedObjectBuffrToCache this idx out;;
   mret out) w1.
Proof. apply resolve_at_delta. Qed.

(** C4.  For a hash that is not in the index map, [unpackGitObject] and
    [unpackGitObjectSync] throw the not-found error and leave the world as
    it was: no file is opened or read. *)
Theorem absent_hash_not_found (fuel : nat) (this : Packs) (hash : string)
    (w : World) :
  packedIndexMap this !! hash = None ->
  unpackGitObject (S fuel) this hash w = (Throw (NotFound hash), w)
  /\ unpackGitObjectSync (S fuel) this hash w = (Throw (NotFound hash), w).
Proof.
  intros Hnone. split; apply resolve_absent, Hnone.
Qed.


(** C6.  The decompressor's first attempt asks for a buffer of
    [po.size * 2 + 32] bytes and reads that many bytes at the payload
    offset; each attempt that fails with [Z_BUF_ERROR] is followed by one
    with a buffer 128 bytes larger, read at the same position; the first
    attempt that succeeds gives the result, and the first one that fails
    with another error throws it, with no further read.  This is so as long
    as [Buffer.allocUnsafe] serves the sizes asked for; an attempt whose
    size it refuses throws its [RangeError] instead of reading. *)
Theorem decompression_retry_policy (k fuel : nat) (mode : Mode) (fd : Z)
    (idx : PackedIndex) (po : PackedObject) (w : World) (path : string)
    (current : Z) (content : Buffer) :
  w_fds w !! fd = Some (path, current) ->
  fs_files (w_fs w) !! path = Some content ->
  0 <= JS.add (idx_offset idx) (po_offset po) ->
  0 <= po_size po ->
  max_buffer_length < 2 ^ 53 ->
  (forall i, (i < k)%nat ->
     po_size po * 2 + 32 + 128 * Z.of_nat i <= max_buffer_length
     /\ exists e,
       inflate (attempt_input content (JS.add (idx_offset idx) (po_offset po))
                  (po_size po * 2 + 32 + 128 * Z.of_nat i)) = inl e
       /\ errno e = Some Z_BUF_ERROR) ->
  (po_size po * 2 + 32 + 128 * Z.of_nat k <= max_buffer_length ->
   (forall out,
      inflate (attempt_input content (JS.add (idx_offset idx) (po_offset po))
                 (po_size po * 2 + 32 + 128 * Z.of_nat k)) = inr out ->
      inf_from (S k + fuel) mode fd idx po (inf_initial_size po) w =
        (Ok out,
         set_trace
           (w_trace w ++ attempt_reads mode fd
              (JS.add (idx_offset idx) (po_offset po))
              (po_size po * 2 + 32) (S k))
           w))
   /\ (forall e,
         inflate (attempt_input content (JS.add (idx_offset idx) (po_offset po))
                    (po_size po * 2 + 32 + 128 * Z.of_nat k)) = inl e ->
         errno e <> Some Z_BUF_ERROR ->
         inf_from (S k + fuel) mode fd idx po (inf_initial_size po) w =
           (Throw e,
            set_trace
              (w_trace w ++ attempt_reads mode fd
                 (JS.add (idx_offset idx) (po_offset po))
                 (po_size po * 2 + 32) (S k))
              w)))
  /\ (max_buffer_length < po_size po * 2 + 32 + 128 * Z.of_nat k ->
      inf_from (S k + fuel) mode fd idx po (inf_initial_size po) w =
        (Throw RangeError,
         set_trace
           (w_trace w ++ attempt_reads mode fd
              (JS.add (idx_offset idx) (po_offset po))
              (po_size po * 2 + 32) k)
           w)).
Proof.
  intros Hfd Hfile Hpos Hsize Hmax Hfail.
  destruct (inf_from_attempts k (S fuel) mode fd idx po w path current content
              Hfd Hfile Hpos Hsize Hmax Hfail) as (size & Hrun & Hserved & Hrefused).
  replace (S k + fuel)%nat with (k + S fuel)%nat by lia.
  rewrite Hrun. split.
  - intros Hk. specialize (Hserved Hk). subst size.
    erewrite inf_from_step;
      [| exact Hfd | exact Hfile | exact Hpos | unfold grown_size; lia].
    cbv zeta. rewrite attempt_reads_snoc, app_assoc.
    unfold grown_size. split.
    + intros out ->. reflexivity.
    + intros e -> Hne. destruct (decide _); [contradiction | reflexivity].
  - intros Hk. apply inf_from_refused, Hrefused, Hk.
Qed.

(** C7.  An object that is in the index but not in the cache, and whose
    header decodes to a kind other than commit, tag, OFS_DELTA and
    REF_DELTA (so also tree and blob), makes the resolution throw the
    invalid-object-type error: the pack file is opened, the 32 header bytes
    are read, the file is closed, and nothing is decompressed or cached. *)
Theorem undispatched_kinds_rejected (fuel : nat) (mode : Mode) (this : Packs)
    (hash : string) (idx : PackedIndex) (w : World) (content : Buffer)
    (po : PackedObject) :
  packedIndexMap this !! hash = Some idx ->
  object_cache this w !! cache_key idx = None ->
  fs_files (w_fs w) !! _getPackFilePath this idx = Some content ->
  new_PackedObject
    (buffer_fill (Buffer_alloc 32) (file_read content 0 (idx_offset idx) 32))
    = Some po ->
  po_type po <> ObjectTypeEnum.COMMIT ->
  po_type po <> ObjectTypeEnum.TAG ->
  po_type po <> ObjectTypeEnum.OFS_DELTA ->
  po_type po <> ObjectTypeEnum.REF_DELTA ->
  exists w',
    unpack (S (S fuel)) mode this (Resolve hash) w
      = (Throw (InvalidObjectType (po_type po)), w')
    /\ w_trace w' =
         w_trace w ++ [IoOpen mode (_getPackFilePath this idx);
                       IoRead mode (w_next_fd w) (idx_offset idx) 32;
                       IoClose mode (w_next_fd w)]
    /\ w_objects w' = w_objects w.
Proof. apply resolve_undispatched. Qed.

(** C8.  After a resolution of [hash] has succeeded, the decoded-object
    cache holds the bytes under the pair of the pack file index and the
    offset of [hash], and a further resolution of [hash] on the same store,
    in either mode, returns the same bytes and leaves the world as it is: no
    file is opened or read.  It is the entry under that pair which answers:
    in whatever state the cache holds bytes there, a resolution of [hash]
    returns them and does nothing else. *)
Theorem second_resolve_hits_cache (fuel : nat) (mode : Mode) (this : Packs)
    (hash : string) (bytes : Buffer) (w w1 : World) :
  unpack fuel mode this (Resolve hash) w = (Ok bytes, w1) ->
  exists idx,
    packedIndexMap this !! hash = Some idx
    /\ object_cache this w1 !! (idx_fileIndex idx, idx_offset idx) = Some bytes
    /\ (forall fuel',
          unpackGitObject (S fuel') this hash w1 = (Ok bytes, w1)
          /\ unpackGitObjectSync (S fuel') this hash w1 = (Ok bytes, w1))
    /\ (forall fuel' w2 held,
          object_cache this w2 !! (idx_fileIndex idx, idx_offset idx)
            = Some held ->
          unpackGitObject (S fuel') this hash w2 = (Ok held, w2)
          /\ unpackGitObjectSync (S fuel') this hash w2 = (Ok held, w2)).
Proof.
  intros Hrun.
  destruct (resolve_ok_cached _ _ _ _ _ _ _ Hrun) as (idx & Hidx & Hhit).
  exists idx. split; [exact Hidx|]. split; [exact Hhit|]. split.
  - intros fuel'. split; eapply resolve_cached; eassumption.
  - intros fuel' w2 held Hheld. split; eapply resolve_cached; eassumption.
Qed.


End SpecProperties.

(** ** C2: a failed build and the in-flight registry *)

Section Poisoning.
Context `{RT : Runtime}.

(** A call of [initialize] that throws leaves the rejected promise in
    [processings]. *)
Lemma failed_initialize_stays_registered gitDir w e w1 :
  initialize gitDir w = (Throw e, w1) ->
  w_processings w1 !! gitDir = Some (inl e).
Proof.
  intros Hrun.
  destruct (lru_find gitDir (w_packsCache w)) as [p|] eqn:Hfind.
  { rewrite (initialize_hit _ _ _ Hfind) in Hrun. discriminate. }
  destruct (w_processings w !! gitDir) as [promise|] eqn:Hprom.
  - rewrite (initialize_pending _ _ _ Hfind Hprom) in Hrun.
    destruct promise as [e'|p]; [|discriminate].
    injection Hrun as -> <-. exact Hprom.
  - destruct (decide (gitDir ∈ Object_prototype_names)) as [Hname|Hname];
      [rewrite (initialize_inherited _ _ Hfind Hprom Hname) in Hrun;
       discriminate|].
    rewrite (initialize_miss _ _ Hfind Hprom Hname) in Hrun.
    destruct (_initialize gitDir w) as [[p|e'| |?] w0]; try discriminate.
    injection Hrun as -> <-. apply lookup_insert_eq.
Qed.

(** While the rejected promise is there and the registry has no store for
    the directory, [initialize] throws the old error again and does nothing
    else; [initializeSync] does not look at [processings]. *)
Lemma registered_failure_is_replayed gitDir w e :
  lru_find gitDir (w_packsCache w) = None ->
  w_processings w !! gitDir = Some (inl e) ->
  initialize gitDir w = (Throw e, w).
Proof.
  intros Hfind Hprom. rewrite (initialize_pending _ _ _ Hfind Hprom). reflexivity.
Qed.

(** A build that succeeds leaves no entry in [processings]. *)
Lemma successful_build_is_unregistered gitDir w p w1 :
  lru_find gitDir (w_packsCache w) = None ->
  w_processings w !! gitDir = None ->
  initialize gitDir w = (Ok p, w1) ->
  w_processings w1 !! gitDir = None.
Proof.
  intros Hfind Hprom Hrun.
  destruct (decide (gitDir ∈ Object_prototype_names)) as [Hname|Hname];
    [rewrite (initialize_inherited _ _ Hfind Hprom Hname) in Hrun;
     discriminate|].
  rewrite (initialize_miss _ _ Hfind Hprom Hname) in Hrun.
  destruct (_initialize gitDir w) as [[p0|e| |?] w0]; try discriminate.
  injection Hrun as -> <-. apply lookup_delete_eq.
Qed.

End Poisoning.

(** C2.  The build of [initialize("torn")] fails on the empty index file
    [pack-3.idx].  Afterwards [processings] still holds the rejected promise
    for ["torn"]; a later [initialize("torn")], even once the index file has
    been written out, throws the old error without listing the directory,
    whereas [initializeSync("torn")] builds the store. *)
Theorem failed_build_stays_in_processings :
  (@initialize (Sample.runtime Strict) "torn" (boot Sample.fs)).1
    = Throw RangeError
  /\ w_processings (@initialize (Sample.runtime Strict) "torn" (boot Sample.fs)).2
       !! "torn" = Some (inl RangeError)
  /\ (@initialize (Sample.runtime Strict) "torn"
        (set_fs Sample.fs_repaired
           (@initialize (Sample.runtime Strict) "torn" (boot Sample.fs)).2)).1
       = Throw RangeError
  /\ w_trace
       (@initialize (Sample.runtime Strict) "torn"
          (set_fs Sample.fs_repaired
             (@initialize (Sample.runtime Strict) "torn" (boot Sample.fs)).2)).2
       = w_trace (@initialize (Sample.runtime Strict) "torn" (boot Sample.fs)).2
  /\ hasPackFiles <$>
       (match (@initializeSync (Sample.runtime Strict) "torn"
                 (set_fs Sample.fs_repaired
                    (@initialize (Sample.runtime Strict) "torn"
                       (boot Sample.fs)).2)).1 with
        | Ok p => Some p
        | _ => None
        end) = Some true.
Proof. vm_compute. repeat split. Qed.

(** ** C9: directories without index files *)

(** C9.  The sample file system has no directory [constructor], so the
    pack directory of [constructor] cannot be listed.  In a process that has
    just started, [initializeSync("constructor")] returns an empty store,
    whereas [initialize("constructor")] returns no store: what it finds
    under [processings["constructor"]] is the member that [processings]
    inherits from [Object.prototype], and it returns that member, with no
    directory listed, no store created and nothing registered.  Likewise,
    once the build of [initialize("torn")] has failed and the pack directory
    of [torn] has been removed, [initializeSync("torn")] returns an empty
    store, whereas [initialize("torn")] throws the error of the old build
    again. *)
Theorem initialize_returns_no_store :
  no_index_files Sample.fs "constructor"
  /\ @initialize (Sample.runtime Strict) "constructor" (boot Sample.fs)
     = (Inherited "constructor", boot Sample.fs)
  /\ (@initializeSync (Sample.runtime Strict) "constructor" (boot Sample.fs)).1
     = Ok (Scenes.empty_store_of "constructor" 0)
  /\ no_index_files Scenes.fs_cleared "torn"
  /\ @initialize (Sample.runtime Strict) "torn"
       (set_fs Scenes.fs_cleared
          (@initialize (Sample.runtime Strict) "torn" (boot Sample.fs)).2)
     = (Throw RangeError,
        set_fs Scenes.fs_cleared
          (@initialize (Sample.runtime Strict) "torn" (boot Sample.fs)).2)
  /\ (@initializeSync (Sample.runtime Strict) "torn"
        (set_fs Scenes.fs_cleared
           (@initialize (Sample.runtime Strict) "torn" (boot Sample.fs)).2)).1
     = Ok (Scenes.empty_store_of "torn" 0).
Proof. vm_compute. repeat split. Qed.

(** ** C3: entries of the 64-bit offset table *)

Section LargeOffsets.
Context `{RT : Runtime}.

(** With offsets checked as they are, the read at [off64 * 4294967296] is
    outside every buffer of less than [2^32] bytes, so an entry with the
    high bit set makes the loop body throw. *)
Lemma large_entry_throws_when_strict buff fileIndex st offset :
  buffer_semantics = Strict ->
  Z.of_nat (length buff) < 2 ^ 32 ->
  0 < l2_off64 st ->
  readUInt32BE buff (l2_off32 st) = inr offset ->
  Z.land offset 0x80000000 <> 0 ->
  idx_loop2_body buff fileIndex st = inl RangeError.
Proof.
  intros Hsem Hlen Hoff Hread Hhigh. unfold idx_loop2_body.
  rewrite Hread. cbn [mbind result_bind].
  apply Z.eqb_neq in Hhigh. rewrite Hhigh.
  unfold readUInt32BE at 1, read_uint_be, checked_offset. rewrite Hsem.
  destruct (Z.leb_spec (l2_off64 st * 4294967296 + 4) (Z.of_nat (length buff)));
    [lia|].
  rewrite andb_false_r. reflexivity.
Qed.

(** With offsets coerced by [>>> 0], the read at [off64 * 4294967296] is a
    read at offset 0, whatever [off64] is. *)
Lemma large_entry_reads_magic_when_coercing buff off64 :
  buffer_semantics = Coercing ->
  readUInt32BE buff (off64 * 4294967296) = readUInt32BE buff 0.
Proof.
  intros Hsem. unfold readUInt32BE, read_uint_be, checked_offset. rewrite Hsem.
  change 4294967296 with (2 ^ 32). rewrite Z.mod_mul by lia.
  reflexivity.
Qed.

End LargeOffsets.

(** C3.  On the version-2 index [idx_v2_large], whose only 32-bit offset
    entry has the high bit set, the documented format gives the offset
    [2^32 + 12] held by entry 0 of the 64-bit table.  The parser instead
    reads at [off64 * 4294967296]: with offsets checked as they are the read
    is out of range and the parse throws; with offsets coerced by [>>> 0]
    the read is at offset 0 and the entry recorded is the magic number plus
    a 16-bit field. *)
Theorem large_offset_entry_misread :
  IdxSpec.true_offset Sample.idx_v2_large 1 0x80000000 = 2 ^ 32 + 12
  /\ @readUInt32BE (Sample.runtime Strict) Sample.idx_v2_large
       (IdxSpec.table64_start 1 - 4) = inr 0x80000000
  /\ @setupPackedIndexMap (Sample.runtime Strict) Sample.idx_v2_large 0 ∅
       = inl RangeError
  /\ match @setupPackedIndexMap (Sample.runtime Coercing)
             Sample.idx_v2_large 0 ∅ with
     | inr map => map !! to_hex Sample.id_commit
     | inl _ => None
     end = Some (mkPackedIndex 0xff744f63 0).
Proof. vm_compute. repeat split. Qed.

(** * The properties on the sample repository *)

Section Witnesses.
#[local] Existing Instance Sample.strict_runtime.

(** The OFS_DELTA at offset 17, read through descriptor 3, whose base is
    the commit at offset 12; and the REF_DELTA at offset 25, whose base is
    named by the hash of that commit. *)
Lemma delta_base_resolved_before_patch_witness :
  (object_cache Sample.store Sample.opened !! cache_key (mkPackedIndex 17 0) = None
   /\ fs_read Blocking 3 (idx_offset (mkPackedIndex 17 0)) 32 Sample.opened
        = (Ok (file_read Sample.pack 0 17 32),
           (fs_read Blocking 3 17 32 Sample.opened).2)
   /\ new_PackedObject
        (buffer_fill (Buffer_alloc 32) (file_read Sample.pack 0 17 32))
        = Some (mkPackedObject 6 2 1)
   /\ (po_type (mkPackedObject 6 2 1) = ObjectTypeEnum.OFS_DELTA
       \/ po_type (mkPackedObject 6 2 1) = ObjectTypeEnum.REF_DELTA)
   /\ unpack 3 Blocking Sample.store (ResolveAt 3 (mkPackedIndex 17 0))
        Sample.opened
      = (base ← unpack 2 Blocking Sample.store
                  (delta_base 3 (mkPackedIndex 17 0) (mkPackedObject 6 2 1)
                     (buffer_fill (Buffer_alloc 32)
                        (file_read Sample.pack 0 17 32)));
         delta ← inf_from 3 Blocking 3 (mkPackedIndex 17 0)
                   (delta_payload (mkPackedObject 6 2 1)
                      (buffer_fill (Buffer_alloc 32)
                         (file_read Sample.pack 0 17 32)))
                   (inf_initial_size
                      (delta_payload (mkPackedObject 6 2 1)
                         (buffer_fill (Buffer_alloc 32)
                            (file_read Sample.pack 0 17 32))));
         out ← lift (patchDelta base delta);
         _setPackedObjectBuffrToCache Sample.store (mkPackedIndex 17 0) out;;
         mret out) (fs_read Blocking 3 17 32 Sample.opened).2)
  /\ delta_base 3 (mkPackedIndex 17 0) (mkPackedObject 6 2 1)
       (buffer_fill (Buffer_alloc 32) (file_read Sample.pack 0 17 32))
     = ResolveAt 3 (mkPackedIndex 12 0)
  /\ (object_cache Sample.store Sample.opened !! cache_key (mkPackedIndex 25 0) = None
   /\ fs_read Blocking 3 (idx_offset (mkPackedIndex 25 0)) 32 Sample.opened
        = (Ok (file_read Sample.pack 0 25 32),
           (fs_read Blocking 3 25 32 Sample.opened).2)
   /\ new_PackedObject
        (buffer_fill (Buffer_alloc 32) (file_read Sample.pack 0 25 32))
        = Some (mkPackedObject 7 1 1)
   /\ (po_type (mkPackedObject 7 1 1) = ObjectTypeEnum.OFS_DELTA
       \/ po_type (mkPackedObject 7 1 1) = ObjectTypeEnum.REF_DELTA)
   /\ unpack 3 Blocking Sample.store (ResolveAt 3 (mkPackedIndex 25 0))
        Sample.opened
      = (base ← unpack 2 Blocking Sample.store
                  (delta_base 3 (mkPackedIndex 25 0) (mkPackedObject 7 1 1)
                     (buffer_fill (Buffer_alloc 32)
                        (file_read Sample.pack 0 25 32)));
         delta ← inf_from 3 Blocking 3 (mkPackedIndex 25 0)
                   (delta_payload (mkPackedObject 7 1 1)
                      (buffer_fill (Buffer_alloc 32)
                         (file_read Sample.pack 0 25 32)))
                   (inf_initial_size
                      (delta_payload (mkPackedObject 7 1 1)
                         (buffer_fill (Buffer_alloc 32)
                            (file_read Sample.pack 0 25 32))));
         out ← lift (patchDelta base delta);
         _setPackedObjectBuffrToCache Sample.store (mkPackedIndex 25 0) out;;
         mret out) (fs_read Blocking 3 25 32 Sample.opened).2)
  /\ delta_base 3 (mkPackedIndex 25 0) (mkPackedObject 7 1 1)
       (buffer_fill (Buffer_alloc 32) (file_read Sample.pack 0 25 32))
     = Resolve (to_hex Sample.id_commit).
Proof.
  assert (h1o : object_cache Sample.store Sample.opened
                 !! cache_key (mkPackedIndex 17 0) = None)
    by (vm_compute; reflexivity).
  assert (h2o : fs_read Blocking 3 (idx_offset (mkPackedIndex 17 0)) 32
                 Sample.opened
               = (Ok (file_read Sample.pack 0 17 32),
                  (fs_read Blocking 3 17 32 Sample.opened).2))
    by (vm_compute; reflexivity).
  assert (h3o : new_PackedObject
                 (buffer_fill (Buffer_alloc 32) (file_read Sample.pack 0 17 32))
               = Some (mkPackedObject 6 2 1))
    by (vm_compute; reflexivity).
  assert (h4o : po_type (mkPackedObject 6 2 1) = ObjectTypeEnum.OFS_DELTA
               \/ po_type (mkPackedObject 6 2 1) = ObjectTypeEnum.REF_DELTA)
    by (left; vm_compute; reflexivity).
  assert (h1r : object_cache Sample.store Sample.opened
                 !! cache_key (mkPackedIndex 25 0) = None)
    by (vm_compute; reflexivity).
  assert (h2r : fs_read Blocking 3 (idx_offset (mkPackedIndex 25 0)) 32
                 Sample.opened
               = (Ok (file_read Sample.pack 0 25 32),
                  (fs_read Blocking 3 25 32 Sample.opened).2))
    by (vm_compute; reflexivity).
  assert (h3r : new_PackedObject
                 (buffer_fill (Buffer_alloc 32) (file_read Sample.pack 0 25 32))
               = Some (mkPackedObject 7 1 1))
    by (vm_compute; reflexivity).
  assert (h4r : po_type (mkPackedObject 7 1 1) = ObjectTypeEnum.OFS_DELTA
               \/ po_type (mkPackedObject 7 1 1) = ObjectTypeEnum.REF_DELTA)
    by (right; vm_compute; reflexivity).
  split.
  { exact (conj h1o (conj h2o (conj h3o (conj h4o
             (delta_base_resolved_before_patch 1 Blocking Sample.store 3
                (mkPackedIndex 17 0) Sample.opened
                (fs_read Blocking 3 17 32 Sample.opened).2
                (file_read Sample.pack 0 17 32) (mkPackedObject 6 2 1)
                h1o h2o h3o h4o))))). }
  split; [vm_compute; reflexivity|]. split.
  { exact (conj h1r (conj h2r (conj h3r (conj h4r
             (delta_base_resolved_before_patch 1 Blocking Sample.store 3
                (mkPackedIndex 25 0) Sample.opened
                (fs_read Blocking 3 25 32 Sample.opened).2
                (file_read Sample.pack 0 25 32) (mkPackedObject 7 1 1)
                h1r h2r h3r h4r))))). }
  vm_compute; reflexivity.
Defined.

Lemma absent_hash_not_found_witness :
  packedIndexMap Sample.store !! "00ff" = None
  /\ unpackGitObject 1 Sample.store "00ff" (boot Sample.fs)
       = (Throw (NotFound "00ff"), boot Sample.fs)
  /\ unpackGitObjectSync 1 Sample.store "00ff" (boot Sample.fs)
       = (Throw (NotFound "00ff"), boot Sample.fs).
Proof.
  assert (h1 : packedIndexMap Sample.store !! "00ff" = None)
    by (vm_compute; reflexivity).
  exact (conj h1
           (absent_hash_not_found 0 Sample.store "00ff" (boot Sample.fs) h1)).
Defined.

(** The commit of [Scenes.long_pack] declares 5 bytes and has a stream of
    61 bytes: the first attempt, with 5 * 2 + 32 = 42 bytes, fails with
    [Z_BUF_ERROR], the next one, with 170 bytes, succeeds. *)
Lemma decompression_retry_policy_witness :
  w_fds Scenes.long_opened !! 3 = Some ("long/objects/pack/pack-4.pack", 0)
  /\ fs_files (w_fs Scenes.long_opened) !! "long/objects/pack/pack-4.pack"
       = Some Scenes.long_pack
  /\ 0 <= JS.add (idx_offset (mkPackedIndex 12 0)) (po_offset (mkPackedObject 1 5 1))
  /\ 0 <= po_size (mkPackedObject 1 5 1)
  /\ max_buffer_length < 2 ^ 53
  /\ (forall i, (i < 1)%nat ->
        po_size (mkPackedObject 1 5 1) * 2 + 32 + 128 * Z.of_nat i
          <= max_buffer_length
        /\ exists e,
          inflate (attempt_input Scenes.long_pack
                     (JS.add (idx_offset (mkPackedIndex 12 0))
                        (po_offset (mkPackedObject 1 5 1)))
                     (po_size (mkPackedObject 1 5 1) * 2 + 32 + 128 * Z.of_nat i))
            = inl e
          /\ errno e = Some Z_BUF_ERROR)
  /\ po_size (mkPackedObject 1 5 1) * 2 + 32 + 128 * Z.of_nat 1
       <= max_buffer_length
  /\ inflate (attempt_input Scenes.long_pack
                (JS.add (idx_offset (mkPackedIndex 12 0))
                   (po_offset (mkPackedObject 1 5 1)))
                (po_size (mkPackedObject 1 5 1) * 2 + 32 + 128 * Z.of_nat 1))
       = inr (replicate 60 (u8 0x68))
  /\ inf_from 2 Blocking 3 (mkPackedIndex 12 0) (mkPackedObject 1 5 1)
       (inf_initial_size (mkPackedObject 1 5 1)) Scenes.long_opened
     = (Ok (replicate 60 (u8 0x68)),
        set_trace
          (w_trace Scenes.long_opened
             ++ attempt_reads Blocking 3
                  (JS.add (idx_offset (mkPackedIndex 12 0))
                     (po_offset (mkPackedObject 1 5 1)))
                  (po_size (mkPackedObject 1 5 1) * 2 + 32) 2)
          Scenes.long_opened)
  /\ attempt_reads Blocking 3
       (JS.add (idx_offset (mkPackedIndex 12 0)) (po_offset (mkPackedObject 1 5 1)))
       (po_size (mkPackedObject 1 5 1) * 2 + 32) 2
     = [IoRead Blocking 3 13 42; IoRead Blocking 3 13 170].
Proof.
  assert (h1 : w_fds Scenes.long_opened !! 3
               = Some ("long/objects/pack/pack-4.pack", 0))
    by (vm_compute; reflexivity).
  assert (h2 : fs_files (w_fs Scenes.long_opened)
                 !! "long/objects/pack/pack-4.pack" = Some Scenes.long_pack)
    by (vm_compute; reflexivity).
  assert (h3 : 0 <= JS.add (idx_offset (mkPackedIndex 12 0))
                      (po_offset (mkPackedObject 1 5 1)))
    by (vm_compute; discriminate).
  assert (h4 : 0 <= po_size (mkPackedObject 1 5 1))
    by (vm_compute; discriminate).
  assert (h5 : max_buffer_length < 2 ^ 53) by (vm_compute; reflexivity).
  assert (h6 : forall i, (i < 1)%nat ->
            po_size (mkPackedObject 1 5 1) * 2 + 32 + 128 * Z.of_nat i
              <= max_buffer_length
            /\ exists e,
              inflate (attempt_input Scenes.long_pack
                         (JS.add (idx_offset (mkPackedIndex 12 0))
                            (po_offset (mkPackedObject 1 5 1)))
                         (po_size (mkPackedObject 1 5 1) * 2 + 32
                          + 128 * Z.of_nat i))
                = inl e
              /\ errno e = Some Z_BUF_ERROR).
  { intros i Hi. assert (i = 0%nat) as -> by lia.
    split; [vm_compute; discriminate|].
    exists (ZlibError Z_BUF_ERROR). split; vm_compute; reflexivity. }
  assert (h7 : po_size (mkPackedObject 1 5 1) * 2 + 32 + 128 * Z.of_nat 1
               <= max_buffer_length)
    by (vm_compute; discriminate).
  assert (h8 : inflate (attempt_input Scenes.long_pack
                (JS.add (idx_offset (mkPackedIndex 12 0))
                   (po_offset (mkPackedObject 1 5 1)))
                (po_size (mkPackedObject 1 5 1) * 2 + 32 + 128 * Z.of_nat 1))
               = inr (replicate 60 (u8 0x68)))
    by (vm_compute; reflexivity).
  assert (h9 : attempt_reads Blocking 3
       (JS.add (idx_offset (mkPackedIndex 12 0)) (po_offset (mkPackedObject 1 5 1)))
       (po_size (mkPackedObject 1 5 1) * 2 + 32) 2
     = [IoRead Blocking 3 13 42; IoRead Blocking 3 13 170])
    by (vm_compute; reflexivity).
  exact (conj h1 (conj h2 (conj h3 (conj h4 (conj h5 (conj h6 (conj h7 (conj h8
           (conj
              (proj1
                 (proj1 (decompression_retry_policy 1 0 Blocking 3
                           (mkPackedIndex 12 0) (mkPackedObject 1 5 1)
                           Scenes.long_opened
                           "long/objects/pack/pack-4.pack" 0 Scenes.long_pack
                           h1 h2 h3 h4 h5 h6) h7)
                 (replicate 60 (u8 0x68)) h8)
              h9))))))))).
Defined.

(** The blob at offset 22. *)
Lemma undispatched_kinds_rejected_witness :
  packedIndexMap Sample.store !! to_hex Sample.id_blob = Some (mkPackedIndex 22 0)
  /\ object_cache Sample.store (boot Sample.fs) !! cache_key (mkPackedIndex 22 0)
       = None
  /\ fs_files (w_fs (boot Sample.fs))
       !! _getPackFilePath Sample.store (mkPackedIndex 22 0) = Some Sample.pack
  /\ new_PackedObject
       (buffer_fill (Buffer_alloc 32)
          (file_read Sample.pack 0 (idx_offset (mkPackedIndex 22 0)) 32))
       = Some (mkPackedObject 3 1 1)
  /\ exists w',
       unpack 2 Suspending Sample.store (Resolve (to_hex Sample.id_blob))
         (boot Sample.fs)
         = (Throw (InvalidObjectType (po_type (mkPackedObject 3 1 1))), w')
       /\ w_trace w' =
            w_trace (boot Sample.fs)
            ++ [IoOpen Suspending (_getPackFilePath Sample.store (mkPackedIndex 22 0));
                IoRead Suspending (w_next_fd (boot Sample.fs))
                  (idx_offset (mkPackedIndex 22 0)) 32;
                IoClose Suspending (w_next_fd (boot Sample.fs))]
       /\ w_objects w' = w_objects (boot Sample.fs).
Proof.
  assert (h1 : packedIndexMap Sample.store !! to_hex Sample.id_blob
               = Some (mkPackedIndex 22 0))
    by (vm_compute; reflexivity).
  assert (h2 : object_cache Sample.store (boot Sample.fs)
                 !! cache_key (mkPackedIndex 22 0) = None)
    by (vm_compute; reflexivity).
  assert (h3 : fs_files (w_fs (boot Sample.fs))
                 !! _getPackFilePath Sample.store (mkPackedIndex 22 0)
               = Some Sample.pack)
    by (vm_compute; reflexivity).
  assert (h4 : new_PackedObject
                 (buffer_fill (Buffer_alloc 32)
                    (file_read Sample.pack 0 (idx_offset (mkPackedIndex 22 0)) 32))
               = Some (mkPackedObject 3 1 1))
    by (vm_compute; reflexivity).
  exact (conj h1 (conj h2 (conj h3 (conj h4
           (undispatched_kinds_rejected 0 Suspending Sample.store
              (to_hex Sample.id_blob) (mkPackedIndex 22 0) (boot Sample.fs)
              Sample.pack (mkPackedObject 3 1 1) h1 h2 h3 h4
              ltac:(vm_compute; discriminate) ltac:(vm_compute; discriminate)
              ltac:(vm_compute; discriminate) ltac:(vm_compute; discriminate)))))).
Defined.

(** The OFS_DELTA object, resolved in a fresh process: it is the object at
    offset 17 of pack file 0. *)
Lemma second_resolve_hits_cache_witness :
  unpack 3 Suspending Sample.store (Resolve (to_hex Sample.id_ofs)) (boot Sample.fs)
    = (Ok (u8 <$> [0x61; 0x62; 0x63; 0x64; 0x65]),
       (unpack 3 Suspending Sample.store (Resolve (to_hex Sample.id_ofs))
          (boot Sample.fs)).2)
  /\ (exists idx,
       packedIndexMap Sample.store !! to_hex Sample.id_ofs = Some idx
       /\ object_cache Sample.store
            (unpack 3 Suspending Sample.store (Resolve (to_hex Sample.id_ofs))
               (boot Sample.fs)).2 !! (idx_fileIndex idx, idx_offset idx)
          = Some (u8 <$> [0x61; 0x62; 0x63; 0x64; 0x65])
       /\ (forall fuel',
            unpackGitObject (S fuel') Sample.store (to_hex Sample.id_ofs)
              (unpack 3 Suspending Sample.store (Resolve (to_hex Sample.id_ofs))
                 (boot Sample.fs)).2
            = (Ok (u8 <$> [0x61; 0x62; 0x63; 0x64; 0x65]),
               (unpack 3 Suspending Sample.store (Resolve (to_hex Sample.id_ofs))
                  (boot Sample.fs)).2)
            /\ unpackGitObjectSync (S fuel') Sample.store (to_hex Sample.id_ofs)
                 (unpack 3 Suspending Sample.store (Resolve (to_hex Sample.id_ofs))
                    (boot Sample.fs)).2
               = (Ok (u8 <$> [0x61; 0x62; 0x63; 0x64; 0x65]),
                  (unpack 3 Suspending Sample.store
                     (Resolve (to_hex Sample.id_ofs)) (boot Sample.fs)).2))
       /\ (forall fuel' w2 held,
            object_cache Sample.store w2 !! (idx_fileIndex idx, idx_offset idx)
              = Some held ->
            unpackGitObject (S fuel') Sample.store (to_hex Sample.id_ofs) w2
              = (Ok held, w2)
            /\ unpackGitObjectSync (S fuel') Sample.store (to_hex Sample.id_ofs) w2
               = (Ok held, w2)))
  /\ object_cache Sample.store
       (unpack 3 Suspending Sample.store (Resolve (to_hex Sample.id_ofs))
          (boot Sample.fs)).2 !! (0, 17)
     = Some (u8 <$> [0x61; 0x62; 0x63; 0x64; 0x65]).
Proof.
  assert (h1 : unpack 3 Suspending Sample.store (Resolve (to_hex Sample.id_ofs))
                 (boot Sample.fs)
               = (Ok (u8 <$> [0x61; 0x62; 0x63; 0x64; 0x65]),
                  (unpack 3 Suspending Sample.store
                     (Resolve (to_hex Sample.id_ofs)) (boot Sample.fs)).2))
    by (vm_compute; reflexivity).
  assert (h2 : object_cache Sample.store
                 (unpack 3 Suspending Sample.store
                    (Resolve (to_hex Sample.id_ofs)) (boot Sample.fs)).2
                 !! (0, 17)
               = Some (u8 <$> [0x61; 0x62; 0x63; 0x64; 0x65]))
    by (vm_compute; reflexivity).
  exact (conj h1
           (conj
              (second_resolve_hits_cache 3 Suspending Sample.store
                 (to_hex Sample.id_ofs) (u8 <$> [0x61; 0x62; 0x63; 0x64; 0x65])
                 (boot Sample.fs)
                 (unpack 3 Suspending Sample.store
                    (Resolve (to_hex Sample.id_ofs)) (boot Sample.fs)).2 h1)
              h2)).
Defined.


End Witnesses.

(** ** Bytes and big-endian numbers *)

Lemma byte_val_u8 (z : Z) : byte_val (u8 z) = z mod 256.
Proof.
  unfold byte_val, u8.
  pose proof (Z.mod_pos_bound z 256 ltac:(lia)) as Hm.
  pose proof (Byte.to_of_N_option_map (Z.to_N (z mod 256))) as H.
  destruct (Byte.of_N (Z.to_N (z mod 256))) as [b|] eqn:E; cbn in H.
  - destruct (N.leb_spec (Z.to_N (z mod 256)) 255); [|discriminate].
    injection H as H. change (default x00 (Some b)) with b. rewrite H. lia.
  - destruct (N.leb_spec (Z.to_N (z mod 256)) 255); [discriminate | lia].
Qed.

Lemma be_value_from (bytes : Buffer) : forall acc,
  fold_left (fun acc b => acc * 256 + byte_val b) bytes acc
  = acc * 256 ^ Z.of_nat (length bytes) + be_value bytes.
Proof.
  unfold be_value. induction bytes as [|b bytes IH]; intros acc.
  - cbn. lia.
  - cbn [fold_left length]. rewrite IH, (IH (0 * 256 + byte_val b)).
    rewrite Nat2Z.inj_succ, Z.pow_succ_r by lia. lia.
Qed.

Lemma be_value_bounds (bytes : Buffer) :
  0 <= be_value bytes < 256 ^ Z.of_nat (length bytes).
Proof.
  induction bytes as [|b bytes IH].
  - cbn. lia.
  - unfold be_value. cbn [fold_left length]. rewrite be_value_from.
    rewrite Nat2Z.inj_succ, Z.pow_succ_r by lia.
    pose proof (byte_val_range b). nia.
Qed.

Lemma be32_length (z : Z) : length (Sample.be32 z) = 4%nat.
Proof. reflexivity. Qed.

Lemma be_value_be32 (z : Z) : 0 <= z < 2 ^ 32 -> be_value (Sample.be32 z) = z.
Proof.
  intros Hz. unfold Sample.be32, be_value.
  rewrite !fmap_cons, fmap_nil. cbn [fold_left].
  rewrite !byte_val_u8. change (2 ^ 32) with 4294967296 in Hz.
  Z.to_euclidean_division_equations. lia.
Qed.

(** A read of [width] bytes that lies within a buffer shorter than [2^32]
    bytes returns the number those bytes denote, in both semantics. *)
Lemma read_uint_be_within `{RT : Runtime} (width : Z) (pre bytes post : Buffer) :
  Z.of_nat (length bytes) = width ->
  Z.of_nat (length (pre ++ bytes ++ post)) < 2 ^ 32 ->
  read_uint_be width (pre ++ bytes ++ post) (Z.of_nat (length pre))
  = inr (be_value bytes).
Proof.
  intros Hw Hlen. unfold read_uint_be, checked_offset.
  rewrite !length_app in *.
  assert (Ho : (match buffer_semantics with
                | Coercing => Z.of_nat (length pre) mod 2 ^ 32
                | Strict => Z.of_nat (length pre)
                end) = Z.of_nat (length pre)).
  { destruct buffer_semantics; [|reflexivity]. apply Z.mod_small. lia. }
  rewrite Ho.
  destruct (Z.leb_spec 0 (Z.of_nat (length pre))); [|lia].
  destruct (Z.leb_spec (Z.of_nat (length pre) + width)
              (Z.of_nat (length pre + (length bytes + length post)))); [|lia].
  cbn [andb]. rewrite Nat2Z.id, drop_app_length.
  rewrite <- Hw, Nat2Z.id, take_app_length. reflexivity.
Qed.

Lemma read_uint_be_outside `{RT : Runtime} (width : Z) (buff : Buffer) (offset : Z) :
  0 <= offset < 2 ^ 32 -> Z.of_nat (length buff) < offset + width ->
  read_uint_be width buff offset = inl RangeError.
Proof.
  intros Ho Hlen. unfold read_uint_be, checked_offset.
  assert (E : (match buffer_semantics with
                | Coercing => offset mod 2 ^ 32
                | Strict => offset
                end) = offset).
  { destruct buffer_semantics; [|reflexivity]. apply Z.mod_small. lia. }
  rewrite E.
  destruct (Z.leb_spec (offset + width) (Z.of_nat (length buff))); [lia|].
  rewrite andb_false_r. reflexivity.
Qed.

Lemma read_uint_be_cases `{RT : Runtime} (width : Z) (buff : Buffer) (offset : Z) :
  read_uint_be width buff offset = inl RangeError
  \/ exists v, read_uint_be width buff offset = inr v
       /\ 0 <= v < 256 ^ Z.of_nat (Z.to_nat width).
Proof.
  unfold read_uint_be.
  destruct (checked_offset _ _ _) as [o|]; [right | left; reflexivity].
  eexists. split; [reflexivity|].
  pose proof (be_value_bounds (take (Z.to_nat width) (drop (Z.to_nat o) buff))) as Hb.
  assert (256 ^ Z.of_nat (length (take (Z.to_nat width) (drop (Z.to_nat o) buff)))
          <= 256 ^ Z.of_nat (Z.to_nat width)).
  { apply Z.pow_le_mono_r; [lia|]. rewrite length_take. lia. }
  lia.
Qed.

(** ** The index parser on short input *)

(** X1.  An index buffer shorter than the 256-entry fan-out table (1024
    bytes) makes [setupPackedIndexMap] throw a [RangeError], whatever its
    contents and under both [Buffer] semantics: the entry count is read at
    offset 1020 (version 1) or 1028 (version 2), outside the buffer. *)
Theorem short_index_is_range_error `{RT : Runtime} (buff : Buffer) (fileIndex : Z)
    (map : gmap string PackedIndex) :
  Z.of_nat (length buff) < 1024 ->
  setupPackedIndexMap buff fileIndex map = inl RangeError.
Proof.
  intros Hlen. unfold setupPackedIndexMap, readUInt32BE.
  destruct (read_uint_be_cases 4 buff 0) as [-> | (magic & -> & _)]; [reflexivity|].
  cbn [mbind result_bind].
  destruct (magic =? 4285812579).
  - destruct (read_uint_be_cases 4 buff 4) as [-> | (v & -> & _)]; [reflexivity|].
    cbn [mbind result_bind].
    rewrite read_uint_be_outside by (change (2 ^ 32) with 4294967296; lia).
    reflexivity.
  - cbn [mbind result_bind].
    rewrite read_uint_be_outside by (change (2 ^ 32) with 4294967296; lia).
    reflexivity.
Qed.

(** ** What the parser does to the map *)

Lemma idx_loop1_frame `{RT : Runtime} (buff : Buffer) (fileIndex : Z) (n : nat) :
  forall index (map m' : gmap string PackedIndex),
  idx_loop1 n buff fileIndex index map = inr m' ->
  (forall k, is_Some (map !! k) -> is_Some (m' !! k))
  /\ (forall k idx, m' !! k = Some idx ->
        map !! k = Some idx
        \/ (idx_fileIndex idx = fileIndex /\ 0 <= idx_offset idx < 2 ^ 32)).
Proof.
  induction n as [|n IH]; intros index map m' Hrun; cbn [idx_loop1] in Hrun.
  - injection Hrun as <-. split; [auto | intros; left; assumption].
  - unfold readUInt32BE in Hrun.
    destruct (read_uint_be_cases 4 buff index) as [E | (v & E & Hv)];
      rewrite E in Hrun; cbn [mbind result_bind] in Hrun; [discriminate|].
    cbv zeta in Hrun. apply IH in Hrun as [Hkeep Hnew]. split.
    + intros k Hk. apply Hkeep.
      destruct (decide (readHash buff (index + 4) = k)) as [Heq|Hne]; [subst k|].
      { rewrite lookup_insert_eq. eauto. }
      rewrite lookup_insert_ne by exact Hne. exact Hk.
    + intros k idx Hk. destruct (Hnew k idx Hk) as [Hin | Hr]; [|right; exact Hr].
      destruct (decide (readHash buff (index + 4) = k)) as [Heq|Hne]; [subst k|].
      { rewrite lookup_insert_eq in Hin. injection Hin as <-. right.
        cbn [idx_fileIndex idx_offset]. split; [reflexivity | exact Hv]. }
      rewrite lookup_insert_ne in Hin by exact Hne. left. exact Hin.
Qed.

Lemma idx_loop2_frame `{RT : Runtime} (buff : Buffer) (fileIndex : Z) (n : nat) :
  forall st st',
  idx_loop2 n buff fileIndex st = inr st' ->
  (forall k, is_Some (l2_map st !! k) -> is_Some (l2_map st' !! k))
  /\ (forall k idx, l2_map st' !! k = Some idx ->
        l2_map st !! k = Some idx
        \/ (idx_fileIndex idx = fileIndex
            /\ 0 <= idx_offset idx < 2 ^ 32 + 2 ^ 16)).
Proof.
  induction n as [|n IH]; intros st st' Hrun; cbn [idx_loop2] in Hrun.
  - injection Hrun as <-. split; [auto | intros; left; assumption].
  - destruct (idx_loop2_body buff fileIndex st) as [e|st1] eqn:Hbody;
      cbn [mbind result_bind] in Hrun; [discriminate|].
    apply IH in Hrun as [Hkeep Hnew].
    assert (Hst1 : exists o, 0 <= o < 2 ^ 32 + 2 ^ 16
              /\ l2_map st1 = <[readHash buff (l2_index st)
                                 := mkPackedIndex o fileIndex]> (l2_map st)).
    { unfold idx_loop2_body, readUInt32BE, readUInt16BE in Hbody.
      destruct (read_uint_be_cases 4 buff (l2_off32 st)) as [E | (v & E & Hv)];
        rewrite E in Hbody; cbn [mbind result_bind] in Hbody; [discriminate|].
      change (256 ^ Z.of_nat (Z.to_nat 4)) with (2 ^ 32) in Hv.
      destruct (Z.land v 2147483648 =? 0).
      - injection Hbody as <-. exists v. split; [lia | reflexivity].
      - destruct (read_uint_be_cases 4 buff (l2_off64 st * 4294967296))
          as [E1 | (v1 & E1 & Hv1)];
          rewrite E1 in Hbody; cbn [mbind result_bind] in Hbody; [discriminate|].
        destruct (read_uint_be_cases 2 buff (l2_off64 st + 4))
          as [E2 | (v2 & E2 & Hv2)];
          rewrite E2 in Hbody; cbn [mbind result_bind] in Hbody; [discriminate|].
        injection Hbody as <-. exists (v1 + v2).
        change (256 ^ Z.of_nat (Z.to_nat 4)) with (2 ^ 32) in Hv1.
        change (256 ^ Z.of_nat (Z.to_nat 2)) with (2 ^ 16) in Hv2.
        split; [lia | reflexivity]. }
    destruct Hst1 as (o & Ho & Hmap). rewrite Hmap in Hkeep, Hnew. split.
    + intros k Hk. apply Hkeep.
      destruct (decide (readHash buff (l2_index st) = k)) as [Heq|Hne]; [subst k|].
      { rewrite lookup_insert_eq. eauto. }
      rewrite lookup_insert_ne by exact Hne. exact Hk.
    + intros k idx Hk. destruct (Hnew k idx Hk) as [Hin | Hr]; [|right; exact Hr].
      destruct (decide (readHash buff (l2_index st) = k)) as [Heq|Hne]; [subst k|].
      { rewrite lookup_insert_eq in Hin. injection Hin as <-. right.
        cbn [idx_fileIndex idx_offset]. split; [reflexivity | exact Ho]. }
      rewrite lookup_insert_ne in Hin by exact Hne. left. exact Hin.
Qed.

Lemma setupPackedIndexMap_frame `{RT : Runtime} (buff : Buffer) (fileIndex : Z)
    (map m' : gmap string PackedIndex) :
  setupPackedIndexMap buff fileIndex map = inr m' ->
  (forall k, is_Some (map !! k) -> is_Some (m' !! k))
  /\ (forall k idx, m' !! k = Some idx ->
        map !! k = Some idx
        \/ (idx_fileIndex idx = fileIndex
            /\ 0 <= idx_offset idx < 2 ^ 32 + 2 ^ 16)).
Proof.
  unfold setupPackedIndexMap. intros Hrun.
  destruct (readUInt32BE buff 0) as [e|magic];
    cbn [mbind result_bind] in Hrun; [discriminate|].
  destruct (if magic =? 4285812579
            then v ← readUInt32BE buff 4; inr (v, 255 * 4 + 8)
            else inr (1, 255 * 4)) as [e|[version index]];
    cbn [mbind result_bind] in Hrun; [discriminate|].
  destruct (readUInt32BE buff index) as [e|n];
    cbn [mbind result_bind] in Hrun; [discriminate|].
  destruct (1 <? version).
  - destruct (idx_loop2 _ _ _ _) as [e|st'] eqn:Hloop;
      cbn [mbind result_bind] in Hrun; [discriminate|].
    injection Hrun as <-. apply idx_loop2_frame in Hloop. exact Hloop.
  - apply idx_loop1_frame in Hrun as [Hkeep Hnew]. split; [exact Hkeep|].
    intros k idx Hk. destruct (Hnew k idx Hk) as [?|[? ?]]; [left; assumption|].
    right. split; [assumption | lia].
Qed.

(** X2.  Whatever the buffer holds, a call of [setupPackedIndexMap] that
    returns has only added or overwritten entries: every hash that was in
    the map is still in it, and every entry of the resulting map is either
    the one the map had before or carries the [fileIndex] of this call and
    an offset in [0, 2^32 + 2^16). *)
Theorem index_parser_only_adds_entries `{RT : Runtime} (buff : Buffer)
    (fileIndex : Z) (map m' : gmap string PackedIndex) :
  setupPackedIndexMap buff fileIndex map = inr m' ->
  (forall k, is_Some (map !! k) -> is_Some (m' !! k))
  /\ (forall k idx, m' !! k = Some idx ->
        map !! k = Some idx
        \/ (idx_fileIndex idx = fileIndex
            /\ 0 <= idx_offset idx < 2 ^ 32 + 2 ^ 16)).
Proof. apply setupPackedIndexMap_frame. Qed.

(** ** Hexadecimal text *)

Lemma byte_val_inj (a b : byte) : byte_val a = byte_val b -> a = b.
Proof.
  unfold byte_val. intros H. apply N2Z.inj in H.
  pose proof (Byte.of_to_N a) as Ha. rewrite H, Byte.of_to_N in Ha.
  congruence.
Qed.

Lemma hex_digit_inj (n m : Z) :
  0 <= n < 16 -> 0 <= m < 16 -> hex_digit n = hex_digit m -> n = m.
Proof.
  intros Hn Hm H. unfold hex_digit in H.
  apply (f_equal nat_of_ascii) in H.
  revert H. destruct (Z.ltb_spec n 10), (Z.ltb_spec m 10);
    rewrite 2!nat_ascii_embedding by lia; lia.
Qed.

Lemma to_hex_inj (a : Buffer) : forall b, to_hex a = to_hex b -> a = b.
Proof.
  induction a as [|x a IH]; intros [|y b] H; cbn [to_hex] in H;
    try discriminate; [reflexivity|].
  injection H as Hhi Hlo Hrest.
  pose proof (byte_val_range x) as Hx. pose proof (byte_val_range y) as Hy.
  apply hex_digit_inj in Hhi;
    [| Z.to_euclidean_division_equations; lia ..].
  apply hex_digit_inj in Hlo;
    [| Z.to_euclidean_division_equations; lia ..].
  f_equal; [|apply IH; exact Hrest].
  apply byte_val_inj. Z.to_euclidean_division_equations. lia.
Qed.

Lemma to_hex_length (a : Buffer) :
  String.length (to_hex a) = (2 * length a)%nat.
Proof. induction a as [|x a IH]; cbn [to_hex String.length length]; lia. Qed.

(** ** The map built from a list of entries *)

Lemma stored_lookup_other (fileIndex : Z) (es : list IdxLayout.entry) :
  forall (map : gmap string PackedIndex) (k : string),
  (forall e, e ∈ es -> k <> to_hex e.1) ->
  IdxLayout.stored fileIndex es map !! k = map !! k.
Proof.
  unfold IdxLayout.stored.
  induction es as [|e es IH]; intros map k Hk; cbn [foldl]; [reflexivity|].
  rewrite IH by (intros e' He'; apply Hk; right; exact He').
  apply lookup_insert_ne. intros Heq. apply (Hk e); [left | symmetry; exact Heq].
Qed.

Lemma stored_lookup_entry (fileIndex : Z) (es : list IdxLayout.entry) :
  forall (map : gmap string PackedIndex) (h : Buffer) (o : Z),
  NoDup es.*1 -> (h, o) ∈ es ->
  IdxLayout.stored fileIndex es map !! to_hex h
  = Some (mkPackedIndex o fileIndex).
Proof.
  induction es as [|e es IH]; intros map h o Hnd Hin.
  - inversion Hin.
  - rewrite fmap_cons in Hnd. apply NoDup_cons in Hnd as [Hfresh Hnd].
    apply elem_of_cons in Hin as [<- | Hin].
    + change (IdxLayout.stored fileIndex ((h, o) :: es) map)
        with (IdxLayout.stored fileIndex es
                (<[to_hex h := mkPackedIndex o fileIndex]> map)).
      rewrite stored_lookup_other; [apply lookup_insert_eq|].
      intros e' He' Heq. apply to_hex_inj in Heq. apply Hfresh.
      cbn [fst]. rewrite Heq. apply list_elem_of_fmap. exists e'. split; [reflexivity | exact He'].
    + change (IdxLayout.stored fileIndex (e :: es) map)
        with (IdxLayout.stored fileIndex es
                (<[to_hex e.1 := mkPackedIndex e.2 fileIndex]> map)).
      apply IH; assumption.
Qed.

(** ** The parser on well-formed index files *)

Lemma land_high_bit_zero (o : Z) : 0 <= o < 2 ^ 31 -> Z.land o 0x80000000 = 0.
Proof.
  intros Ho. apply Z.bits_inj'. intros n Hn.
  rewrite Z.land_spec, Z.bits_0.
  change 2147483648 with (2 ^ 31). rewrite Z.pow2_bits_eqb by lia.
  destruct (Z.eqb_spec 31 n) as [<-|]; [|apply andb_false_r].
  rewrite andb_true_r.
  destruct (Z.eq_dec o 0) as [->|]; [apply Z.bits_0|].
  apply Z.bits_above_log2; [lia|]. apply Z.log2_lt_pow2; lia.
Qed.

Lemma idx_loop1_layout `{RT : Runtime} (fileIndex : Z) (es : list IdxLayout.entry) :
  forall (buff pre post : Buffer) (map : gmap string PackedIndex),
  buff = pre ++ mjoin ((fun e : IdxLayout.entry => Sample.be32 e.2 ++ e.1) <$> es) ++ post ->
  Z.of_nat (length buff) < 2 ^ 32 ->
  IdxLayout.entries_ok (2 ^ 32) es ->
  idx_loop1 (length es) buff fileIndex (Z.of_nat (length pre)) map
  = inr (IdxLayout.stored fileIndex es map).
Proof.
  induction es as [|[h o] es IH]; intros buff pre post map Hbuff Hlen Hok;
    [reflexivity|].
  apply Forall_cons in Hok as [[Hh Ho] Hok]. cbn [fst snd] in Hh, Ho.
  rewrite fmap_cons in Hbuff. cbn [mjoin list_join fst snd] in Hbuff.
  cbn [length idx_loop1]. unfold readUInt32BE.
  assert (Hread : read_uint_be 4 buff (Z.of_nat (length pre)) = inr o).
  { rewrite Hbuff, <- !app_assoc.
    rewrite read_uint_be_within.
    - rewrite be_value_be32 by exact Ho. reflexivity.
    - reflexivity.
    - rewrite Hbuff, <- !app_assoc in Hlen. exact Hlen. }
  rewrite Hread. cbn [mbind result_bind]. cbv zeta.
  assert (Hhash : readHash buff (Z.of_nat (length pre) + 4) = to_hex h).
  { assert (Hsz : (length pre + 4 + 20 <= length buff)%nat).
    { rewrite Hbuff, !length_app, be32_length, Hh. lia. }
    rewrite readHash_within by lia.
    replace (Z.to_nat (Z.of_nat (length pre) + 4)) with (length (pre ++ Sample.be32 o))
      by (rewrite length_app, be32_length; lia).
    rewrite Hbuff.
    replace (pre ++ ((Sample.be32 o ++ h) ++ mjoin ((fun e : IdxLayout.entry => Sample.be32 e.2 ++ e.1) <$> es)) ++ post)
      with ((pre ++ Sample.be32 o) ++ h ++ (mjoin ((fun e : IdxLayout.entry => Sample.be32 e.2 ++ e.1) <$> es) ++ post))
      by (rewrite <- !app_assoc; reflexivity).
    rewrite drop_app_length. rewrite <- Hh, take_app_length. reflexivity. }
  rewrite Hhash.
  replace (Z.of_nat (length pre) + 4 + 20)
    with (Z.of_nat (length (pre ++ Sample.be32 o ++ h)))
    by (rewrite !length_app, be32_length, Hh; lia).
  apply (IH buff (pre ++ Sample.be32 o ++ h) post); [|exact Hlen|exact Hok].
  rewrite Hbuff, <- !app_assoc. reflexivity.
Qed.

Lemma idx_loop2_layout `{RT : Runtime} (fileIndex : Z) (es : list IdxLayout.entry) :
  forall (buff A B C : Buffer) (off64 : Z) (map : gmap string PackedIndex),
  buff = A ++ mjoin (fst <$> es) ++ B
         ++ mjoin ((fun e : IdxLayout.entry => Sample.be32 e.2) <$> es) ++ C ->
  Z.of_nat (length buff) < 2 ^ 32 ->
  IdxLayout.entries_ok (2 ^ 31) es ->
  exists st,
    idx_loop2 (length es) buff fileIndex
      (mkIdxLoop2 (Z.of_nat (length A))
         (Z.of_nat (length A) + 20 * Z.of_nat (length es) + Z.of_nat (length B))
         off64 map) = inr st
    /\ l2_map st = IdxLayout.stored fileIndex es map.
Proof.
  induction es as [|[h o] es IH]; intros buff A B C off64 map Hbuff Hlen Hok.
  - eexists. split; reflexivity.
  - apply Forall_cons in Hok as [[Hh Ho] Hok]. cbn [fst snd] in Hh, Ho.
    rewrite !fmap_cons in Hbuff. cbn [mjoin list_join fst snd] in Hbuff.
    assert (Hjoin : length (mjoin (fst <$> es)) = (20 * length es)%nat).
    { clear -Hok. induction Hok as [|e es [He _] _ IH]; [reflexivity|].
      rewrite fmap_cons.
      change (mjoin (e.1 :: es.*1)) with (e.1 ++ mjoin es.*1).
      rewrite length_app, IH, He. cbn [length]. lia. }
    cbn [length idx_loop2]. unfold idx_loop2_body at 1.
    cbn [l2_index l2_off32 l2_off64 l2_map]. unfold readUInt32BE.
    assert (Hread : read_uint_be 4 buff
              (Z.of_nat (length A) + 20 * Z.of_nat (S (length es)) + Z.of_nat (length B))
              = inr o).
    { replace (Z.of_nat (length A) + 20 * Z.of_nat (S (length es)) + Z.of_nat (length B))
        with (Z.of_nat (length (A ++ (h ++ mjoin (fst <$> es)) ++ B)))
        by (rewrite !length_app, Hjoin, Hh; lia).
      assert (Hb : buff = (A ++ (h ++ mjoin (fst <$> es)) ++ B) ++ Sample.be32 o
                ++ (mjoin ((fun e : IdxLayout.entry => Sample.be32 e.2) <$> es) ++ C)).
      { rewrite Hbuff, <- !app_assoc. reflexivity. }
      rewrite Hb at 1. rewrite read_uint_be_within.
      - rewrite be_value_be32 by lia. reflexivity.
      - reflexivity.
      - rewrite <- Hb. exact Hlen. }
    rewrite Hread. cbn [mbind result_bind].
    rewrite land_high_bit_zero by exact Ho. cbn [Z.eqb].
    assert (Hhash : readHash buff (Z.of_nat (length A)) = to_hex h).
    { assert (Hsz : (length A + 20 <= length buff)%nat).
      { rewrite Hbuff, !length_app, Hh. lia. }
      rewrite readHash_within by lia. rewrite Nat2Z.id.
      rewrite Hbuff, <- !app_assoc, drop_app_length, <- Hh, take_app_length.
      reflexivity. }
    rewrite Hhash.
    destruct (IH buff (A ++ h) (B ++ Sample.be32 o) C off64
                (<[to_hex h := mkPackedIndex o fileIndex]> map))
      as (st & Hst & Hmap); [|exact Hlen|exact Hok|].
    { rewrite Hbuff, <- !app_assoc. reflexivity. }
    exists st. split; [|exact Hmap].
    rewrite <- Hst. cbn [mbind result_bind]. f_equal. f_equal.
    + rewrite length_app, Hh. lia.
    + rewrite !length_app, be32_length, Hh. lia.
Qed.

Lemma length_join_fmap_ge {A B} (f : A -> list B) (l : list A) :
  (forall a, 1 <= length (f a))%nat -> (length l <= length (mjoin (f <$> l)))%nat.
Proof.
  intros Hf. induction l as [|a l IH]; [reflexivity|].
  rewrite fmap_cons. change (mjoin (f a :: (f <$> l))) with (f a ++ mjoin (f <$> l)).
  rewrite length_app. cbn [length]. specialize (Hf a). lia.
Qed.

Lemma v1_lengths (fanout : Buffer) (es : list IdxLayout.entry) (trailer : Buffer) :
  (length es <= length (IdxLayout.v1 fanout es trailer))%nat.
Proof.
  unfold IdxLayout.v1. rewrite !length_app.
  pose proof (length_join_fmap_ge (fun e : IdxLayout.entry => Sample.be32 e.2 ++ e.1) es) as H.
  specialize (H ltac:(intros a; cbv beta; rewrite length_app, be32_length; lia)). lia.
Qed.

(** X3.  A version-1 index file (no magic number; 255 fan-out entries, the
    object count, then per object a 4-byte offset and the 20-byte id) of
    less than 4 GiB with distinct ids is parsed into the map that sends the
    hexadecimal text of each id to its offset and the given file index, and
    leaves all other keys of the map as they were. *)
Theorem version1_index_is_parsed `{RT : Runtime} (fanout : Buffer)
    (es : list IdxLayout.entry) (trailer : Buffer) (fileIndex : Z)
    (map : gmap string PackedIndex) :
  length fanout = 1020%nat ->
  be_value (take 4 fanout) <> 0xff744f63 ->
  IdxLayout.entries_ok (2 ^ 32) es ->
  NoDup es.*1 ->
  Z.of_nat (length (IdxLayout.v1 fanout es trailer)) < 2 ^ 32 ->
  setupPackedIndexMap (IdxLayout.v1 fanout es trailer) fileIndex map
    = inr (IdxLayout.stored fileIndex es map)
  /\ (forall h o, (h, o) ∈ es ->
        IdxLayout.stored fileIndex es map !! to_hex h
        = Some (mkPackedIndex o fileIndex))
  /\ (forall k, (forall e, e ∈ es -> k <> to_hex e.1) ->
        IdxLayout.stored fileIndex es map !! k = map !! k).
Proof.
  intros Hfan Hmagic Hok Hnd Hlen.
  split; [|split; [intros h o; apply stored_lookup_entry; exact Hnd
                  | intros k; apply stored_lookup_other]].
  pose proof (v1_lengths fanout es trailer) as Hn.
  set (buff := IdxLayout.v1 fanout es trailer) in *.
  set (body := mjoin ((fun e : IdxLayout.entry => Sample.be32 e.2 ++ e.1) <$> es)).
  assert (Hbuff : buff = fanout ++ Sample.be32 (Z.of_nat (length es)) ++ body ++ trailer)
    by reflexivity.
  unfold setupPackedIndexMap, readUInt32BE.
  assert (Hread0 : read_uint_be 4 buff 0 = inr (be_value (take 4 fanout))).
  { pose proof (read_uint_be_within 4 [] (take 4 fanout)
                  (drop 4 fanout ++ Sample.be32 (Z.of_nat (length es)) ++ body ++ trailer)) as H.
    rewrite app_nil_l, app_assoc, take_drop, <- Hbuff in H. apply H; [|exact Hlen].
    rewrite length_take. lia. }
  rewrite Hread0. cbn [mbind result_bind].
  destruct (Z.eqb_spec (be_value (take 4 fanout)) 4285812579) as [E|_]; [contradiction|].
  cbn [mbind result_bind].
  assert (Hreadn : read_uint_be 4 buff (255 * 4) = inr (Z.of_nat (length es))).
  { replace (255 * 4) with (Z.of_nat (length fanout)) by lia.
    rewrite Hbuff at 1. rewrite read_uint_be_within.
    - rewrite be_value_be32 by lia. reflexivity.
    - reflexivity.
    - rewrite <- Hbuff. exact Hlen. }
  rewrite Hreadn. cbn [mbind result_bind]. cbn [Z.ltb Z.compare Pos.compare Pos.compare_cont].
  rewrite Nat2Z.id.
  replace (255 * 4 + 4) with (Z.of_nat (length (fanout ++ Sample.be32 (Z.of_nat (length es)))))
    by (rewrite length_app, be32_length; lia).
  apply (idx_loop1_layout fileIndex es buff _ trailer); [|exact Hlen|exact Hok].
  rewrite Hbuff, <- !app_assoc. reflexivity.
Qed.

Lemma v2_lengths (version : Z) (fanout : Buffer) (es : list IdxLayout.entry)
    (crcs rest : Buffer) :
  (length es <= length (IdxLayout.v2 version fanout es crcs rest))%nat.
Proof.
  unfold IdxLayout.v2. rewrite !length_app.
  pose proof (length_join_fmap_ge (fun e : IdxLayout.entry => Sample.be32 e.2) es) as H.
  specialize (H ltac:(intros a; cbv beta; rewrite be32_length; lia)). lia.
Qed.

(** X4.  A version-2 index file (magic number, a version above 1, 255
    fan-out entries, the object count, the table of ids, the table of
    checksums, the table of 32-bit offsets) of less than 4 GiB whose ids are
    distinct and whose offsets are all below [2^31] is parsed into the map
    that sends the hexadecimal text of each id to its offset and the given
    file index, and leaves all other keys of the map as they were. *)
Theorem version2_index_is_parsed `{RT : Runtime} (version : Z)
    (fanout : Buffer) (es : list IdxLayout.entry) (crcs rest : Buffer)
    (fileIndex : Z) (map : gmap string PackedIndex) :
  1 < version < 2 ^ 32 ->
  length fanout = 1020%nat ->
  length crcs = (4 * length es)%nat ->
  IdxLayout.entries_ok (2 ^ 31) es ->
  NoDup es.*1 ->
  Z.of_nat (length (IdxLayout.v2 version fanout es crcs rest)) < 2 ^ 32 ->
  setupPackedIndexMap (IdxLayout.v2 version fanout es crcs rest) fileIndex map
    = inr (IdxLayout.stored fileIndex es map)
  /\ (forall h o, (h, o) ∈ es ->
        IdxLayout.stored fileIndex es map !! to_hex h
        = Some (mkPackedIndex o fileIndex))
  /\ (forall k, (forall e, e ∈ es -> k <> to_hex e.1) ->
        IdxLayout.stored fileIndex es map !! k = map !! k).
Proof.
  intros Hver Hfan Hcrc Hok Hnd Hlen.
  split; [|split; [intros h o; apply stored_lookup_entry; exact Hnd
                  | intros k; apply stored_lookup_other]].
  pose proof (v2_lengths version fanout es crcs rest) as Hn.
  set (buff := IdxLayout.v2 version fanout es crcs rest) in *.
  set (ids := mjoin (fst <$> es)).
  set (offs := mjoin ((fun e : IdxLayout.entry => Sample.be32 e.2) <$> es)).
  set (n := Z.of_nat (length es)) in *.
  assert (Hbuff : buff = Sample.be32 0xff744f63 ++ Sample.be32 version ++ fanout
                          ++ Sample.be32 n ++ ids ++ crcs ++ offs ++ rest)
    by reflexivity.
  unfold setupPackedIndexMap, readUInt32BE.
  assert (Hread0 : read_uint_be 4 buff 0 = inr 0xff744f63).
  { pose proof (read_uint_be_within 4 [] (Sample.be32 0xff744f63)
                  (Sample.be32 version ++ fanout ++ Sample.be32 n ++ ids ++ crcs ++ offs ++ rest)) as H.
    rewrite app_nil_l, <- Hbuff in H. specialize (H eq_refl Hlen).
    change (read_uint_be 4 buff 0 = inr (be_value (Sample.be32 4285812579))) in H.
    rewrite H, be_value_be32 by (change (2 ^ 32) with 4294967296; lia). reflexivity. }
  rewrite Hread0. cbn [mbind result_bind].
  rewrite Z.eqb_refl.
  assert (Hread4 : read_uint_be 4 buff 4 = inr version).
  { change 4 with (Z.of_nat (length (Sample.be32 0xff744f63))) at 2.
    rewrite Hbuff at 1. rewrite read_uint_be_within.
    - rewrite be_value_be32 by lia. reflexivity.
    - reflexivity.
    - rewrite <- Hbuff. exact Hlen. }
  rewrite Hread4. cbn [mbind result_bind].
  assert (Hreadn : read_uint_be 4 buff (255 * 4 + 8) = inr n).
  { replace (255 * 4 + 8)
      with (Z.of_nat (length (Sample.be32 0xff744f63 ++ Sample.be32 version ++ fanout)))
      by (rewrite !length_app, !be32_length; lia).
    assert (Hb : buff = (Sample.be32 0xff744f63 ++ Sample.be32 version ++ fanout)
                  ++ Sample.be32 n ++ (ids ++ crcs ++ offs ++ rest)).
    { rewrite Hbuff, <- !app_assoc. reflexivity. }
    rewrite Hb at 1. rewrite read_uint_be_within.
    - rewrite be_value_be32 by lia. reflexivity.
    - reflexivity.
    - rewrite <- Hb. exact Hlen. }
  rewrite Hreadn. cbn [mbind result_bind].
  destruct (Z.ltb_spec 1 version) as [_|]; [|lia].
  unfold n at 1. rewrite Nat2Z.id.
  destruct (idx_loop2_layout fileIndex es buff
              (Sample.be32 0xff744f63 ++ Sample.be32 version ++ fanout ++ Sample.be32 n)
              crcs rest (255 * 4 + 8 + 4 + n * 24 + n * 4) map)
    as (st & Hst & Hmap); [|exact Hlen|exact Hok|].
  { rewrite Hbuff, <- !app_assoc. reflexivity. }
  replace (Z.of_nat (length (Sample.be32 0xff744f63 ++ Sample.be32 version ++ fanout ++ Sample.be32 n)))
    with (255 * 4 + 8 + 4) in Hst
    by (rewrite !length_app, !be32_length; lia).
  replace (255 * 4 + 8 + 4 + 20 * Z.of_nat (length es) + Z.of_nat (length crcs))
    with (255 * 4 + 8 + 4 + n * 24) in Hst by (unfold n; lia).
  rewrite Hst. cbn [mbind result_bind]. rewrite Hmap. reflexivity.
Qed.

(** ** The header decoder: ranges and the inverse of the format *)

Lemma continuation_bytes_length (rest : list Z) : forall prev,
  (length (HeaderSpec.continuation_bytes prev rest) <= S (length rest))%nat.
Proof.
  induction rest as [|b rest IH]; intros prev; cbn [HeaderSpec.continuation_bytes];
    destruct (HeaderSpec.continues prev); cbn [length]; try lia.
  specialize (IH b). lia.
Qed.

(** X5.  On a buffer of at most 145 bytes, the empty one and the 32-byte
    lookahead buffer of the resolver included, the header decoder returns
    with a kind in [0, 7], a size that is not negative and a payload offset
    between 1 and one more than the length of the buffer: it reads at most
    one byte past the end.  (Up to that length the multiplier and every
    product stay below [2^1024], the range of the numbers of the code.) *)
Theorem header_fields_in_range (buff : Buffer) :
  (length buff <= 145)%nat ->
  exists po,
    new_PackedObject buff = Some po
    /\ 0 <= po_type po <= 7
    /\ 0 <= po_size po
    /\ 1 <= po_offset po <= Z.of_nat (length buff) + 1.
Proof.
  intros _. eexists. split; [apply new_PackedObject_spec|].
  cbn [po_type po_size po_offset]. split; [|split].
  - unfold HeaderSpec.type_code.
    pose proof (Z.mod_pos_bound (HeaderSpec.first_byte buff / 16) 8 ltac:(lia)). lia.
  - apply accumulate_nonneg, Z.mod_pos_bound. lia.
  - unfold HeaderSpec.consumed, HeaderSpec.conts. split; [lia|].
    destruct buff as [|b0 rest].
    + reflexivity.
    + pose proof (continuation_bytes_length (byte_val <$> tail (b0 :: rest))
                    (HeaderSpec.first_byte (b0 :: rest))) as H.
      cbn [tail] in *. rewrite length_fmap in H. cbn [length]. lia.
Qed.

Lemma continues_spec (b : Z) :
  0 <= b < 256 -> HeaderSpec.continues b = (128 <=? b).
Proof.
  intros Hb. unfold HeaderSpec.continues.
  rewrite Z.testbit_odd, Z.shiftr_div_pow2 by lia. change (2 ^ 7) with 128.
  destruct (Z.leb_spec 128 b);
    [replace (b / 128) with 1 | replace (b / 128) with 0];
    try reflexivity; Z.to_euclidean_division_equations; lia.
Qed.

Lemma size_tail_range (n : nat) : forall s,
  0 <= s -> Forall (fun b => 0 <= b < 256) (HeaderLayout.size_tail n s).
Proof.
  induction n as [|n IH]; intros s Hs; cbn [HeaderLayout.size_tail]; [constructor|].
  destruct (Z.ltb_spec s 128).
  - repeat constructor; lia.
  - constructor.
    + pose proof (Z.mod_pos_bound s 128 ltac:(lia)). lia.
    + apply IH. apply Z.div_pos; lia.
Qed.

Lemma size_tail_length (n : nat) (s : Z) :
  (length (HeaderLayout.size_tail n s) <= n)%nat.
Proof.
  revert s. induction n as [|n IH]; intros s; cbn [HeaderLayout.size_tail]; [reflexivity|].
  destruct (s <? 128); cbn [length]; [lia|]. specialize (IH (s / 128)). lia.
Qed.

Lemma byte_val_u8_list (l : list Z) :
  Forall (fun b => 0 <= b < 256) l -> byte_val <$> (u8 <$> l) = l.
Proof.
  induction 1 as [|b l Hb _ IH]; [reflexivity|].
  rewrite !fmap_cons, IH, byte_val_u8, Z.mod_small by lia. reflexivity.
Qed.

Lemma continuation_bytes_size_tail (n : nat) : forall s prev rest,
  HeaderSpec.continues prev = true -> 0 <= s < 128 ^ Z.of_nat (S n) ->
  HeaderSpec.continuation_bytes prev (HeaderLayout.size_tail (S n) s ++ rest)
  = HeaderLayout.size_tail (S n) s.
Proof.
  induction n as [|n IH]; intros s prev rest Hprev Hs.
  - change (128 ^ Z.of_nat 1) with 128 in Hs.
    cbn [HeaderLayout.size_tail]. destruct (Z.ltb_spec s 128); [|lia].
    cbn [app HeaderSpec.continuation_bytes]. rewrite Hprev. f_equal.
    destruct rest; cbn [HeaderSpec.continuation_bytes];
      rewrite continues_spec by lia;
      destruct (Z.leb_spec 128 s); (reflexivity || lia).
  - remember (S n) as m eqn:Hm.
    cbn [HeaderLayout.size_tail]. destruct (Z.ltb_spec s 128).
    + cbn [app HeaderSpec.continuation_bytes]. rewrite Hprev. f_equal.
      destruct rest; cbn [HeaderSpec.continuation_bytes];
        rewrite continues_spec by lia;
        destruct (Z.leb_spec 128 s); (reflexivity || lia).
    + cbn [app HeaderSpec.continuation_bytes]. rewrite Hprev. f_equal.
      pose proof (Z.mod_pos_bound s 128 ltac:(lia)) as Hmod.
      subst m. apply IH.
      * rewrite continues_spec by lia. destruct (Z.leb_spec 128 (128 + s mod 128)); [reflexivity | lia].
      * split; [apply Z.div_pos; lia|].
        apply Z.div_lt_upper_bound; [lia|].
        rewrite (Nat2Z.inj_succ (S n)), Z.pow_succ_r in Hs by lia. lia.
Qed.

Lemma exact_sum_size_tail (n : nat) : forall s i,
  0 <= s < 128 ^ Z.of_nat n ->
  HeaderSpec.exact_sum i (HeaderLayout.size_tail n s)
  = s * HeaderSpec.multiplier i.
Proof.
  induction n as [|n IH]; intros s i Hs.
  - change (128 ^ Z.of_nat 0) with 1 in Hs. assert (s = 0) as -> by lia. reflexivity.
  - cbn [HeaderLayout.size_tail]. destruct (Z.ltb_spec s 128).
    + cbn [HeaderSpec.exact_sum]. rewrite Z.mod_small by lia. lia.
    + cbn [HeaderSpec.exact_sum]. rewrite IH.
      * rewrite <- multiplier_succ.
        replace ((128 + s mod 128) mod 128) with (s mod 128)
          by (Z.to_euclidean_division_equations; lia).
        Z.to_euclidean_division_equations. nia.
      * split; [apply Z.div_pos; lia|].
        apply Z.div_lt_upper_bound; [lia|].
        rewrite Nat2Z.inj_succ, Z.pow_succ_r in Hs by lia. lia.
Qed.

(** X6.  The decoder inverts git's header format: for a kind in [0, 7] and
    a size below [2^53], decoding the encoded header, whatever bytes follow
    it, gives back the kind and the size, and the payload offset is the
    length of the encoded header. *)
Theorem header_decoder_inverts_format (type size : Z) (rest : Buffer) :
  0 <= type <= 7 -> 0 <= size < 2 ^ 53 ->
  new_PackedObject (HeaderLayout.encode type size ++ rest)
  = Some {| po_type := type;
            po_size := size;
            po_offset := Z.of_nat (length (HeaderLayout.encode type size)) |}.
Proof.
  intros Htype Hsize. rewrite new_PackedObject_spec.
  pose proof (Z.mod_pos_bound size 16 ltac:(lia)) as Hlo.
  assert (Hs : 0 <= size / 16 < 128 ^ Z.of_nat 7).
  { split; [apply Z.div_pos; lia|]. apply Z.div_lt_upper_bound; [lia|].
    change (16 * 128 ^ Z.of_nat 7) with (2 ^ 53). lia. }
  unfold HeaderLayout.encode. destruct (Z.eqb_spec (size / 16) 0) as [Hz|Hnz].
  - assert (Hfirst : HeaderSpec.first_byte ([u8 (type * 16 + size mod 16)] ++ rest)
                     = type * 16 + size mod 16).
    { change (HeaderSpec.first_byte ([u8 (type * 16 + size mod 16)] ++ rest))
        with (byte_val (u8 (type * 16 + size mod 16))).
      rewrite byte_val_u8. apply Z.mod_small. lia. }
    assert (Hconts : HeaderSpec.conts ([u8 (type * 16 + size mod 16)] ++ rest) = []).
    { unfold HeaderSpec.conts. rewrite Hfirst.
      destruct (byte_val <$> tail ([u8 (type * 16 + size mod 16)] ++ rest));
        cbn [HeaderSpec.continuation_bytes];
        rewrite continues_spec by lia;
        destruct (Z.leb_spec 128 (type * 16 + size mod 16)); (reflexivity || lia). }
    unfold HeaderSpec.type_code, HeaderSpec.size, HeaderSpec.consumed.
    rewrite Hconts, Hfirst. cbn [HeaderSpec.accumulate length].
    f_equal. f_equal; Z.to_euclidean_division_equations; lia.
  - set (tl := HeaderLayout.size_tail 7 (size / 16)).
    assert (Hfirst : HeaderSpec.first_byte
                       ((u8 <$> (128 + (type * 16 + size mod 16)) :: tl) ++ rest)
                     = 128 + (type * 16 + size mod 16)).
    { rewrite fmap_cons.
      change (HeaderSpec.first_byte
                ((u8 (128 + (type * 16 + size mod 16)) :: (u8 <$> tl)) ++ rest))
        with (byte_val (u8 (128 + (type * 16 + size mod 16)))).
      rewrite byte_val_u8. apply Z.mod_small. lia. }
    assert (Hconts : HeaderSpec.conts
                       ((u8 <$> (128 + (type * 16 + size mod 16)) :: tl) ++ rest) = tl).
    { unfold HeaderSpec.conts. rewrite Hfirst. rewrite fmap_cons.
      cbn [app tail]. rewrite fmap_app, byte_val_u8_list
        by (apply size_tail_range; lia).
      apply continuation_bytes_size_tail; [|exact Hs].
      rewrite continues_spec by lia.
      destruct (Z.leb_spec 128 (128 + (type * 16 + size mod 16))); [reflexivity | lia]. }
    pose proof (size_tail_length 7 (size / 16)) as Hlen. fold tl in Hlen.
    destruct (header_size_exact
                ((u8 <$> (128 + (type * 16 + size mod 16)) :: tl) ++ rest))
      as [Hexact _]; [rewrite Hconts; exact Hlen|].
    unfold HeaderSpec.type_code, HeaderSpec.consumed.
    rewrite Hexact, Hconts, Hfirst. unfold tl at 1.
    rewrite exact_sum_size_tail by exact Hs.
    change (HeaderSpec.multiplier 0) with 16.
    rewrite length_fmap. cbn [length].
    f_equal. f_equal; Z.to_euclidean_division_equations; lia.
Qed.

(** ** Object ids as text *)

Lemma readHash_from (buff : Buffer) (offset : Z) :
  0 <= offset ->
  readHash buff offset = to_hex (take 20 (drop (Z.to_nat offset) buff)).
Proof.
  intros Hlo. unfold readHash, Buffer_slice, slice_index.
  destruct (Z.ltb_spec offset 0); [lia|].
  destruct (Z.ltb_spec (offset + 20) 0); [lia|].
  f_equal.
  destruct (Z.le_gt_cases (offset + 20) (Z.of_nat (length buff))).
  - rewrite !Z.min_l by lia. f_equal. lia.
  - destruct (Z.le_gt_cases offset (Z.of_nat (length buff))).
    + rewrite Z.min_r, Z.min_l by lia.
      rewrite !take_ge; [reflexivity | |]; rewrite length_drop; lia.
    + rewrite !Z.min_r by lia.
      rewrite Z.sub_diag. cbn [Z.to_nat take].
      rewrite (drop_ge buff (Z.to_nat offset)) by lia.
      destruct (drop _ buff); reflexivity.
Qed.

Lemma of_hex_byte (b : byte) (rest : string) :
  of_hex (String (hex_digit (byte_val b / 16))
            (String (hex_digit (byte_val b mod 16)) rest))
  = match of_hex rest with
    | Some bytes => Some (b :: bytes)
    | None => None
    end.
Proof. destruct b; reflexivity. Qed.

Lemma of_hex_to_hex (buff : Buffer) : of_hex (to_hex buff) = Some buff.
Proof.
  induction buff as [|b buff IH]; [reflexivity|].
  cbn [to_hex]. rewrite of_hex_byte, IH. reflexivity.
Qed.

(** X7.  [readHash] at an offset that is not negative never throws: it
    renders the up to 20 bytes the buffer holds from that offset on as
    lower-case hexadecimal text, two digits per byte with the high digit
    first, so that reading the digits back gives those bytes (a short or
    empty text when the buffer ends early); and two reads give the same text
    exactly when they read the same bytes. *)
Theorem object_id_text_is_faithful (buff1 buff2 : Buffer) (o1 o2 : Z) :
  0 <= o1 -> 0 <= o2 ->
  of_hex (readHash buff1 o1) = Some (take 20 (drop (Z.to_nat o1) buff1))
  /\ String.length (readHash buff1 o1)
     = (2 * Nat.min 20 (length buff1 - Z.to_nat o1))%nat
  /\ (readHash buff1 o1 = readHash buff2 o2
      <-> take 20 (drop (Z.to_nat o1) buff1)
          = take 20 (drop (Z.to_nat o2) buff2)).
Proof.
  intros H1 H2. rewrite !readHash_from by assumption. split; [|split].
  - apply of_hex_to_hex.
  - rewrite to_hex_length, length_take, length_drop. reflexivity.
  - split; [apply to_hex_inj | intros ->; reflexivity].
Qed.

(** ** Resolving an object that is stored whole *)

Lemma fs_close_run mode fd w x :
  w_fds w !! fd = Some x ->
  fs_close mode fd w =
  (Ok tt,
   set_fds (delete fd (w_fds w)) (w_next_fd w)
     (set_trace (w_trace w ++ [IoClose mode fd]) w)).
Proof.
  intros Hfd. unfold fs_close, log, modify.
  rewrite bind_run. rewrite bind_run. cbn [get_world set_trace w_fds w_fs].
  rewrite Hfd. reflexivity.
Qed.

Lemma fs_open_missing mode path w :
  fs_files (w_fs w) !! path = None ->
  fs_open mode path w =
  (Throw ENOENT, set_trace (w_trace w ++ [IoOpen mode path]) w).
Proof.
  intros Hfile. unfold fs_open, log, modify.
  rewrite bind_run. rewrite bind_run. cbn [get_world set_trace w_fs].
  rewrite Hfile. reflexivity.
Qed.

Section ResolutionRuns.
Context `{RT : Runtime}.

(** X8.  An object that is in the index but whose pack file cannot be
    opened makes the resolution throw the error of [open] ([ENOENT]); the
    only file-system call is that [open]: nothing is read, closed or
    cached. *)
Theorem missing_pack_file_fails_at_open (fuel : nat) (mode : Mode)
    (this : Packs) (hash : string) (idx : PackedIndex) (w : World) :
  packedIndexMap this !! hash = Some idx ->
  object_cache this w !! cache_key idx = None ->
  fs_files (w_fs w) !! _getPackFilePath this idx = None ->
  unpack (S fuel) mode this (Resolve hash) w
  = (Throw ENOENT,
     set_trace (w_trace w ++ [IoOpen mode (_getPackFilePath this idx)]) w).
Proof.
  intros Hidx Hmiss Hfile. cbn [unpack]. unfold unpackGitObject_body.
  rewrite (bind_ok _ _ w w idx) by (apply index_get_run, Hidx).
  rewrite (bind_ok _ _ w w None) by (rewrite cache_get_run, Hmiss; reflexivity).
  rewrite bind_run, fs_open_missing by exact Hfile. reflexivity.
Qed.

Lemma cache_set_run (this : Packs) (idx : PackedIndex) (buff : Buffer) (w : World) :
  _setPackedObjectBuffrToCache this idx buff w
  = (Ok tt,
     set_objects
       (<[packedObjectCache this := <[cache_key idx := buff]> (object_cache this w)]>
          (w_objects w))
       (w_next_packs w) w).
Proof. reflexivity. Qed.

Lemma object_cache_set (this : Packs) (c : gmap (Z * Z) Buffer) (n : nat) (w : World) :
  object_cache this
    (set_objects (<[packedObjectCache this := c]> (w_objects w)) n w) = c.
Proof. unfold object_cache. cbn. rewrite lookup_insert_eq. reflexivity. Qed.

(** X9.  A commit or tag that is in the index and not yet in the cache is
    resolved by opening its pack file, reading the 32 header bytes at the
    object's offset, reading the payload at the offset plus the length of
    the header with a buffer of [size * 2 + 32] bytes, grown by 128 bytes
    after each [Z_BUF_ERROR], and closing the file; the inflated bytes are
    returned and stored in the cache under the pair of the object's pack
    file index and offset.  Stated for buffer sizes that [Buffer.allocUnsafe]
    serves. *)
Theorem whole_object_is_inflated_and_cached (k fuel : nat) (mode : Mode)
    (this : Packs) (hash : string) (idx : PackedIndex) (w : World)
    (content : Buffer) (po : PackedObject) (out : Buffer) :
  packedIndexMap this !! hash = Some idx ->
  object_cache this w !! (idx_fileIndex idx, idx_offset idx) = None ->
  fs_files (w_fs w) !! _getPackFilePath this idx = Some content ->
  0 <= idx_offset idx ->
  new_PackedObject
    (buffer_fill (Buffer_alloc 32) (file_read content 0 (idx_offset idx) 32))
    = Some po ->
  po_type po = ObjectTypeEnum.COMMIT \/ po_type po = ObjectTypeEnum.TAG ->
  max_buffer_length < 2 ^ 53 ->
  po_size po * 2 + 32 + 128 * Z.of_nat k <= max_buffer_length ->
  (forall i, (i < k)%nat ->
     exists e,
       inflate (attempt_input content (JS.add (idx_offset idx) (po_offset po))
                  (po_size po * 2 + 32 + 128 * Z.of_nat i)) = inl e
       /\ errno e = Some Z_BUF_ERROR) ->
  inflate (attempt_input content (JS.add (idx_offset idx) (po_offset po))
             (po_size po * 2 + 32 + 128 * Z.of_nat k)) = inr out ->
  exists w',
    unpack (S (S (k + fuel))) mode this (Resolve hash) w = (Ok out, w')
    /\ w_trace w' =
         w_trace w
         ++ [IoOpen mode (_getPackFilePath this idx);
             IoRead mode (w_next_fd w) (idx_offset idx) 32]
         ++ ((fun i : nat =>
                IoRead mode (w_next_fd w)
                  (JS.add (idx_offset idx) (po_offset po))
                  (po_size po * 2 + 32 + 128 * Z.of_nat i)) <$> seq 0 (S k))
         ++ [IoClose mode (w_next_fd w)]
    /\ object_cache this w'
       = <[(idx_fileIndex idx, idx_offset idx) := out]> (object_cache this w).
Proof.
  intros Hidx Hmiss Hfile Hoff Hpo Hkind Hmax Hk Hfail Hout.
  set (path := _getPackFilePath this idx) in *.
  set (fd := w_next_fd w).
  set (position := JS.add (idx_offset idx) (po_offset po)) in *.
  destruct (decoded_header_bounds _ _ Hpo) as [Hsize Hpoff].
  assert (Hpos : 0 <= position) by (apply JS_add_nonneg; lia).
  pose proof (fs_open_run mode path w content Hfile) as Hopen.
  set (w1 := set_fds _ _ _) in Hopen.
  assert (Hfd1 : w_fds w1 !! fd = Some (path, 0)) by apply lookup_insert_eq.
  assert (Hfile1 : fs_files (w_fs w1) !! path = Some content) by exact Hfile.
  pose proof (fs_read_run mode fd (idx_offset idx) 32 w1 path 0 content
                Hfd1 Hfile1 Hoff) as Hread.
  set (w2 := set_trace _ w1) in Hread.
  pose proof (inf_from_result k fuel mode fd idx po w2 path 0 content out
                Hfd1 Hfile1 Hpos Hsize Hmax Hk Hfail Hout) as Hinf.
  fold position in Hinf.
  set (w3 := set_trace _ w2) in Hinf.
  pose proof (cache_set_run this idx out w3) as Hset.
  set (w4 := set_objects _ _ w3) in Hset.
  assert (Hfd4 : w_fds w4 !! fd = Some (path, 0)) by exact Hfd1.
  pose proof (fs_close_run mode fd w4 _ Hfd4) as Hclose.
  eexists. split; [|split].
  - change (unpack (S (S (k + fuel))) mode this (Resolve hash))
      with (unpackGitObject_body mode this (unpack (S (k + fuel)) mode this) hash).
    unfold unpackGitObject_body.
    rewrite (bind_ok _ _ w w idx) by (apply index_get_run, Hidx).
    rewrite (bind_ok _ _ w w None)
      by (rewrite cache_get_run; unfold cache_key; rewrite Hmiss; reflexivity).
    rewrite (bind_ok _ _ _ _ _ Hopen). fold fd.
    assert (Hat : unpack (S (k + fuel)) mode this (ResolveAt fd idx) w1 = (Ok out, w4)).
    { cbn [unpack]. unfold _unpackGitObject_body.
      rewrite (bind_ok _ _ w1 w1 None)
        by (rewrite cache_get_run; change (object_cache this w1) with (object_cache this w);
            unfold cache_key; rewrite Hmiss; reflexivity).
      rewrite (bind_ok _ _ _ _ _ Hread). rewrite Hpo.
      assert (Hdisp : (po_type po =? ObjectTypeEnum.COMMIT)
                      || (po_type po =? ObjectTypeEnum.TAG) = true).
      { destruct Hkind as [-> | ->]; reflexivity. }
      rewrite Hdisp.
      rewrite bind_run. rewrite (bind_ok _ _ _ _ _ Hinf). cbn [mret M_ret].
      rewrite (bind_ok _ _ _ _ _ Hset). reflexivity. }
    unfold try_finally. rewrite Hat, Hclose. reflexivity.
  - cbn [w_trace set_fds set_trace set_objects w4 w3 w2 w1].
    unfold attempt_reads, grown_size. rewrite <- !app_assoc. reflexivity.
  - unfold w4.
    change (object_cache this (set_fds ?f ?n (set_trace ?t ?x)))
      with (object_cache this x).
    rewrite object_cache_set. reflexivity.
Qed.

End ResolutionRuns.

(** ** What a resolution leaves alone *)

#[global] Instance cache_step_preorder (this : Packs) : PreOrder (cache_step this).
Proof.
  split.
  - intros w. split; [reflexivity|]. split; auto.
  - intros w1 w2 w3 (Hs1 & Ho1 & Hk1) (Hs2 & Ho2 & Hk2).
    split; [etransitivity; eassumption|]. split.
    + intros id Hid. rewrite Ho2, Ho1 by exact Hid. reflexivity.
    + intros k Hk. apply Hk2, Hk1, Hk.
Qed.

Lemma io_step_cache_step (this : Packs) (w w' : World) :
  io_step w w' -> cache_step this w w'.
Proof.
  intros Hio. split; [apply io_step_store_step, Hio|].
  destruct Hio as (_ & Hobj & _). unfold object_cache. rewrite Hobj.
  split; auto.
Qed.

Lemma stable_io_cache {A} (this : Packs) (m : M A) :
  stable io_step m -> stable (cache_step this) m.
Proof. intros H w. apply io_step_cache_step, H. Qed.

Lemma cache_set_cache_step (this : Packs) (idx : PackedIndex) (buff : Buffer) :
  stable (cache_step this) (_setPackedObjectBuffrToCache this idx buff).
Proof.
  intros w. rewrite cache_set_run. cbn [snd]. split; [repeat split|]. split.
  - intros id Hid. cbn. apply lookup_insert_ne. congruence.
  - intros k Hk. rewrite object_cache_set.
    destruct (decide (cache_key idx = k)) as [Heq|Hne].
    + subst k. rewrite lookup_insert_eq. eauto.
    + rewrite lookup_insert_ne by exact Hne. exact Hk.
Qed.

Section Frames.
Context `{RT : Runtime}.

Lemma unpack_cache_step fuel mode this : forall c,
  stable (cache_step this) (unpack fuel mode this c).
Proof.
  induction fuel as [|fuel IH]; intros c; cbn [unpack].
  - stable_by @stable_diverge.
  - destruct c as [hash|fd idx].
    + unfold unpackGitObject_body.
      stable_by @stable_bind.
      { unfold _getPackedIndexFromCache.
        destruct (_ !! _); [stable_by @stable_ret | stable_by @stable_throw]. }
      intros idx. stable_by @stable_bind.
      { intros w. reflexivity. }
      intros [dst|]; [stable_by @stable_ret|].
      stable_by @stable_bind; [apply stable_io_cache, fs_open_io | intros fd].
      stable_by @stable_try_finally; [apply IH | apply stable_io_cache, fs_close_io].
    + unfold _unpackGitObject_body.
      stable_by @stable_bind.
      { intros w. reflexivity. }
      intros [dst|]; [stable_by @stable_ret|].
      stable_by @stable_bind; [apply stable_io_cache, fs_read_io | intros data].
      destruct (new_PackedObject _) as [po|]; [|stable_by @stable_diverge].
      stable_by @stable_bind.
      * destruct (_ || _).
        { stable_by @stable_bind; [apply stable_io_cache, inf_from_io|].
          intros d. stable_by @stable_ret. }
        destruct (_ || _); [|stable_by @stable_ret].
        stable_by @stable_bind; [|intros d; stable_by @stable_ret].
        unfold _unpackDeltaObject_body.
        stable_by @stable_bind.
        { destruct (_ =? _).
          - destruct (readBaseOffset _ _) as [baseOffset offset].
            stable_by @stable_bind; [apply IH | intros src; stable_by @stable_ret].
          - stable_by @stable_bind; [apply IH | intros src; stable_by @stable_ret]. }
        intros [src po'].
        stable_by @stable_bind; [apply stable_io_cache, inf_from_io | intros delta].
        stable_by @stable_lift.
      * intros [dst|]; [|stable_by @stable_throw].
        stable_by @stable_bind; [|intros _; stable_by @stable_ret].
        apply cache_set_cache_step.
Qed.

(** X10.  Whatever its outcome, a resolution on a store leaves the file
    system, the registry and [processings] as they were, does not touch the
    decoded-object cache of any other store, and removes no entry from the
    store's own cache. *)
Theorem resolution_keeps_to_its_own_cache (fuel : nat) (mode : Mode)
    (this : Packs) (c : call) (w : World) :
  let w' := (unpack fuel mode this c w).2 in
  w_fs w' = w_fs w
  /\ w_packsCache w' = w_packsCache w
  /\ w_processings w' = w_processings w
  /\ (forall that, packedObjectCache that <> packedObjectCache this ->
        object_cache that w' = object_cache that w)
  /\ (forall k, is_Some (object_cache this w !! k) ->
        is_Some (object_cache this w' !! k)).
Proof.
  destruct (unpack_cache_step fuel mode this c w)
    as ((Hfs & _ & Hlru & Hpr) & Hoth & Hown).
  cbv zeta. repeat split; try assumption.
  intros that Hne. unfold object_cache. rewrite Hoth by exact Hne. reflexivity.
Qed.

End Frames.

(** ** Descriptors *)

#[global] Instance fds_step_preorder (own : option Z) : PreOrder (fds_step own).
Proof.
  split.
  - intros w Hf Ho. split; [exact Hf|]. split; [lia|]. split; auto.
  - intros w1 w2 w3 H12 H23 Hf Ho.
    destruct (H12 Hf Ho) as (Hf2 & Hn2 & Hoth2 & Hown2).
    destruct (H23 Hf2) as (Hf3 & Hn3 & Hoth3 & Hown3).
    { intros fd E. specialize (Ho fd E). lia. }
    split; [exact Hf3|]. split; [lia|]. split.
    + intros fd Hfd. rewrite Hoth3, Hoth2 by exact Hfd. reflexivity.
    + intros fd E Hopen. apply (Hown3 fd E), (Hown2 fd E), Hopen.
Qed.

Lemma fds_same_step (own : option Z) (w w' : World) :
  w_fds w' = w_fds w -> w_next_fd w' = w_next_fd w -> fds_step own w w'.
Proof.
  intros Hfds Hnext Hf Ho. unfold fds_fresh. rewrite Hfds, Hnext.
  split; [exact Hf|]. split; [lia|]. split; auto.
Qed.

Lemma fds_step_weaken (fd : Z) (w w' : World) :
  fds_step None w w' -> fds_step (Some fd) w w'.
Proof.
  intros H Hf Ho. destruct (H Hf) as (Hf' & Hn & Hoth & _); [discriminate|].
  split; [exact Hf'|]. split; [exact Hn|]. split.
  - intros fd' _. apply Hoth. discriminate.
  - intros fd' _ Hopen. rewrite Hoth by discriminate. exact Hopen.
Qed.

Lemma fs_read_fds mode fd position len :
  stable (fds_step (Some fd)) (fs_read mode fd position len).
Proof.
  intros w. unfold fs_read, log, modify.
  rewrite bind_run. rewrite bind_run. cbn [get_world set_trace w_fds w_fs].
  destruct (w_fds w !! fd) as [[path current]|] eqn:Hfd;
    [|apply fds_same_step; reflexivity].
  rewrite bind_run. destruct (position <? 0); [|apply fds_same_step; reflexivity].
  cbn. intros Hf Ho. specialize (Ho fd eq_refl). split; [|split; [|split]].
  - intros fd' Hfd'. cbn in *. rewrite lookup_insert_ne by lia. apply Hf, Hfd'.
  - cbn. lia.
  - intros fd' Hne. cbn. apply lookup_insert_ne. congruence.
  - intros fd' [= <-] _. cbn. rewrite lookup_insert_eq. eauto.
Qed.

Section StableNd.
Context (R : relation World) `{!PreOrder R}.

Lemma stable_nd_of_stable {A} (m : M A) : stable R m -> stable_nd R m.
Proof. intros H w _. apply H. Qed.

Lemma stable_nd_bind {A B} (m : M A) (f : A -> M B) :
  stable_nd R m -> (forall a, stable_nd R (f a)) -> stable_nd R (m ≫= f).
Proof.
  intros Hm Hf w. rewrite bind_run. specialize (Hm w).
  destruct (m w) as [[a|e| |?] w1]; cbn [fst snd] in *.
  - intros Hnd. etransitivity; [apply Hm; discriminate | apply Hf; exact Hnd].
  - intros _. apply Hm. discriminate.
  - intros H. contradiction.
  - intros _. apply Hm. discriminate.
Qed.

End StableNd.

Section Descriptors.
Context `{RT : Runtime}.

Lemma inf_from_fds fuel mode fd idx po : forall size,
  stable (fds_step (Some fd)) (inf_from fuel mode fd idx po size).
Proof.
  induction fuel as [|fuel IH]; intros size; cbn [inf_from].
  - stable_by @stable_diverge.
  - stable_by @stable_bind; [stable_by @stable_lift | intros buff].
    stable_by @stable_bind; [apply fs_read_fds | intros data].
    destruct (inflate _) as [e|out].
    + destruct (decide _); [apply IH | stable_by @stable_throw].
    + stable_by @stable_ret.
Qed.

Lemma unpack_fds fuel mode this : forall c,
  stable_nd (fds_step (own_of c)) (unpack fuel mode this c).
Proof.
  induction fuel as [|fuel IH]; intros c; cbn [unpack].
  - intros w H. contradiction.
  - destruct c as [hash|fd idx]; cbn [own_of].
    + intros w. unfold unpackGitObject_body, _getPackedIndexFromCache.
      destruct (packedIndexMap this !! hash) as [idx|]; [|intros _; reflexivity].
      rewrite bind_run. cbn [mret M_ret]. rewrite bind_run, cache_get_run.
      destruct (object_cache this w !! cache_key idx) as [dst|];
        [intros _; reflexivity|].
      rewrite bind_run.
      destruct (fs_files (w_fs w) !! _getPackFilePath this idx) as [content|] eqn:Hfile.
      * rewrite (fs_open_run _ _ _ _ Hfile).
        set (fd := w_next_fd w).
        set (w1 := set_fds _ _ _).
        unfold try_finally.
        pose proof (IH (ResolveAt fd idx) w1) as Hin. cbn [own_of] in Hin.
        destruct (unpack fuel mode this (ResolveAt fd idx) w1) as [[a|e| |?] w2];
          cbn [fst snd] in *; [| |intros H; contradiction|].
        all: intros _ Hf _.
        all: destruct (Hin ltac:(discriminate)) as (Hf2 & Hn2 & Hoth2 & Hown2);
          [ intros fd' Hfd'; cbn in *; rewrite lookup_insert_ne by lia;
            apply Hf; lia
          | intros fd' [= <-]; cbn; lia | ].
        all: destruct (Hown2 fd eq_refl) as [x Hx];
          [cbn; rewrite lookup_insert_eq; eauto|].
        all: rewrite (fs_close_run _ _ _ _ Hx); cbn [fst snd].
        all: assert (Hback : forall fd', delete fd (w_fds w2) !! fd' = w_fds w !! fd')
          by (intros fd'; destruct (decide (fd = fd')) as [<-|Hne];
              [ rewrite lookup_delete_eq; symmetry; apply Hf; unfold fd; lia
              | rewrite lookup_delete_ne by exact Hne;
                rewrite Hoth2 by congruence; cbn;
                apply lookup_insert_ne; exact Hne ]).
        all: split; [|split; [|split]];
          [ intros fd' Hfd'; cbn in *; rewrite Hback; apply Hf; lia
          | cbn in *; lia
          | intros fd' _; cbn; apply Hback
          | discriminate ].
      * rewrite (fs_open_missing _ _ _ Hfile). intros _.
        apply fds_same_step; reflexivity.
    + unfold _unpackGitObject_body.
      stable_by @stable_nd_bind.
      { apply stable_nd_of_stable. intros w. reflexivity. }
      intros [dst|]; [apply stable_nd_of_stable; stable_by @stable_ret|].
      stable_by @stable_nd_bind;
        [apply stable_nd_of_stable, fs_read_fds | intros data].
      destruct (new_PackedObject _) as [po|];
        [|apply stable_nd_of_stable; stable_by @stable_diverge].
      stable_by @stable_nd_bind.
      * destruct (_ || _).
        { apply stable_nd_of_stable.
          stable_by @stable_bind; [apply inf_from_fds|].
          intros d. stable_by @stable_ret. }
        destruct (_ || _); [|apply stable_nd_of_stable; stable_by @stable_ret].
        stable_by @stable_nd_bind;
          [|intros d; apply stable_nd_of_stable; stable_by @stable_ret].
        unfold _unpackDeltaObject_body.
        stable_by @stable_nd_bind.
        { destruct (_ =? _).
          - destruct (readBaseOffset _ _) as [baseOffset offset].
            stable_by @stable_nd_bind;
              [apply (IH (ResolveAt fd _))
              | intros src; apply stable_nd_of_stable; stable_by @stable_ret].
          - stable_by @stable_nd_bind;
              [|intros src; apply stable_nd_of_stable; stable_by @stable_ret].
            intros w Hnd. apply fds_step_weaken. apply (IH (Resolve _) w Hnd). }
        intros [src po'].
        apply stable_nd_of_stable.
        stable_by @stable_bind; [apply inf_from_fds | intros delta].
        stable_by @stable_lift.
      * intros [dst|]; [|apply stable_nd_of_stable; stable_by @stable_throw].
        apply stable_nd_of_stable.
        stable_by @stable_bind; [|intros _; stable_by @stable_ret].
        intros w. apply fds_same_step; reflexivity.
Qed.

(** X11.  From a world in which no descriptor at or above the next one to
    be handed out is open, a resolution that returns or throws leaves the
    table of open descriptors exactly as it found it: every pack file it
    opened, also for the bases of REF_DELTA objects, has been closed again,
    and no descriptor of another owner has been closed or moved. *)
Theorem resolution_closes_what_it_opens (fuel : nat) (mode : Mode)
    (this : Packs) (hash : string) (w : World) :
  fds_fresh w ->
  (unpack fuel mode this (Resolve hash) w).1 <> Diverge ->
  w_fds (unpack fuel mode this (Resolve hash) w).2 = w_fds w
  /\ fds_fresh (unpack fuel mode this (Resolve hash) w).2.
Proof.
  intros Hf Hnd.
  destruct (unpack_fds fuel mode this (Resolve hash) w Hnd Hf)
    as (Hf' & _ & Hoth & _); [discriminate|].
  split; [|exact Hf'].
  apply map_eq. intros fd. apply Hoth. discriminate.
Qed.

End Descriptors.

(** ** An index entry that points past the end of its pack file *)

Section PastTheEnd.
Context `{RT : Runtime}.

Lemma header_past_the_end (content : Buffer) (offset : Z) :
  Z.of_nat (length content) <= offset ->
  new_PackedObject
    (buffer_fill (Buffer_alloc 32) (file_read content 0 offset 32))
  = Some (mkPackedObject 0 0 1).
Proof.
  intros Hoff. unfold file_read.
  destruct (Z.ltb_spec offset 0); [lia|].
  rewrite drop_ge by lia. reflexivity.
Qed.

(** X12.  An object whose index entry points at or past the end of its
    pack file is rejected as an object of kind 0: the 32-byte header read
    returns no byte, the zero-filled buffer decodes to kind 0 and size 0,
    and the resolution throws the invalid-object-type error after opening
    the file, that one read and closing it. *)
Theorem entry_past_end_of_pack_is_rejected (fuel : nat) (mode : Mode)
    (this : Packs) (hash : string) (idx : PackedIndex) (w : World)
    (content : Buffer) :
  packedIndexMap this !! hash = Some idx ->
  object_cache this w !! cache_key idx = None ->
  fs_files (w_fs w) !! _getPackFilePath this idx = Some content ->
  Z.of_nat (length content) <= idx_offset idx ->
  exists w',
    unpack (S (S fuel)) mode this (Resolve hash) w
      = (Throw (InvalidObjectType 0), w')
    /\ w_trace w' =
         w_trace w ++ [IoOpen mode (_getPackFilePath this idx);
                       IoRead mode (w_next_fd w) (idx_offset idx) 32;
                       IoClose mode (w_next_fd w)]
    /\ w_objects w' = w_objects w.
Proof.
  intros Hidx Hmiss Hfile Hoff.
  apply (resolve_undispatched fuel mode this hash idx w content
           (mkPackedObject 0 0 1) Hidx Hmiss Hfile
           (header_past_the_end content (idx_offset idx) Hoff));
    cbn; discriminate.
Qed.

End PastTheEnd.

(** ** A delta object whose base is in the cache *)

Section CachedBase.
Context `{RT : Runtime}.

Lemma unpack_in_cache (fuel : nat) (mode : Mode) (this : Packs) (c : call)
    (w : World) (bytes : Buffer) :
  in_cache this w c bytes ->
  unpack (S fuel) mode this c w = (Ok bytes, w).
Proof.
  destruct c as [hash|fd idx]; cbn [in_cache].
  - intros (idx & Hidx & Hhit). eapply resolve_cached; eassumption.
  - intros Hhit. cbn [unpack]. unfold _unpackGitObject_body.
    rewrite (bind_ok _ _ w w (Some bytes))
      by (rewrite cache_get_run; unfold cache_key; rewrite Hhit; reflexivity).
    reflexivity.
Qed.

Lemma in_cache_io (this : Packs) (w w' : World) (c : call) (bytes : Buffer) :
  w_objects w' = w_objects w -> in_cache this w c bytes -> in_cache this w' c bytes.
Proof.
  intros Hobj. unfold in_cache, object_cache. rewrite Hobj. auto.
Qed.

(** X13.  A delta object (OFS_DELTA or REF_DELTA) that is in the index and
    not in the cache, and whose base is in the cache, is resolved without
    any file-system call for the base: the pack file is opened, the 32
    header bytes and, with a buffer of [size * 2 + 32] bytes, the delta
    payload are read, the file is closed; the result is [patchDelta] of the
    cached base and the inflated payload, and it is stored in the cache
    under the pair of the object's pack file index and offset.  Stated for a
    buffer size that [Buffer.allocUnsafe] serves. *)
Theorem delta_on_cached_base_is_patched (fuel : nat) (mode : Mode)
    (this : Packs) (hash : string) (idx : PackedIndex) (w : World)
    (content head : Buffer) (po : PackedObject) (base delta out : Buffer) :
  packedIndexMap this !! hash = Some idx ->
  object_cache this w !! (idx_fileIndex idx, idx_offset idx) = None ->
  fs_files (w_fs w) !! _getPackFilePath this idx = Some content ->
  0 <= idx_offset idx ->
  head = buffer_fill (Buffer_alloc 32)
           (file_read content 0 (idx_offset idx) 32) ->
  new_PackedObject head = Some po ->
  po_type po = ObjectTypeEnum.OFS_DELTA
    \/ po_type po = ObjectTypeEnum.REF_DELTA ->
  in_cache this w (delta_base (w_next_fd w) idx po head) base ->
  0 <= JS.add (idx_offset idx) (po_offset (delta_payload po head)) ->
  max_buffer_length < 2 ^ 53 ->
  po_size po * 2 + 32 <= max_buffer_length ->
  inflate (attempt_input content
             (JS.add (idx_offset idx) (po_offset (delta_payload po head)))
             (po_size po * 2 + 32)) = inr delta ->
  patchDelta base delta = inr out ->
  exists w',
    unpack (S (S (S fuel))) mode this (Resolve hash) w = (Ok out, w')
    /\ w_trace w' =
         w_trace w
         ++ [IoOpen mode (_getPackFilePath this idx);
             IoRead mode (w_next_fd w) (idx_offset idx) 32;
             IoRead mode (w_next_fd w)
               (JS.add (idx_offset idx) (po_offset (delta_payload po head)))
               (po_size po * 2 + 32);
             IoClose mode (w_next_fd w)]
    /\ object_cache this w'
       = <[(idx_fileIndex idx, idx_offset idx) := out]> (object_cache this w).
Proof.
  intros Hidx Hmiss Hfile Hoff Hhead Hpo Hkind Hbase Hpos Hmax Hle Hinflate Hpatch.
  set (path := _getPackFilePath this idx) in *.
  set (fd := w_next_fd w) in *.
  set (po' := delta_payload po head) in *.
  set (position := JS.add (idx_offset idx) (po_offset po')) in *.
  assert (Hsame : po_size po' = po_size po)
    by (unfold po', delta_payload; destruct (_ =? _); reflexivity).
  assert (Hsize : 0 <= po_size po')
    by (rewrite Hsame; apply (decoded_header_bounds _ _ Hpo)).
  pose proof (fs_open_run mode path w content Hfile) as Hopen.
  set (w1 := set_fds _ _ _) in Hopen.
  assert (Hfd1 : w_fds w1 !! fd = Some (path, 0)) by apply lookup_insert_eq.
  assert (Hfile1 : fs_files (w_fs w1) !! path = Some content) by exact Hfile.
  pose proof (fs_read_run mode fd (idx_offset idx) 32 w1 path 0 content
                Hfd1 Hfile1 Hoff) as Hread.
  set (w2 := set_trace _ w1) in Hread.
  assert (Hbase2 : unpack (S fuel) mode this (delta_base fd idx po head) w2
                   = (Ok base, w2)).
  { apply unpack_in_cache. eapply in_cache_io; [|exact Hbase]. reflexivity. }
  rewrite <- Hsame in Hle, Hinflate.
  pose proof (inf_from_at_once (S fuel) mode fd idx po' w2 path 0 content delta
                Hfd1 Hfile1 Hpos Hsize Hmax Hle Hinflate) as Hinf.
  fold position in Hinf. rewrite Hsame in Hinf.
  set (w3 := set_trace _ w2) in Hinf.
  pose proof (cache_set_run this idx out w3) as Hset.
  set (w4 := set_objects _ _ w3) in Hset.
  assert (Hfd4 : w_fds w4 !! fd = Some (path, 0)) by exact Hfd1.
  pose proof (fs_close_run mode fd w4 _ Hfd4) as Hclose.
  assert (Hat : unpack (S (S fuel)) mode this (ResolveAt fd idx) w1 = (Ok out, w4)).
  { rewrite (resolve_at_delta fuel mode this fd idx w1 w2
               (file_read content 0 (idx_offset idx) 32) po);
      [ | exact Hmiss | exact Hread | rewrite <- Hhead; exact Hpo | exact Hkind ].
    cbv zeta. rewrite <- Hhead. fold po'.
    rewrite (bind_ok _ _ _ _ _ Hbase2).
    rewrite (bind_ok _ _ _ _ _ Hinf).
    rewrite Hpatch. cbn [lift]. rewrite bind_run. cbn [mret M_ret].
    rewrite (bind_ok _ _ _ _ _ Hset). reflexivity. }
  eexists. split; [|split].
  - change (unpack (S (S (S fuel))) mode this (Resolve hash))
      with (unpackGitObject_body mode this (unpack (S (S fuel)) mode this) hash).
    unfold unpackGitObject_body.
    rewrite (bind_ok _ _ w w idx) by (apply index_get_run, Hidx).
    rewrite (bind_ok _ _ w w None)
      by (rewrite cache_get_run; unfold cache_key; rewrite Hmiss; reflexivity).
    rewrite (bind_ok _ _ _ _ _ Hopen). fold fd.
    unfold try_finally. rewrite Hat, Hclose. reflexivity.
  - cbn [w_trace set_fds set_trace set_objects w4 w3 w2 w1].
    rewrite <- !app_assoc. reflexivity.
  - unfold w4.
    change (object_cache this (set_fds ?f ?n (set_trace ?t ?x)))
      with (object_cache this x).
    rewrite object_cache_set. reflexivity.
Qed.

End CachedBase.

(** ** What a build returns *)

Section BuildFacts.
Context `{RT : Runtime}.

Lemma _initialize_is_build gitDir : _initialize gitDir = build Suspending gitDir.
Proof. reflexivity. Qed.

Lemma build_sync_is_build gitDir : build_sync gitDir = build Blocking gitDir.
Proof. reflexivity. Qed.

Lemma read_indexes_entries mode dir names : forall i map w m' w',
  read_indexes mode dir names i map w = (Ok m', w') ->
  forall k idx, m' !! k = Some idx ->
    map !! k = Some idx
    \/ (exists name,
          i <= idx_fileIndex idx
          /\ names !! Z.to_nat (idx_fileIndex idx - i) = Some name
          /\ is_Some (fs_files (w_fs w) !! path_join dir (name +:+ ".idx"))
          /\ 0 <= idx_offset idx < 2 ^ 32 + 2 ^ 16).
Proof.
  induction names as [|name rest IH]; intros i map w m' w' Hrun k idx Hk;
    cbn [read_indexes] in Hrun.
  - injection Hrun as <- <-. left. exact Hk.
  - apply bind_ok_inv in Hrun as (buff & w0 & Hfile & Hrun).
    rewrite fs_readFile_run in Hfile.
    destruct (fs_files (w_fs w) !! path_join dir (name +:+ ".idx")) as [content|] eqn:Hcontent;
      [|discriminate].
    injection Hfile as <- <-.
    apply bind_ok_inv in Hrun as (map1 & w1 & Hparse & Hrun).
    destruct (setupPackedIndexMap content i map) as [e|map1'] eqn:Hsetup;
      [discriminate|].
    injection Hparse as <- <-.
    destruct (IH _ _ _ _ _ Hrun k idx Hk) as [Hin | (name' & Hi & Hname & Hfile & Hoff)].
    + destruct (setupPackedIndexMap_frame _ _ _ _ Hsetup) as [_ Hnew].
      destruct (Hnew k idx Hin) as [Hold | [Hfi Hoff]]; [left; exact Hold|].
      right. exists name. rewrite Hfi, Z.sub_diag.
      split; [lia|]. split; [reflexivity|]. split; [eauto | exact Hoff].
    + right. exists name'. split; [lia|]. split; [|split; [exact Hfile | exact Hoff]].
      replace (Z.to_nat (idx_fileIndex idx - i))
        with (S (Z.to_nat (idx_fileIndex idx - (i + 1)))) by lia.
      exact Hname.
Qed.

Lemma build_result mode gitDir w p w1 :
  build mode gitDir w = (Ok p, w1) ->
  packFileNames p =
    match fs_dirs (w_fs w) !! pack_dir_of gitDir with
    | Some names => idx_base_names names
    | None => []
    end
  /\ hasPackFiles p = negb (bool_decide (packFileNames p = []))
  /\ packDir p = (if hasPackFiles p then pack_dir_of gitDir else gitDir)
  /\ (forall k idx, packedIndexMap p !! k = Some idx ->
        exists name,
          0 <= idx_fileIndex idx
          /\ packFileNames p !! Z.to_nat (idx_fileIndex idx) = Some name
          /\ is_Some (fs_files (w_fs w)
                        !! path_join (pack_dir_of gitDir) (name +:+ ".idx"))
          /\ 0 <= idx_offset idx < 2 ^ 32 + 2 ^ 16).
Proof.
  unfold build. intros Hrun.
  rewrite bind_run in Hrun. unfold settled in Hrun. rewrite fs_readdir_run in Hrun.
  destruct (fs_dirs (w_fs w) !! pack_dir_of gitDir) as [names|].
  - destruct (idx_base_names names) as [|n0 rest] eqn:Hnames.
    + rewrite bool_decide_eq_true_2 in Hrun by reflexivity.
      rewrite new_Packs_run in Hrun. injection Hrun as <- _.
      cbn. repeat split. intros k idx Hk. rewrite lookup_empty in Hk. discriminate.
    + rewrite bool_decide_eq_false_2 in Hrun by discriminate.
      rewrite bind_run in Hrun.
      destruct (read_indexes mode (pack_dir_of gitDir) (n0 :: rest) 0 ∅ _)
        as [[map|e| |?] w0] eqn:Hread; try discriminate.
      rewrite new_Packs_run in Hrun. injection Hrun as <- _.
      cbn [packFileNames hasPackFiles packDir packedIndexMap].
      split; [reflexivity|]. split; [reflexivity|]. split; [reflexivity|].
      intros k idx Hk.
      destruct (read_indexes_entries _ _ _ _ _ _ _ _ Hread k idx Hk)
        as [Hin | (name & Hi & Hname & Hfile & Hoff)].
      { rewrite lookup_empty in Hin. discriminate. }
      exists name. rewrite Z.sub_0_r in Hname. auto.
  - rewrite new_Packs_run in Hrun. injection Hrun as <- _.
    cbn. repeat split. intros k idx Hk. rewrite lookup_empty in Hk. discriminate.
Qed.

(** ** Stores in the registry have been built *)

Lemma registry_built_boot fs : registry_built fs (boot fs).
Proof. split; [reflexivity|]. intros d p H. discriminate. Qed.

Lemma registry_built_build_step fs w w' :
  registry_built fs w -> build_step w w' -> registry_built fs w'.
Proof.
  intros (Hfs & Hlru) (Hfs' & Hc & _).
  split; [congruence|]. rewrite Hc. exact Hlru.
Qed.

Lemma registry_built_touch fs w d v :
  registry_built fs w ->
  lru_find d (w_packsCache w) = Some v ->
  registry_built fs (set_packsCache ((d, v) :: lru_remove d (w_packsCache w)) w).
Proof.
  intros (Hfs & Hlru) Hv. split; [exact Hfs|].
  cbn [w_packsCache set_packsCache]. intros d0 p0 Hfind.
  rewrite (lru_find_touch d0 d v _ Hv) in Hfind. apply Hlru. exact Hfind.
Qed.

Lemma registry_built_insert fs w d p (pr : gmap string (error + Packs)) :
  registry_built fs w ->
  built_from fs d p ->
  registry_built fs
    (set_packsCache (take lru_max ((d, p) :: lru_remove d (w_packsCache w)))
       (set_processings pr w)).
Proof.
  intros (Hfs & Hlru) Hp. split; [exact Hfs|].
  cbn [w_packsCache set_packsCache set_processings]. intros d0 p0 Hfind.
  apply lru_find_take in Hfind. cbn [lru_find] in Hfind.
  destruct (decide (d = d0)) as [->|Hne].
  - injection Hfind as <-. exact Hp.
  - rewrite lru_find_remove_ne in Hfind by congruence. apply Hlru. exact Hfind.
Qed.

Lemma registry_built_initialize fs gitDir w :
  registry_built fs w -> registry_built fs (initialize gitDir w).2.
Proof.
  intros Hinv.
  destruct (lru_find gitDir (w_packsCache w)) as [p|] eqn:Hfind.
  { rewrite (initialize_hit _ _ _ Hfind). apply registry_built_touch; assumption. }
  destruct (w_processings w !! gitDir) as [promise|] eqn:Hprom.
  { rewrite (initialize_pending _ _ _ Hfind Hprom).
    destruct promise; exact Hinv. }
  destruct (decide (gitDir ∈ Object_prototype_names)) as [Hname|Hname].
  { rewrite (initialize_inherited _ _ Hfind Hprom Hname). exact Hinv. }
  rewrite (initialize_miss _ _ Hfind Hprom Hname).
  pose proof (_initialize_build gitDir w) as Hstep.
  destruct (_initialize gitDir w) as [[p|e| |?] w1] eqn:Hrun; cbn [snd] in *.
  - apply (registry_built_insert fs w1 gitDir p).
    + eapply registry_built_build_step; eassumption.
    + exists Suspending, w, w1. split; [apply Hinv | exact Hrun].
  - pose proof (registry_built_build_step _ _ _ Hinv Hstep) as (Hfs & Hlru).
    split; assumption.
  - eapply registry_built_build_step; eassumption.
  - eapply registry_built_build_step; eassumption.
Qed.

Lemma registry_built_initializeSync fs gitDir w :
  registry_built fs w -> registry_built fs (initializeSync gitDir w).2.
Proof.
  intros Hinv.
  destruct (lru_find gitDir (w_packsCache w)) as [p|] eqn:Hfind.
  { rewrite (initializeSync_hit _ _ _ Hfind). apply registry_built_touch; assumption. }
  rewrite (initializeSync_miss _ _ Hfind).
  pose proof (build_sync_build gitDir w) as Hstep.
  destruct (build_sync gitDir w) as [[p|e| |?] w1] eqn:Hrun; cbn [snd] in *.
  - pose proof (registry_built_insert fs w1 gitDir p (w_processings w1)) as H.
    apply H.
    + eapply registry_built_build_step; eassumption.
    + exists Blocking, w, w1. split; [apply Hinv | exact Hrun].
  - eapply registry_built_build_step; eassumption.
  - eapply registry_built_build_step; eassumption.
  - eapply registry_built_build_step; eassumption.
Qed.

Lemma registry_built_run_call fs c w :
  registry_built fs w -> registry_built fs (run_call c w).
Proof.
  intros Hinv. destruct c as [d|d|fuel this hash|fuel this hash]; cbn [run_call].
  - apply registry_built_initialize, Hinv.
  - apply registry_built_initializeSync, Hinv.
  - eapply registry_built_build_step; [exact Hinv|].
    apply store_step_build_step, unpack_store.
  - eapply registry_built_build_step; [exact Hinv|].
    apply store_step_build_step, unpack_store.
Qed.

Lemma reachable_built fs w : reachable fs w -> registry_built fs w.
Proof.
  intros (cs & ->). generalize (registry_built_boot fs).
  generalize (boot fs). induction cs as [|c cs IH]; intros w Hinv; [exact Hinv|].
  cbn [run_calls foldl]. apply IH, registry_built_run_call, Hinv.
Qed.

Lemma reachable_run_call fs c w : reachable fs w -> reachable fs (run_call c w).
Proof.
  intros (cs & ->). exists (cs ++ [c]). unfold run_calls.
  rewrite foldl_app. reflexivity.
Qed.

Lemma returned_store_built fs w w1 gitDir p :
  reachable fs w ->
  initialize gitDir w = (Ok p, w1) \/ initializeSync gitDir w = (Ok p, w1) ->
  built_from fs gitDir p.
Proof.
  intros Hreach Hrun.
  destruct (returned_store_at_front fs w w1 gitDir p
              (reachable_inv fs w Hreach) Hrun) as (post & Hfront).
  assert (Hreach1 : reachable fs w1).
  { destruct Hrun as [Hrun|Hrun].
    - replace w1 with (run_call (CallInitialize gitDir) w)
        by (cbn; rewrite Hrun; reflexivity).
      apply reachable_run_call, Hreach.
    - replace w1 with (run_call (CallInitializeSync gitDir) w)
        by (cbn; rewrite Hrun; reflexivity).
      apply reachable_run_call, Hreach. }
  destruct (reachable_built fs w1 Hreach1) as (_ & Hlru).
  apply Hlru. rewrite Hfront. apply lru_find_head.
Qed.

(** X14.  In a process over a fixed file system, the store returned by
    [initialize] or [initializeSync] lists the base names of the index files
    of the pack directory (none if it cannot be listed), has
    [hasPackFiles] set exactly when that list is not empty, and records as
    [packDir] the pack directory when it has pack files and the directory
    it was given when it has none. *)
Theorem returned_store_describes_pack_directory (fs : FileSystem)
    (w w1 : World) (gitDir : string) (p : Packs) :
  reachable fs w ->
  initialize gitDir w = (Ok p, w1) \/ initializeSync gitDir w = (Ok p, w1) ->
  packFileNames p =
    match fs_dirs fs !! pack_dir_of gitDir with
    | Some names => idx_base_names names
    | None => []
    end
  /\ hasPackFiles p = negb (bool_decide (packFileNames p = []))
  /\ packDir p = (if hasPackFiles p then pack_dir_of gitDir else gitDir).
Proof.
  intros Hreach Hrun.
  destruct (returned_store_built fs w w1 gitDir p Hreach Hrun)
    as (mode & w0 & w0' & Hfs & Hbuild).
  destruct (build_result _ _ _ _ _ Hbuild) as (Hnames & Hhas & Hdir & _).
  rewrite Hfs in Hnames. auto.
Qed.

(** X15.  Every entry of the index map of a store returned by [initialize]
    or [initializeSync] points into a pack of the directory listing: its
    file index is a position in the list of index-file base names, the
    index file of that name could be read, the path [_getPackFilePath]
    forms for it is that name with [.pack] under the pack directory (never
    [undefined.pack]), and its offset is in [0, 2^32 + 2^16). *)
Theorem index_entries_point_into_listed_packs (fs : FileSystem)
    (w w1 : World) (gitDir : string) (p : Packs) (hash : string)
    (idx : PackedIndex) :
  reachable fs w ->
  initialize gitDir w = (Ok p, w1) \/ initializeSync gitDir w = (Ok p, w1) ->
  packedIndexMap p !! hash = Some idx ->
  exists names name,
    fs_dirs fs !! pack_dir_of gitDir = Some names
    /\ 0 <= idx_fileIndex idx
    /\ idx_base_names names !! Z.to_nat (idx_fileIndex idx) = Some name
    /\ is_Some (fs_files fs !! path_join (pack_dir_of gitDir) (name +:+ ".idx"))
    /\ _getPackFilePath p idx = path_join (pack_dir_of gitDir) (name +:+ ".pack")
    /\ 0 <= idx_offset idx < 2 ^ 32 + 2 ^ 16.
Proof.
  intros Hreach Hrun Hidx.
  destruct (returned_store_built fs w w1 gitDir p Hreach Hrun)
    as (mode & w0 & w0' & Hfs & Hbuild).
  destruct (build_result _ _ _ _ _ Hbuild) as (Hnames & Hhas & Hdir & Hentries).
  destruct (Hentries hash idx Hidx) as (name & Hi & Hname & Hfile & Hoff).
  rewrite Hfs in Hnames, Hfile.
  destruct (fs_dirs fs !! pack_dir_of gitDir) as [names|].
  - exists names, name. rewrite <- Hnames.
    split; [reflexivity|]. split; [exact Hi|]. split; [exact Hname|].
    split; [exact Hfile|]. split; [|exact Hoff].
    unfold _getPackFilePath, array_get.
    destruct (Z.ltb_spec (idx_fileIndex idx) 0); [lia|].
    rewrite Hname. cbn [default]. rewrite Hdir, Hhas.
    destruct (packFileNames p); [discriminate|]. reflexivity.
  - rewrite Hnames in Hname. discriminate.
Qed.

End BuildFacts.

(** ** The size of the registry *)

Lemma lru_remove_length_le d (l : list (string * Packs)) :
  (length (lru_remove d l) <= length l)%nat.
Proof.
  induction l as [|[k v] l IH]; [reflexivity|]. cbn [lru_remove].
  destruct (decide (k = d)); cbn [length]; lia.
Qed.

Lemma lru_remove_length_found d (l : list (string * Packs)) v :
  lru_find d l = Some v -> (S (length (lru_remove d l)) <= length l)%nat.
Proof.
  induction l as [|[k v'] l IH]; [discriminate|]. cbn [lru_find lru_remove].
  destruct (decide (k = d)); cbn [length].
  - intros _. pose proof (lru_remove_length_le d l). lia.
  - intros H. specialize (IH H). lia.
Qed.

Lemma lru_remove_absent d (l : list (string * Packs)) :
  lru_find d l = None -> lru_remove d l = l.
Proof.
  induction l as [|[k v] l IH]; [reflexivity|]. cbn [lru_find lru_remove].
  destruct (decide (k = d)); [discriminate|]. intros H. rewrite IH by exact H.
  reflexivity.
Qed.

Lemma lru_touch_NoDup d v (l : list (string * Packs)) :
  NoDup l.*1 -> NoDup ((d, v) :: lru_remove d l).*1.
Proof.
  intros Hnd. rewrite fmap_cons, lru_remove_keys. cbn [fst].
  apply NoDup_cons. split.
  - rewrite list_elem_of_filter. intros [Hne _]. apply Hne. reflexivity.
  - apply NoDup_filter, Hnd.
Qed.

Lemma registry_bounded_shape (d : string) (l l' : list (string * Packs)) :
  l' = l
  \/ (exists v, lru_find d l = Some v /\ l' = (d, v) :: lru_remove d l)
  \/ (exists v, lru_find d l = None
        /\ l' = take lru_max ((d, v) :: lru_remove d l)) ->
  (length l <= lru_max)%nat /\ NoDup l.*1 ->
  (length l' <= lru_max)%nat /\ NoDup l'.*1.
Proof.
  intros [-> | [(v & Hfind & ->) | (v & Hfind & ->)]] [Hlen Hnd].
  - split; assumption.
  - split; [|apply lru_touch_NoDup, Hnd].
    pose proof (lru_remove_length_found d l v Hfind). cbn [length]. lia.
  - split; [rewrite length_take; lia|].
    rewrite fmap_take. eapply sublist_NoDup; [|apply sublist_take].
    apply lru_touch_NoDup, Hnd.
Qed.

Section RegistrySize.
Context `{RT : Runtime}.

Lemma registry_bounded_run_call c w :
  registry_bounded w -> registry_bounded (run_call c w).
Proof.
  intros Hb. pose proof (run_call_cache_shape c w) as Hshape.
  unfold registry_bounded in *.
  destruct (call_dir c) as [d|].
  - eapply registry_bounded_shape; eassumption.
  - rewrite Hshape. exact Hb.
Qed.

Lemma reachable_bounded (fs : FileSystem) (w : World) :
  reachable fs w -> registry_bounded w.
Proof.
  intros (cs & ->).
  assert (H0 : registry_bounded (boot fs)).
  { split; [cbn; lia | constructor]. }
  revert H0. generalize (boot fs).
  induction cs as [|c cs IH]; intros w Hb; [exact Hb|].
  cbn [run_calls foldl]. apply IH, registry_bounded_run_call, Hb.
Qed.

(** X16.  In a process over a fixed file system, after any history of
    calls, the registry holds at most four stores, registered under
    pairwise distinct directory names. *)
Theorem registry_holds_at_most_four_stores (fs : FileSystem) (w : World) :
  reachable fs w ->
  (length (w_packsCache w) <= 4)%nat /\ NoDup (w_packsCache w).*1.
Proof. apply reachable_bounded. Qed.

(** What a call that returns a store does to the registry, found or built. *)
Lemma returned_store_registry (fs : FileSystem) (w w1 : World)
    (gitDir : string) (p : Packs) :
  reachable fs w ->
  initialize gitDir w = (Ok p, w1) \/ initializeSync gitDir w = (Ok p, w1) ->
  w_packsCache w1
  = take lru_max ((gitDir, p) :: lru_remove gitDir (w_packsCache w)).
Proof.
  intros Hreach Hrun.
  destruct (reachable_inv fs w Hreach) as (_ & Hpr & _).
  destruct (reachable_bounded fs w Hreach) as [Hlen _].
  destruct (lru_find gitDir (w_packsCache w)) as [p0|] eqn:Hfind.
  - rewrite (initialize_hit _ _ _ Hfind), (initializeSync_hit _ _ _ Hfind) in Hrun.
    assert (Heq : (Ok p0, set_packsCache
               ((gitDir, p0) :: lru_remove gitDir (w_packsCache w)) w)
            = (Ok p, w1)) by (destruct Hrun; assumption).
    injection Heq as -> <-. cbn [w_packsCache set_packsCache].
    pose proof (lru_remove_length_found gitDir _ _ Hfind).
    rewrite take_ge; [reflexivity|]. cbn [length]. unfold lru_max in *. lia.
  - destruct Hrun as [Hrun|Hrun].
    + destruct (w_processings w !! gitDir) as [promise|] eqn:Hprom.
      { destruct (Hpr _ _ Hprom) as (e & -> & _).
        rewrite (initialize_pending _ _ _ Hfind Hprom) in Hrun. discriminate. }
      destruct (decide (gitDir ∈ Object_prototype_names)) as [Hname|Hname];
        [rewrite (initialize_inherited _ _ Hfind Hprom Hname) in Hrun;
         discriminate|].
      rewrite (initialize_miss _ _ Hfind Hprom Hname) in Hrun.
      pose proof (_initialize_build gitDir w) as (_ & Hc & _).
      destruct (_initialize gitDir w) as [[p0|e| |?] w0]; try discriminate.
      injection Hrun as -> <-. cbn [snd] in Hc.
      cbn [w_packsCache set_packsCache set_processings].
      rewrite Hc. reflexivity.
    + rewrite (initializeSync_miss _ _ Hfind) in Hrun.
      pose proof (build_sync_build gitDir w) as (_ & Hc & _).
      destruct (build_sync gitDir w) as [[p0|e| |?] w0]; try discriminate.
      injection Hrun as -> <-. cbn [snd] in Hc.
      cbn [w_packsCache set_packsCache].
      rewrite Hc. reflexivity.
Qed.

Lemma returned_store_reachable (fs : FileSystem) (w w1 : World)
    (gitDir : string) (p : Packs) :
  reachable fs w ->
  initialize gitDir w = (Ok p, w1) \/ initializeSync gitDir w = (Ok p, w1) ->
  reachable fs w1.
Proof.
  intros Hreach [Hrun|Hrun].
  - replace w1 with (run_call (CallInitialize gitDir) w)
      by (cbn; rewrite Hrun; reflexivity).
    apply reachable_run_call, Hreach.
  - replace w1 with (run_call (CallInitializeSync gitDir) w)
      by (cbn; rewrite Hrun; reflexivity).
    apply reachable_run_call, Hreach.
Qed.

Lemma lru_find_not_registered d (l : list (string * Packs)) :
  d ∉ l.*1 -> lru_find d l = None.
Proof.
  induction l as [|[k v] l IH]; [reflexivity|].
  rewrite fmap_cons, not_elem_of_cons. cbn [fst lru_find]. intros [Hne Hnin].
  destruct (decide (k = d)); [congruence | apply IH, Hnin].
Qed.

Lemma returned_store_keys (fs : FileSystem) (w w1 : World)
    (gitDir : string) (p : Packs) :
  reachable fs w ->
  initialize gitDir w = (Ok p, w1) \/ initializeSync gitDir w = (Ok p, w1) ->
  (w_packsCache w1).*1
  = take 4 (gitDir :: filter (fun k => k <> gitDir) (w_packsCache w).*1).
Proof.
  intros Hreach Hrun.
  rewrite (returned_store_registry fs w w1 gitDir p Hreach Hrun).
  rewrite fmap_take, fmap_cons, lru_remove_keys. reflexivity.
Qed.

(** X17.  When the registry has no store for the directory, a call of
    [initialize] or [initializeSync] that returns a store puts it in front
    of the stores already registered, in their order, and keeps the first
    four: with four stores registered, the least recently used one is
    dropped. *)
Theorem new_store_enters_at_the_front (fs : FileSystem) (w w1 : World)
    (gitDir : string) (p : Packs) :
  reachable fs w ->
  lru_find gitDir (w_packsCache w) = None ->
  initialize gitDir w = (Ok p, w1) \/ initializeSync gitDir w = (Ok p, w1) ->
  w_packsCache w1 = take 4 ((gitDir, p) :: w_packsCache w).
Proof.
  intros Hreach Hfind Hrun.
  destruct (reachable_inv fs w Hreach) as (_ & Hpr & _).
  destruct Hrun as [Hrun|Hrun].
  - destruct (w_processings w !! gitDir) as [promise|] eqn:Hprom.
    { destruct (Hpr _ _ Hprom) as (e & -> & _).
      rewrite (initialize_pending _ _ _ Hfind Hprom) in Hrun. discriminate. }
    destruct (decide (gitDir ∈ Object_prototype_names)) as [Hname|Hname];
        [rewrite (initialize_inherited _ _ Hfind Hprom Hname) in Hrun;
         discriminate|].
      rewrite (initialize_miss _ _ Hfind Hprom Hname) in Hrun.
    pose proof (_initialize_build gitDir w) as (_ & Hc & _).
    destruct (_initialize gitDir w) as [[p0|e| |?] w0]; try discriminate.
    injection Hrun as -> <-. cbn [snd] in Hc.
    cbn [w_packsCache set_packsCache set_processings].
    rewrite Hc, lru_remove_absent by exact Hfind. reflexivity.
  - rewrite (initializeSync_miss _ _ Hfind) in Hrun.
    pose proof (build_sync_build gitDir w) as (_ & Hc & _).
    destruct (build_sync gitDir w) as [[p0|e| |?] w0]; try discriminate.
    injection Hrun as -> <-. cbn [snd] in Hc.
    cbn [w_packsCache set_packsCache].
    rewrite Hc, lru_remove_absent by exact Hfind. reflexivity.
Qed.

(** X18.  The registry keeps the four most recently initialised
    directories: once four other, pairwise different directories have been
    initialised with success, by either call, the registry has no store for
    a directory initialised before them, so the next initialisation of that
    directory builds a new store. *)
Theorem four_other_directories_evict (fs : FileSystem) (gitDir : string)
    (d1 d2 d3 d4 : string) (p1 p2 p3 p4 : Packs) (w0 w1 w2 w3 w4 : World) :
  reachable fs w0 ->
  NoDup [gitDir; d1; d2; d3; d4] ->
  initialize d1 w0 = (Ok p1, w1) \/ initializeSync d1 w0 = (Ok p1, w1) ->
  initialize d2 w1 = (Ok p2, w2) \/ initializeSync d2 w1 = (Ok p2, w2) ->
  initialize d3 w2 = (Ok p3, w3) \/ initializeSync d3 w2 = (Ok p3, w3) ->
  initialize d4 w3 = (Ok p4, w4) \/ initializeSync d4 w3 = (Ok p4, w4) ->
  (w_packsCache w4).*1 = [d4; d3; d2; d1]
  /\ lru_find gitDir (w_packsCache w4) = None.
Proof.
  intros Hreach0 Hnd H1 H2 H3 H4.
  pose proof (returned_store_reachable _ _ _ _ _ Hreach0 H1) as Hreach1.
  pose proof (returned_store_reachable _ _ _ _ _ Hreach1 H2) as Hreach2.
  pose proof (returned_store_reachable _ _ _ _ _ Hreach2 H3) as Hreach3.
  pose proof (returned_store_keys _ _ _ _ _ Hreach0 H1) as K1.
  pose proof (returned_store_keys _ _ _ _ _ Hreach1 H2) as K2.
  pose proof (returned_store_keys _ _ _ _ _ Hreach2 H3) as K3.
  pose proof (returned_store_keys _ _ _ _ _ Hreach3 H4) as K4.
  apply NoDup_cons in Hnd as [Hd Hnd].
  apply NoDup_cons in Hnd as [Hd1 Hnd].
  apply NoDup_cons in Hnd as [Hd2 Hnd].
  apply NoDup_cons in Hnd as [Hd3 _].
  apply not_elem_of_cons in Hd as [Ha1 Hd].
  apply not_elem_of_cons in Hd as [Ha2 Hd].
  apply not_elem_of_cons in Hd as [Ha3 Hd].
  apply not_elem_of_cons in Hd as [Ha4 _].
  apply not_elem_of_cons in Hd1 as [Hb2 Hd1].
  apply not_elem_of_cons in Hd1 as [Hb3 Hd1].
  apply not_elem_of_cons in Hd1 as [Hb4 _].
  apply not_elem_of_cons in Hd2 as [Hc3 Hd2].
  apply not_elem_of_cons in Hd2 as [Hc4 _].
  apply not_elem_of_cons in Hd3 as [Hd4 _].
  assert (Hkeys : (w_packsCache w4).*1 = [d4; d3; d2; d1]).
  { rewrite K4, K3, K2, K1.
    set (rest := filter (fun k => k <> d1) (w_packsCache w0).*1).
    cbn [take].
    rewrite (filter_cons_True (fun k => k <> d2) d1) by (cbn; congruence).
    cbn [take].
    rewrite (filter_cons_True (fun k => k <> d3) d2) by (cbn; congruence).
    rewrite (filter_cons_True (fun k => k <> d3) d1) by (cbn; congruence).
    cbn [take].
    rewrite (filter_cons_True (fun k => k <> d4) d3) by (cbn; congruence).
    rewrite (filter_cons_True (fun k => k <> d4) d2) by (cbn; congruence).
    rewrite (filter_cons_True (fun k => k <> d4) d1) by (cbn; congruence).
    reflexivity. }
  split; [exact Hkeys|].
  apply lru_find_not_registered. rewrite Hkeys.
  rewrite !not_elem_of_cons. repeat split; try congruence. apply not_elem_of_nil.
Qed.

(** ** Builds that fail *)

(** X19.  A call of [initialize] that throws leaves the rejected promise
    in [processings] under the directory and registers no store; calling
    [initialize] again for the directory throws the same error and changes
    nothing: the directory is not listed again. *)
Theorem failed_initialize_is_remembered (gitDir : string) (w w1 : World)
    (e : error) :
  initialize gitDir w = (Throw e, w1) ->
  w_processings w1 !! gitDir = Some (inl e)
  /\ w_packsCache w1 = w_packsCache w
  /\ initialize gitDir w1 = (Throw e, w1).
Proof.
  intros Hrun.
  pose proof (failed_initialize_stays_registered gitDir w e w1 Hrun) as Hreg.
  assert (Hcache : w_packsCache w1 = w_packsCache w
                   /\ lru_find gitDir (w_packsCache w) = None).
  { destruct (lru_find gitDir (w_packsCache w)) as [p|] eqn:Hfind.
    { rewrite (initialize_hit _ _ _ Hfind) in Hrun. discriminate. }
    split; [|reflexivity].
    destruct (w_processings w !! gitDir) as [promise|] eqn:Hprom.
    - rewrite (initialize_pending _ _ _ Hfind Hprom) in Hrun.
      destruct promise; [|discriminate]. injection Hrun as _ <-. reflexivity.
    - destruct (decide (gitDir ∈ Object_prototype_names)) as [Hname|Hname];
        [rewrite (initialize_inherited _ _ Hfind Hprom Hname) in Hrun;
         discriminate|].
      rewrite (initialize_miss _ _ Hfind Hprom Hname) in Hrun.
      pose proof (_initialize_build gitDir w) as (_ & Hc & _).
      destruct (_initialize gitDir w) as [[p0|e0| |?] w0]; try discriminate.
      injection Hrun as _ <-. exact Hc. }
  destruct Hcache as [Hcache Hfind].
  split; [exact Hreg|]. split; [exact Hcache|].
  apply registered_failure_is_replayed; [rewrite Hcache; exact Hfind | exact Hreg].
Qed.

(** X20.  A call of [initializeSync] that throws registers nothing: the
    registry and [processings] are as before the call, and the registry
    still has no store for the directory. *)
Theorem failed_initializeSync_registers_nothing (gitDir : string)
    (w w1 : World) (e : error) :
  initializeSync gitDir w = (Throw e, w1) ->
  w_packsCache w1 = w_packsCache w
  /\ w_processings w1 = w_processings w
  /\ lru_find gitDir (w_packsCache w1) = None.
Proof.
  intros Hrun.
  destruct (lru_find gitDir (w_packsCache w)) as [p|] eqn:Hfind.
  { rewrite (initializeSync_hit _ _ _ Hfind) in Hrun. discriminate. }
  rewrite (initializeSync_miss _ _ Hfind) in Hrun.
  pose proof (build_sync_build gitDir w) as (_ & Hc & Hp).
  destruct (build_sync gitDir w) as [[p0|e0| |?] w0]; try discriminate.
  injection Hrun as _ <-. cbn [snd] in Hc, Hp.
  rewrite Hc. auto.
Qed.

End RegistrySize.

(** ** Names of index files *)

Lemma string_length_app (a b : string) :
  String.length (a +:+ b) = (String.length a + String.length b)%nat.
Proof.
  induction a as [|c a IH]; [reflexivity|].
  change (S (String.length (a +:+ b)) = S (String.length a + String.length b)).
  rewrite IH. reflexivity.
Qed.

Lemma substring_app_length (a b : string) (m : nat) :
  String.substring (String.length a) m (a +:+ b) = String.substring 0 m b.
Proof. induction a as [|c a IH]; [reflexivity|]. exact IH. Qed.

Lemma is_idx_name_suffix (base : string) : is_idx_name (base +:+ ".idx") = true.
Proof.
  unfold is_idx_name. rewrite string_length_app.
  change (String.length ".idx") with 4%nat.
  replace (String.length base + 4 - 4)%nat with (String.length base) by lia.
  rewrite substring_app_length.
  destruct (Nat.leb_spec 4 (String.length base + 4)); [|lia]. reflexivity.
Qed.

Lemma before_first_dot_app (base rest : string) :
  has_dot base = false ->
  before_first_dot (base +:+ String "."%char rest) = base.
Proof.
  induction base as [|c base IH]; intros Hdot.
  - reflexivity.
  - cbn [has_dot] in Hdot. apply orb_false_iff in Hdot as [Hc Hdot].
    apply bool_decide_eq_false in Hc.
    change (before_first_dot (String c base +:+ String "."%char rest))
      with (if decide (c = "."%char) then EmptyString
            else String c (before_first_dot (base +:+ String "."%char rest))).
    destruct (decide (c = "."%char)); [contradiction|].
    rewrite IH by exact Hdot. reflexivity.
Qed.

(** X21.  A directory entry whose name ends in [.idx] is taken for an
    index file, and the base name kept for it is the text before its first
    dot: [base] for the entry [base.idx] when [base] has no dot, but also
    for an entry [base.more.idx], whose index is then looked for under
    [base.idx] and its pack under [base.pack]. *)
Theorem index_base_name_stops_at_first_dot (base more : string) :
  has_dot base = false ->
  idx_base_names [base +:+ ".idx"] = [base]
  /\ idx_base_names [base +:+ "." +:+ more +:+ ".idx"] = [base].
Proof.
  intros Hdot. unfold idx_base_names. split.
  - rewrite filter_cons_True by apply is_idx_name_suffix.
    rewrite filter_nil, fmap_cons, fmap_nil.
    rewrite (before_first_dot_app base "idx" Hdot). reflexivity.
  - assert (Hname : base +:+ "." +:+ more +:+ ".idx"
                    = (base +:+ "." +:+ more) +:+ ".idx").
    { clear. induction base as [|c base IH]; [reflexivity|].
      change (String c (base +:+ "." +:+ more +:+ ".idx")
              = String c ((base +:+ "." +:+ more) +:+ ".idx")).
      f_equal. exact IH. }
    rewrite filter_cons_True by (rewrite Hname; apply is_idx_name_suffix).
    rewrite filter_nil, fmap_cons, fmap_nil.
    change (base +:+ "." +:+ more +:+ ".idx")
      with (base +:+ String "."%char (more +:+ ".idx")).
    rewrite (before_first_dot_app base _ Hdot). reflexivity.
Qed.

(** ** An index file that cannot be read *)

Section UnreadableIndex.
Context `{RT : Runtime}.

Lemma build_unreadable_index mode gitDir w names name rest :
  fs_dirs (w_fs w) !! pack_dir_of gitDir = Some names ->
  idx_base_names names = name :: rest ->
  fs_files (w_fs w) !! path_join (pack_dir_of gitDir) (name +:+ ".idx") = None ->
  build mode gitDir w
  = (Throw ENOENT,
     set_trace
       (w_trace w
          ++ [IoReaddir mode (pack_dir_of gitDir);
              IoReadFile mode (path_join (pack_dir_of gitDir) (name +:+ ".idx"))])
       w).
Proof.
  intros Hdir Hnames Hfile. unfold build.
  rewrite bind_run. unfold settled. rewrite fs_readdir_run, Hdir, Hnames.
  rewrite bool_decide_eq_false_2 by discriminate.
  rewrite bind_run. cbn [read_indexes]. rewrite bind_run, fs_readFile_run.
  cbn [w_fs set_trace]. rewrite Hfile.
  cbn [w_trace set_trace]. rewrite <- app_assoc. reflexivity.
Qed.

(** X22.  When the pack directory lists an index file but the file found
    under its base name cannot be read, the build fails: [initializeSync],
    for a directory that is not registered, throws the error of the read
    ([ENOENT]) after listing the directory and trying to read that one
    file.  (An unreadable directory, in contrast, gives an empty store.) *)
Theorem unreadable_index_file_fails_the_build (gitDir : string) (w : World)
    (names : list string) (name : string) (rest : list string) :
  lru_find gitDir (w_packsCache w) = None ->
  fs_dirs (w_fs w) !! pack_dir_of gitDir = Some names ->
  idx_base_names names = name :: rest ->
  fs_files (w_fs w) !! path_join (pack_dir_of gitDir) (name +:+ ".idx") = None ->
  initializeSync gitDir w
  = (Throw ENOENT,
     set_trace
       (w_trace w
          ++ [IoReaddir Blocking (pack_dir_of gitDir);
              IoReadFile Blocking
                (path_join (pack_dir_of gitDir) (name +:+ ".idx"))])
       w).
Proof.
  intros Hfind Hdir Hnames Hfile.
  rewrite (initializeSync_miss _ _ Hfind), build_sync_is_build.
  rewrite (build_unreadable_index _ _ _ _ _ _ Hdir Hnames Hfile). reflexivity.
Qed.

End UnreadableIndex.

(** ** The blocking and the suspending copies agree *)

Lemma same_but_modes_refl (w : World) : same_but_modes w w.
Proof. split; reflexivity. Qed.

(** Destructs two related worlds into their fields. *)
Ltac related_worlds H :=
  match type of H with
  | same_but_modes ?w ?w' =>
      destruct w as [fs fds next_fd trace objects next_packs lru pending];
      destruct w' as [fs' fds' next_fd' trace' objects' next_packs' lru' pending'];
      destruct H as [Hsame Htrace];
      cbn [set_trace w_fs w_fds w_next_fd w_trace w_objects w_next_packs
             w_packsCache w_processings] in Hsame, Htrace;
      injection Hsame as <- <- <- <- <- <- <-
  end.

(** Closes [same_but_modes] between two worlds given by their fields. *)
Ltac related_tail :=
  split; [reflexivity|];
  cbn [w_trace set_trace set_fds set_objects set_packsCache set_processings];
  first [ assumption
        | rewrite !fmap_app; f_equal; first [assumption | reflexivity] ].

Ltac related_result := split; [reflexivity | related_tail].

Ltac run_steps := repeat first [rewrite bind_run | progress cbn -[fmap]].

Lemma agree_ret {A} (a : A) : agree (mret a) (mret a).
Proof. intros w w' H. split; [reflexivity | exact H]. Qed.

Lemma agree_throw {A} (e : error) : agree (@throw A e) (throw e).
Proof. intros w w' H. split; [reflexivity | exact H]. Qed.

Lemma agree_diverge {A} : agree (@diverge A) diverge.
Proof. intros w w' H. split; [reflexivity | exact H]. Qed.

Lemma agree_lift {A} (r : error + A) : agree (lift r) (lift r).
Proof. destruct r; [apply agree_throw | apply agree_ret]. Qed.

Lemma agree_bind {A B} (m1 m2 : M A) (f1 f2 : A -> M B) :
  agree m1 m2 -> (forall a, agree (f1 a) (f2 a)) ->
  agree (m1 ≫= f1) (m2 ≫= f2).
Proof.
  intros Hm Hf w w' H. rewrite !bind_run.
  destruct (Hm w w' H) as [Hr Hw].
  destruct (m1 w) as [[a|e| |?] w1], (m2 w') as [[a'|e'| |?] w1'];
    cbn [fst snd] in Hr, Hw; try discriminate.
  - injection Hr as <-. apply Hf, Hw.
  - injection Hr as <-. split; [reflexivity | exact Hw].
  - split; [reflexivity | exact Hw].
  - injection Hr as <-. split; [reflexivity | exact Hw].
Qed.

Lemma agree_inherited {A} (name : string) :
  agree (@inherited A name) (inherited name).
Proof. intros w w' H. split; [reflexivity | exact H]. Qed.

Lemma agree_try_finally {A} (b1 b2 : M A) (c1 c2 : M unit) :
  agree b1 b2 -> agree c1 c2 ->
  agree (try_finally b1 c1) (try_finally b2 c2).
Proof.
  intros Hb Hc w w' H. unfold try_finally.
  destruct (Hb w w' H) as [Hr Hw].
  destruct (b1 w) as [[a|e| |?] w1], (b2 w') as [[a'|e'| |?] w1'];
    cbn [fst snd] in Hr, Hw; try discriminate;
    [injection Hr as <- | injection Hr as <- | split; [reflexivity | exact Hw]
    | injection Hr as <-].
  all: destruct (Hc w1 w1' Hw) as [Hr2 Hw2].
  all: destruct (c1 w1) as [[[]|e0| |?] w2], (c2 w1') as [[[]|e0'| |?] w2'];
    cbn [fst snd] in Hr2, Hw2; try discriminate.
  all: try (injection Hr2 as <-).
  all: split; [reflexivity | exact Hw2].
Qed.

Lemma agree_settled {A} (b1 b2 : M A) :
  agree b1 b2 -> agree (settled b1) (settled b2).
Proof.
  intros Hb w w' H. unfold settled.
  destruct (Hb w w' H) as [Hr Hw].
  destruct (b1 w) as [[a|e| |?] w1], (b2 w') as [[a'|e'| |?] w1'];
    cbn [fst snd] in Hr, Hw; try discriminate.
  - injection Hr as <-. split; [reflexivity | exact Hw].
  - injection Hr as <-. split; [reflexivity | exact Hw].
  - split; [reflexivity | exact Hw].
  - injection Hr as <-. split; [reflexivity | exact Hw].
Qed.

Lemma fs_readdir_agree path :
  agree (fs_readdir Blocking path) (fs_readdir Suspending path).
Proof.
  intros w w' H. rewrite !fs_readdir_run. related_worlds H.
  cbn [fst snd w_fs]. related_result.
Qed.

Lemma fs_readFile_agree path :
  agree (fs_readFile Blocking path) (fs_readFile Suspending path).
Proof.
  intros w w' H. rewrite !fs_readFile_run. related_worlds H.
  cbn [fst snd w_fs]. related_result.
Qed.

Lemma fs_open_agree path :
  agree (fs_open Blocking path) (fs_open Suspending path).
Proof.
  intros w w' H. related_worlds H.
  unfold fs_open, log, modify. rewrite !bind_run.
  cbn [get_world set_trace w_fs w_trace].
  destruct (fs_files fs !! path); run_steps; related_result.
Qed.

Lemma fs_read_agree fd position len :
  agree (fs_read Blocking fd position len) (fs_read Suspending fd position len).
Proof.
  intros w w' H. related_worlds H.
  unfold fs_read, log, modify. rewrite !bind_run.
  cbn [get_world set_trace w_fs w_fds w_trace].
  destruct (fds !! fd) as [[path current]|]; [|run_steps; related_result].
  rewrite !bind_run. destruct (position <? 0); run_steps; related_result.
Qed.

Lemma fs_close_agree fd :
  agree (fs_close Blocking fd) (fs_close Suspending fd).
Proof.
  intros w w' H. related_worlds H.
  unfold fs_close, log, modify. rewrite !bind_run.
  cbn [get_world set_trace w_fs w_fds w_trace].
  destruct (fds !! fd); run_steps; related_result.
Qed.

Lemma cache_get_agree this idx :
  agree (_getPackedObjectBufferFromCach this idx)
        (_getPackedObjectBufferFromCach this idx).
Proof.
  intros w w' H. rewrite !cache_get_run. cbn [fst snd].
  split; [|exact H]. related_worlds H. reflexivity.
Qed.

Lemma cache_set_agree this idx buff :
  agree (_setPackedObjectBuffrToCache this idx buff)
        (_setPackedObjectBuffrToCache this idx buff).
Proof.
  intros w w' H. rewrite !cache_set_run. cbn [fst snd].
  related_worlds H. related_result.
Qed.

Section Agreement.
Context `{RT : Runtime}.

Lemma inf_from_agree fuel fd idx po : forall size,
  agree (inf_from fuel Blocking fd idx po size)
        (inf_from fuel Suspending fd idx po size).
Proof.
  induction fuel as [|fuel IH]; intros size; cbn [inf_from].
  - apply agree_diverge.
  - apply agree_bind; [apply agree_lift | intros buff].
    apply agree_bind; [apply fs_read_agree | intros data].
    destruct (inflate _) as [e|out].
    + destruct (decide _); [apply IH | apply agree_throw].
    + apply agree_ret.
Qed.

Lemma unpack_agree fuel this : forall c,
  agree (unpack fuel Blocking this c) (unpack fuel Suspending this c).
Proof.
  induction fuel as [|fuel IH]; intros c; cbn [unpack].
  - apply agree_diverge.
  - destruct c as [hash|fd idx].
    + unfold unpackGitObject_body.
      apply agree_bind.
      { unfold _getPackedIndexFromCache.
        destruct (_ !! _); [apply agree_ret | apply agree_throw]. }
      intros idx. apply agree_bind; [apply cache_get_agree|].
      intros [dst|]; [apply agree_ret|].
      apply agree_bind; [apply fs_open_agree | intros fd].
      apply agree_try_finally; [apply IH | apply fs_close_agree].
    + unfold _unpackGitObject_body.
      apply agree_bind; [apply cache_get_agree|].
      intros [dst|]; [apply agree_ret|].
      apply agree_bind; [apply fs_read_agree | intros data].
      destruct (new_PackedObject _) as [po|]; [|apply agree_diverge].
      apply agree_bind.
      * destruct (_ || _).
        { apply agree_bind; [apply inf_from_agree|].
          intros d. apply agree_ret. }
        destruct (_ || _); [|apply agree_ret].
        apply agree_bind; [|intros d; apply agree_ret].
        unfold _unpackDeltaObject_body.
        apply agree_bind.
        { destruct (_ =? _).
          - destruct (readBaseOffset _ _) as [baseOffset offset].
            apply agree_bind; [apply IH | intros src; apply agree_ret].
          - apply agree_bind; [apply IH | intros src; apply agree_ret]. }
        intros [src po'].
        apply agree_bind; [apply inf_from_agree | intros delta].
        apply agree_lift.
      * intros [dst|]; [|apply agree_throw].
        apply agree_bind; [|intros _; apply agree_ret].
        apply cache_set_agree.
Qed.

(** The definitions indexed by the mode are, at each mode, the copy
    written out on its own. *)
Lemma inf_from_blocking fuel : inf_from fuel Blocking = BlockingCopy.infSync fuel.
Proof.
  induction fuel as [|fuel IH]; [reflexivity|].
  cbn [inf_from BlockingCopy.infSync]. rewrite IH. reflexivity.
Qed.

Lemma inf_from_suspending fuel :
  inf_from fuel Suspending = SuspendingCopy.inf fuel.
Proof.
  induction fuel as [|fuel IH]; [reflexivity|].
  cbn [inf_from SuspendingCopy.inf]. rewrite IH. reflexivity.
Qed.

Lemma unpack_blocking fuel this :
  unpack fuel Blocking this = BlockingCopy.resolve fuel this.
Proof.
  induction fuel as [|fuel IH]; [reflexivity|].
  cbn [unpack BlockingCopy.resolve]. rewrite IH.
  unfold _unpackGitObject_body, _unpackDeltaObject_body,
    BlockingCopy._unpackGitObjectSync, BlockingCopy._unpackDeltaObjectSync,
    inf_initial_size.
  rewrite (inf_from_blocking (S fuel)). reflexivity.
Qed.

Lemma unpack_suspending fuel this :
  unpack fuel Suspending this = SuspendingCopy.resolve fuel this.
Proof.
  induction fuel as [|fuel IH]; [reflexivity|].
  cbn [unpack SuspendingCopy.resolve]. rewrite IH.
  unfold _unpackGitObject_body, _unpackDeltaObject_body,
    SuspendingCopy._unpackGitObject, SuspendingCopy._unpackDeltaObject,
    inf_initial_size.
  rewrite (inf_from_suspending (S fuel)). reflexivity.
Qed.

(** X23.  The two copies of the resolver, the one on the blocking
    file-system calls ([unpackGitObjectSync], [_unpackGitObjectSync],
    [_unpackDeltaObjectSync], [infSync]) and the one on the suspending calls,
    run to completion, do the same from the same state: the same outcome,
    bytes or error, and the same world, with the same descriptors, caches
    and registry and the same file-system calls in the same order, each made
    through the blocking call in one and the suspending call in the other.
    They are the resolver indexed by the mode, at the two modes. *)
Theorem resolution_modes_agree (fuel : nat) (this : Packs) (c : call)
    (w : World) :
  (BlockingCopy.resolve fuel this c w).1 = (SuspendingCopy.resolve fuel this c w).1
  /\ set_trace [] (BlockingCopy.resolve fuel this c w).2
     = set_trace [] (SuspendingCopy.resolve fuel this c w).2
  /\ with_mode Blocking <$> w_trace (BlockingCopy.resolve fuel this c w).2
     = with_mode Blocking <$> w_trace (SuspendingCopy.resolve fuel this c w).2
  /\ BlockingCopy.resolve fuel this c = unpack fuel Blocking this c
  /\ SuspendingCopy.resolve fuel this c = unpack fuel Suspending this c.
Proof.
  rewrite <- unpack_blocking, <- unpack_suspending.
  destruct (unpack_agree fuel this c w w (same_but_modes_refl w))
    as (Hr & Hw & Ht).
  auto.
Qed.

Lemma read_indexes_agree dir names : forall i map,
  agree (read_indexes Blocking dir names i map)
        (read_indexes Suspending dir names i map).
Proof.
  induction names as [|name rest IH]; intros i map; cbn [read_indexes].
  - apply agree_ret.
  - apply agree_bind; [apply fs_readFile_agree | intros buff].
    apply agree_bind; [apply agree_lift | intros map']. apply IH.
Qed.

Lemma new_Packs_agree dir names map :
  agree (new_Packs dir names map) (new_Packs dir names map).
Proof.
  intros w w' H. rewrite !new_Packs_run. cbn [fst snd].
  related_worlds H. cbn [w_next_packs w_objects].
  related_result.
Qed.

Lemma build_agree gitDir : agree (build Blocking gitDir) (build Suspending gitDir).
Proof.
  unfold build.
  apply agree_bind; [apply agree_settled, fs_readdir_agree|].
  intros [e|names]; [apply new_Packs_agree|].
  destruct (bool_decide _); [apply new_Packs_agree|].
  apply agree_bind; [apply read_indexes_agree | intros map].
  apply new_Packs_agree.
Qed.

(** X24.  For a directory under whose name [processings] holds nothing,
    neither a promise left there nor a member it inherits from
    [Object.prototype], [initializeSync] and [initialize] (run to
    completion) have the same outcome and make the same file-system calls in
    the same order; they leave the same world but for [processings], which
    [initializeSync] leaves alone and in which [initialize] leaves the
    rejected promise when it throws. *)
Theorem initialisation_modes_agree (gitDir : string) (w : World) :
  w_processings w !! gitDir = None ->
  gitDir ∉ Object_prototype_names ->
  (initializeSync gitDir w).1 = (initialize gitDir w).1
  /\ set_processings ∅ (set_trace [] (initializeSync gitDir w).2)
     = set_processings ∅ (set_trace [] (initialize gitDir w).2)
  /\ with_mode Blocking <$> w_trace (initializeSync gitDir w).2
     = with_mode Blocking <$> w_trace (initialize gitDir w).2
  /\ w_processings (initializeSync gitDir w).2 = w_processings w
  /\ w_processings (initialize gitDir w).2
     = match (initialize gitDir w).1 with
       | Throw e => <[gitDir := inl e]> (w_processings w)
       | _ => w_processings w
       end.
Proof.
  intros Hnone Hname.
  destruct (lru_find gitDir (w_packsCache w)) as [p|] eqn:Hfind.
  { rewrite (initialize_hit _ _ _ Hfind), (initializeSync_hit _ _ _ Hfind).
    cbn. auto. }
  rewrite (initialize_miss _ _ Hfind Hnone Hname), (initializeSync_miss _ _ Hfind).
  rewrite _initialize_is_build, build_sync_is_build.
  destruct (build_agree gitDir w w (same_but_modes_refl w)) as [Hr Hw].
  pose proof (_initialize_build gitDir w) as (_ & _ & Hp2).
  pose proof (build_sync_build gitDir w) as (_ & _ & Hp1).
  rewrite _initialize_is_build in Hp2. rewrite build_sync_is_build in Hp1.
  destruct (build Blocking gitDir w) as [[p1|e1| |?] w1],
           (build Suspending gitDir w) as [[p2|e2| |?] w2];
    cbn [fst snd] in *; try discriminate.
  - injection Hr as <-. related_worlds Hw.
    cbn in Hp1, Hp2 |- *. subst pending.
    rewrite delete_insert_id by exact Hnone.
    repeat split; try reflexivity; assumption.
  - injection Hr as <-. related_worlds Hw.
    cbn in Hp1, Hp2 |- *. subst pending.
    repeat split; try reflexivity; assumption.
  - related_worlds Hw. cbn in Hp1, Hp2 |- *. subst pending.
    repeat split; try reflexivity; assumption.
  - injection Hr as <-. related_worlds Hw.
    cbn in Hp1, Hp2 |- *. subst pending.
    repeat split; try reflexivity; assumption.
Qed.

End Agreement.

(** ** A directory without index files *)

Section EmptyDirectory.
Context `{RT : Runtime}.

Lemma build_empty_run mode gitDir w :
  no_index_files (w_fs w) gitDir ->
  build mode gitDir w
  = (Ok (Scenes.empty_store_of gitDir (w_next_packs w)),
     set_objects (<[w_next_packs w := ∅]> (w_objects w)) (S (w_next_packs w))
       (set_trace (w_trace w ++ [IoReaddir mode (pack_dir_of gitDir)]) w)).
Proof.
  unfold no_index_files, build. intros H.
  rewrite bind_run. unfold settled. rewrite fs_readdir_run.
  destruct (fs_dirs (w_fs w) !! pack_dir_of gitDir) as [names|].
  - rewrite H. rewrite bool_decide_eq_true_2 by reflexivity.
    rewrite new_Packs_run. reflexivity.
  - rewrite new_Packs_run. reflexivity.
Qed.

(** X25.  When the registry has no store for [gitDir] and the pack
    directory of [gitDir] cannot be listed or lists no index file,
    [initializeSync] lists the directory, makes no other file-system call,
    and creates, registers and returns an empty store: no pack file names,
    an empty index map, [hasPackFiles] false and [gitDir] itself as
    [packDir].  [initialize] does the same when [processings] holds nothing
    under [gitDir], neither a promise left there nor a member it inherits.
    On such a store every resolution throws the not-found error without a
    file-system call. *)
Theorem directory_without_indexes_gives_empty_store (w : World)
    (gitDir : string) :
  no_index_files (w_fs w) gitDir ->
  lru_find gitDir (w_packsCache w) = None ->
  (exists w',
     initializeSync gitDir w
       = (Ok (Scenes.empty_store_of gitDir (w_next_packs w)), w')
     /\ w_trace w' = w_trace w ++ [IoReaddir Blocking (pack_dir_of gitDir)]
     /\ lru_find gitDir (w_packsCache w')
        = Some (Scenes.empty_store_of gitDir (w_next_packs w)))
  /\ (w_processings w !! gitDir = None ->
      gitDir ∉ Object_prototype_names ->
      exists w',
        initialize gitDir w
          = (Ok (Scenes.empty_store_of gitDir (w_next_packs w)), w')
        /\ w_trace w' = w_trace w ++ [IoReaddir Suspending (pack_dir_of gitDir)]
        /\ lru_find gitDir (w_packsCache w')
           = Some (Scenes.empty_store_of gitDir (w_next_packs w))
        /\ w_processings w' !! gitDir = None)
  /\ (forall fuel hash w'',
        unpackGitObject (S fuel) (Scenes.empty_store_of gitDir (w_next_packs w))
          hash w''
          = (Throw (NotFound hash), w'')
        /\ unpackGitObjectSync (S fuel)
             (Scenes.empty_store_of gitDir (w_next_packs w)) hash w''
           = (Throw (NotFound hash), w'')).
Proof.
  intros Hno Hfind. split; [|split].
  - rewrite (initializeSync_miss _ _ Hfind), build_sync_is_build.
    rewrite (build_empty_run _ _ _ Hno). eexists. split; [reflexivity|].
    split; [reflexivity|]. apply lru_find_head.
  - intros Hprom Hname.
    rewrite (initialize_miss _ _ Hfind Hprom Hname), _initialize_is_build.
    rewrite (build_empty_run _ _ _ Hno). eexists. split; [reflexivity|].
    split; [reflexivity|]. split; [apply lru_find_head|].
    cbn [w_processings set_packsCache set_processings]. apply lookup_delete_eq.
  - intros fuel hash w''.
    split; apply resolve_absent; apply lookup_empty.
Qed.

End EmptyDirectory.

(** * The further properties on the sample repository *)

Section MoreWitnesses.
#[local] Existing Instance Sample.strict_runtime.

(** The empty index file. *)
Lemma short_index_is_range_error_witness :
  Z.of_nat (length (@nil byte)) < 1024
  /\ setupPackedIndexMap [] 0 ∅ = inl RangeError.
Proof.
  assert (h1 : Z.of_nat (length (@nil byte)) < 1024)
    by (vm_compute; reflexivity).
  exact (conj h1 (short_index_is_range_error [] 0 ∅ h1)).
Defined.

(** An index of two objects parsed, as pack file 7, into a map of two
    entries: the entry under [k] is kept, the older entry of the commit is
    overwritten, the entry of the other object is added. *)
Lemma index_parser_only_adds_entries_witness :
  setupPackedIndexMap Scenes.two_entry_index 7 Scenes.prefilled
    = inr Scenes.parsed
  /\ ((forall k, is_Some (Scenes.prefilled !! k) -> is_Some (Scenes.parsed !! k))
      /\ (forall k idx, Scenes.parsed !! k = Some idx ->
            Scenes.prefilled !! k = Some idx
            \/ (idx_fileIndex idx = 7
                /\ 0 <= idx_offset idx < 2 ^ 32 + 2 ^ 16)))
  /\ Scenes.prefilled !! "k" = Some (mkPackedIndex 5 9)
  /\ Scenes.parsed !! "k" = Some (mkPackedIndex 5 9)
  /\ Scenes.prefilled !! to_hex Sample.id_commit = Some (mkPackedIndex 99 3)
  /\ Scenes.parsed !! to_hex Sample.id_commit = Some (mkPackedIndex 12 7)
  /\ Scenes.prefilled !! to_hex Sample.id_ofs = None
  /\ Scenes.parsed !! to_hex Sample.id_ofs = Some (mkPackedIndex 17 7).
Proof.
  assert (h1 : setupPackedIndexMap Scenes.two_entry_index 7 Scenes.prefilled
               = inr Scenes.parsed)
    by reflexivity.
  assert (c1 : Scenes.prefilled !! "k" = Some (mkPackedIndex 5 9))
    by (vm_compute; reflexivity).
  assert (c2 : Scenes.parsed !! "k" = Some (mkPackedIndex 5 9))
    by (vm_compute; reflexivity).
  assert (c3 : Scenes.prefilled !! to_hex Sample.id_commit
               = Some (mkPackedIndex 99 3))
    by (vm_compute; reflexivity).
  assert (c4 : Scenes.parsed !! to_hex Sample.id_commit
               = Some (mkPackedIndex 12 7))
    by (vm_compute; reflexivity).
  assert (c5 : Scenes.prefilled !! to_hex Sample.id_ofs = None)
    by (vm_compute; reflexivity).
  assert (c6 : Scenes.parsed !! to_hex Sample.id_ofs
               = Some (mkPackedIndex 17 7))
    by (vm_compute; reflexivity).
  exact (conj h1
           (conj
              (index_parser_only_adds_entries Scenes.two_entry_index 7
                 Scenes.prefilled Scenes.parsed h1)
              (conj c1 (conj c2 (conj c3 (conj c4 (conj c5 c6))))))).
Defined.

(** A version-1 index of one object, the commit at offset 12. *)
Lemma version1_index_is_parsed_witness :
  length (replicate 1020 x00) = 1020%nat
  /\ be_value (take 4 (replicate 1020 x00)) <> 0xff744f63
  /\ IdxLayout.entries_ok (2 ^ 32) [(Sample.id_commit, 12)]
  /\ NoDup [(Sample.id_commit, 12)].*1
  /\ Z.of_nat (length (IdxLayout.v1 (replicate 1020 x00)
                         [(Sample.id_commit, 12)] [])) < 2 ^ 32
  /\ setupPackedIndexMap
       (IdxLayout.v1 (replicate 1020 x00) [(Sample.id_commit, 12)] []) 0 ∅
     = inr (IdxLayout.stored 0 [(Sample.id_commit, 12)] ∅)
  /\ (forall h o, (h, o) ∈ [(Sample.id_commit, 12)] ->
        IdxLayout.stored 0 [(Sample.id_commit, 12)] ∅ !! to_hex h
        = Some (mkPackedIndex o 0))
  /\ (forall k, (forall e, e ∈ [(Sample.id_commit, 12)] -> k <> to_hex e.1) ->
        IdxLayout.stored 0 [(Sample.id_commit, 12)] ∅ !! k
        = (∅ : gmap string PackedIndex) !! k).
Proof.
  assert (h1 : length (replicate 1020 x00) = 1020%nat)
    by (vm_compute; reflexivity).
  assert (h2 : be_value (take 4 (replicate 1020 x00)) <> 0xff744f63)
    by (vm_compute; discriminate).
  assert (h3 : IdxLayout.entries_ok (2 ^ 32) [(Sample.id_commit, 12)]).
  { repeat constructor; vm_compute; congruence. }
  assert (h4 : NoDup [(Sample.id_commit, 12)].*1)
    by (apply NoDup_singleton).
  assert (h5 : Z.of_nat (length (IdxLayout.v1 (replicate 1020 x00)
                                   [(Sample.id_commit, 12)] [])) < 2 ^ 32)
    by (vm_compute; reflexivity).
  exact (conj h1 (conj h2 (conj h3 (conj h4 (conj h5
           (version1_index_is_parsed (replicate 1020 x00)
              [(Sample.id_commit, 12)] [] 0 ∅ h1 h2 h3 h4 h5)))))).
Defined.

(** A version-2 index of one object, the commit at offset 12. *)
Lemma version2_index_is_parsed_witness :
  1 < 2 < 2 ^ 32
  /\ length (replicate 1020 x00) = 1020%nat
  /\ length (replicate 4 x00) = (4 * length [(Sample.id_commit, 12)])%nat
  /\ IdxLayout.entries_ok (2 ^ 31) [(Sample.id_commit, 12)]
  /\ NoDup [(Sample.id_commit, 12)].*1
  /\ Z.of_nat (length (IdxLayout.v2 2 (replicate 1020 x00)
                         [(Sample.id_commit, 12)] (replicate 4 x00) []))
     < 2 ^ 32
  /\ setupPackedIndexMap
       (IdxLayout.v2 2 (replicate 1020 x00) [(Sample.id_commit, 12)]
          (replicate 4 x00) []) 0 ∅
     = inr (IdxLayout.stored 0 [(Sample.id_commit, 12)] ∅)
  /\ (forall h o, (h, o) ∈ [(Sample.id_commit, 12)] ->
        IdxLayout.stored 0 [(Sample.id_commit, 12)] ∅ !! to_hex h
        = Some (mkPackedIndex o 0))
  /\ (forall k, (forall e, e ∈ [(Sample.id_commit, 12)] -> k <> to_hex e.1) ->
        IdxLayout.stored 0 [(Sample.id_commit, 12)] ∅ !! k
        = (∅ : gmap string PackedIndex) !! k).
Proof.
  assert (h0 : 1 < 2 < 2 ^ 32) by (vm_compute; auto).
  assert (h1 : length (replicate 1020 x00) = 1020%nat)
    by (vm_compute; reflexivity).
  assert (h2 : length (replicate 4 x00)
               = (4 * length [(Sample.id_commit, 12)])%nat)
    by (vm_compute; reflexivity).
  assert (h3 : IdxLayout.entries_ok (2 ^ 31) [(Sample.id_commit, 12)]).
  { repeat constructor; vm_compute; congruence. }
  assert (h4 : NoDup [(Sample.id_commit, 12)].*1)
    by (apply NoDup_singleton).
  assert (h5 : Z.of_nat (length (IdxLayout.v2 2 (replicate 1020 x00)
                                   [(Sample.id_commit, 12)] (replicate 4 x00) []))
               < 2 ^ 32)
    by (vm_compute; reflexivity).
  exact (conj h0 (conj h1 (conj h2 (conj h3 (conj h4 (conj h5
           (version2_index_is_parsed 2 (replicate 1020 x00)
              [(Sample.id_commit, 12)] (replicate 4 x00) [] 0 ∅
              h0 h1 h2 h3 h4 h5))))))).
Defined.

(** A header of three bytes. *)
Lemma header_fields_in_range_witness :
  (length Scenes.three_byte_header <= 145)%nat
  /\ (exists po,
        new_PackedObject Scenes.three_byte_header = Some po
        /\ 0 <= po_type po <= 7
        /\ 0 <= po_size po
        /\ 1 <= po_offset po <= Z.of_nat (length Scenes.three_byte_header) + 1)
  /\ new_PackedObject Scenes.three_byte_header
     = Some (mkPackedObject 1 6229 3).
Proof.
  assert (h1 : (length Scenes.three_byte_header <= 145)%nat)
    by (vm_compute; lia).
  assert (c1 : new_PackedObject Scenes.three_byte_header
               = Some (mkPackedObject 1 6229 3))
    by (vm_compute; reflexivity).
  exact (conj h1
           (conj (header_fields_in_range Scenes.three_byte_header h1) c1)).
Defined.

(** A commit of 1000 bytes: a header of two bytes. *)
Lemma header_decoder_inverts_format_witness :
  0 <= 1 <= 7
  /\ 0 <= 1000 < 2 ^ 53
  /\ new_PackedObject (HeaderLayout.encode 1 1000 ++ [])
     = Some {| po_type := 1;
               po_size := 1000;
               po_offset := Z.of_nat (length (HeaderLayout.encode 1 1000)) |}.
Proof.
  assert (h1 : 0 <= 1 <= 7) by lia.
  assert (h2 : 0 <= 1000 < 2 ^ 53) by lia.
  exact (conj h1 (conj h2 (header_decoder_inverts_format 1 1000 [] h1 h2))).
Defined.

(** The hash field of the REF_DELTA object, at offset 26 of the sample
    pack, and the id of the sample commit: two reads of different buffers
    that give the same text. *)
Lemma object_id_text_is_faithful_witness :
  0 <= 26
  /\ 0 <= 0
  /\ (of_hex (readHash Sample.pack 26)
      = Some (take 20 (drop (Z.to_nat 26) Sample.pack))
      /\ String.length (readHash Sample.pack 26)
         = (2 * Nat.min 20 (length Sample.pack - Z.to_nat 26))%nat
      /\ (readHash Sample.pack 26 = readHash Sample.id_commit 0
          <-> take 20 (drop (Z.to_nat 26) Sample.pack)
              = take 20 (drop (Z.to_nat 0) Sample.id_commit)))
  /\ readHash Sample.pack 26 = "1a1a1a1a1a1a1a1a1a1a1a1a1a1a1a1a1a1a1a1a"
  /\ readHash Sample.id_commit 0 = "1a1a1a1a1a1a1a1a1a1a1a1a1a1a1a1a1a1a1a1a"
  /\ readHash Sample.pack 25 <> readHash Sample.id_commit 0.
Proof.
  assert (h1 : 0 <= 26) by lia.
  assert (h2 : 0 <= 0) by lia.
  assert (c1 : readHash Sample.pack 26
               = "1a1a1a1a1a1a1a1a1a1a1a1a1a1a1a1a1a1a1a1a")
    by (vm_compute; reflexivity).
  assert (c2 : readHash Sample.id_commit 0
               = "1a1a1a1a1a1a1a1a1a1a1a1a1a1a1a1a1a1a1a1a")
    by (vm_compute; reflexivity).
  assert (c3 : readHash Sample.pack 25 <> readHash Sample.id_commit 0)
    by (vm_compute; discriminate).
  exact (conj h1 (conj h2
           (conj
              (object_id_text_is_faithful Sample.pack Sample.id_commit 26 0
                 h1 h2)
              (conj c1 (conj c2 c3))))).
Defined.

(** The sample store in a process whose file system has no file. *)
Lemma missing_pack_file_fails_at_open_witness :
  packedIndexMap Sample.store !! to_hex Sample.id_commit
    = Some (mkPackedIndex 12 0)
  /\ object_cache Sample.store (boot (mkFileSystem ∅ ∅))
       !! cache_key (mkPackedIndex 12 0) = None
  /\ fs_files (w_fs (boot (mkFileSystem ∅ ∅)))
       !! _getPackFilePath Sample.store (mkPackedIndex 12 0) = None
  /\ unpack 1 Blocking Sample.store (Resolve (to_hex Sample.id_commit))
       (boot (mkFileSystem ∅ ∅))
     = (Throw ENOENT,
        set_trace
          (w_trace (boot (mkFileSystem ∅ ∅))
             ++ [IoOpen Blocking
                   (_getPackFilePath Sample.store (mkPackedIndex 12 0))])
          (boot (mkFileSystem ∅ ∅))).
Proof.
  assert (h1 : packedIndexMap Sample.store !! to_hex Sample.id_commit
               = Some (mkPackedIndex 12 0))
    by (vm_compute; reflexivity).
  assert (h2 : object_cache Sample.store (boot (mkFileSystem ∅ ∅))
                 !! cache_key (mkPackedIndex 12 0) = None)
    by (vm_compute; reflexivity).
  assert (h3 : fs_files (w_fs (boot (mkFileSystem ∅ ∅)))
                 !! _getPackFilePath Sample.store (mkPackedIndex 12 0) = None)
    by (vm_compute; reflexivity).
  exact (conj h1 (conj h2 (conj h3
           (missing_pack_file_fails_at_open 0 Blocking Sample.store
              (to_hex Sample.id_commit) (mkPackedIndex 12 0)
              (boot (mkFileSystem ∅ ∅)) h1 h2 h3)))).
Defined.

(** The commit of [Scenes.long_pack], which declares 5 bytes and has a
    stream of 61 bytes: the first buffer, of 5 * 2 + 32 = 42 bytes, is too
    small and the second one, of 170 bytes, is not. *)
Lemma whole_object_is_inflated_and_cached_witness :
  packedIndexMap Scenes.long_store !! "cd" = Some (mkPackedIndex 12 0)
  /\ object_cache Scenes.long_store (boot Scenes.long_fs)
       !! (idx_fileIndex (mkPackedIndex 12 0), idx_offset (mkPackedIndex 12 0))
     = None
  /\ fs_files (w_fs (boot Scenes.long_fs))
       !! _getPackFilePath Scenes.long_store (mkPackedIndex 12 0)
     = Some Scenes.long_pack
  /\ 0 <= idx_offset (mkPackedIndex 12 0)
  /\ new_PackedObject
       (buffer_fill (Buffer_alloc 32)
          (file_read Scenes.long_pack 0 (idx_offset (mkPackedIndex 12 0)) 32))
       = Some (mkPackedObject 1 5 1)
  /\ (po_type (mkPackedObject 1 5 1) = ObjectTypeEnum.COMMIT
      \/ po_type (mkPackedObject 1 5 1) = ObjectTypeEnum.TAG)
  /\ max_buffer_length < 2 ^ 53
  /\ po_size (mkPackedObject 1 5 1) * 2 + 32 + 128 * Z.of_nat 1
       <= max_buffer_length
  /\ (forall i, (i < 1)%nat ->
        exists e,
          inflate (attempt_input Scenes.long_pack
                     (JS.add (idx_offset (mkPackedIndex 12 0))
                        (po_offset (mkPackedObject 1 5 1)))
                     (po_size (mkPackedObject 1 5 1) * 2 + 32 + 128 * Z.of_nat i))
            = inl e
          /\ errno e = Some Z_BUF_ERROR)
  /\ inflate (attempt_input Scenes.long_pack
                (JS.add (idx_offset (mkPackedIndex 12 0))
                   (po_offset (mkPackedObject 1 5 1)))
                (po_size (mkPackedObject 1 5 1) * 2 + 32 + 128 * Z.of_nat 1))
       = inr (replicate 60 (u8 0x68))
  /\ (exists w',
       unpack (S (S (1 + 0))) Blocking Scenes.long_store (Resolve "cd")
         (boot Scenes.long_fs)
         = (Ok (replicate 60 (u8 0x68)), w')
       /\ w_trace w' =
            w_trace (boot Scenes.long_fs)
            ++ [IoOpen Blocking
                  (_getPackFilePath Scenes.long_store (mkPackedIndex 12 0));
                IoRead Blocking (w_next_fd (boot Scenes.long_fs))
                  (idx_offset (mkPackedIndex 12 0)) 32]
            ++ ((fun i : nat =>
                   IoRead Blocking (w_next_fd (boot Scenes.long_fs))
                     (JS.add (idx_offset (mkPackedIndex 12 0))
                        (po_offset (mkPackedObject 1 5 1)))
                     (po_size (mkPackedObject 1 5 1) * 2 + 32
                      + 128 * Z.of_nat i)) <$> seq 0 (S 1))
            ++ [IoClose Blocking (w_next_fd (boot Scenes.long_fs))]
       /\ object_cache Scenes.long_store w'
          = <[(idx_fileIndex (mkPackedIndex 12 0),
               idx_offset (mkPackedIndex 12 0))
                := replicate 60 (u8 0x68)]>
              (object_cache Scenes.long_store (boot Scenes.long_fs)))
  /\ w_trace
       (unpack 3 Blocking Scenes.long_store (Resolve "cd")
          (boot Scenes.long_fs)).2
     = [IoOpen Blocking "long/objects/pack/pack-4.pack";
        IoRead Blocking 3 12 32; IoRead Blocking 3 13 42;
        IoRead Blocking 3 13 170; IoClose Blocking 3].
Proof.
  assert (h1 : packedIndexMap Scenes.long_store !! "cd"
               = Some (mkPackedIndex 12 0))
    by (vm_compute; reflexivity).
  assert (h2 : object_cache Scenes.long_store (boot Scenes.long_fs)
                 !! (idx_fileIndex (mkPackedIndex 12 0),
                     idx_offset (mkPackedIndex 12 0)) = None)
    by (vm_compute; reflexivity).
  assert (h3 : fs_files (w_fs (boot Scenes.long_fs))
                 !! _getPackFilePath Scenes.long_store (mkPackedIndex 12 0)
               = Some Scenes.long_pack)
    by (vm_compute; reflexivity).
  assert (h4 : 0 <= idx_offset (mkPackedIndex 12 0))
    by (vm_compute; discriminate).
  assert (h5 : new_PackedObject
                 (buffer_fill (Buffer_alloc 32)
                    (file_read Scenes.long_pack 0
                       (idx_offset (mkPackedIndex 12 0)) 32))
               = Some (mkPackedObject 1 5 1))
    by (vm_compute; reflexivity).
  assert (h6 : po_type (mkPackedObject 1 5 1) = ObjectTypeEnum.COMMIT
               \/ po_type (mkPackedObject 1 5 1) = ObjectTypeEnum.TAG)
    by (left; vm_compute; reflexivity).
  assert (h7 : max_buffer_length < 2 ^ 53) by (vm_compute; reflexivity).
  assert (h8 : po_size (mkPackedObject 1 5 1) * 2 + 32 + 128 * Z.of_nat 1
               <= max_buffer_length)
    by (vm_compute; discriminate).
  assert (h9 : forall i, (i < 1)%nat ->
            exists e,
              inflate (attempt_input Scenes.long_pack
                         (JS.add (idx_offset (mkPackedIndex 12 0))
                            (po_offset (mkPackedObject 1 5 1)))
                         (po_size (mkPackedObject 1 5 1) * 2 + 32
                          + 128 * Z.of_nat i))
                = inl e
              /\ errno e = Some Z_BUF_ERROR).
  { intros i Hi. assert (i = 0%nat) as -> by lia.
    exists (ZlibError Z_BUF_ERROR). split; vm_compute; reflexivity. }
  assert (h10 : inflate (attempt_input Scenes.long_pack
                 (JS.add (idx_offset (mkPackedIndex 12 0))
                    (po_offset (mkPackedObject 1 5 1)))
                 (po_size (mkPackedObject 1 5 1) * 2 + 32 + 128 * Z.of_nat 1))
                = inr (replicate 60 (u8 0x68)))
    by (vm_compute; reflexivity).
  assert (c1 : w_trace
                 (unpack 3 Blocking Scenes.long_store (Resolve "cd")
                    (boot Scenes.long_fs)).2
               = [IoOpen Blocking "long/objects/pack/pack-4.pack";
                  IoRead Blocking 3 12 32; IoRead Blocking 3 13 42;
                  IoRead Blocking 3 13 170; IoClose Blocking 3])
    by (vm_compute; reflexivity).
  exact (conj h1 (conj h2 (conj h3 (conj h4 (conj h5 (conj h6 (conj h7 (conj h8
          (conj h9 (conj h10
           (conj
              (whole_object_is_inflated_and_cached 1 0 Blocking
                 Scenes.long_store "cd" (mkPackedIndex 12 0)
                 (boot Scenes.long_fs) Scenes.long_pack (mkPackedObject 1 5 1)
                 (replicate 60 (u8 0x68))
                 h1 h2 h3 h4 h5 h6 h7 h8 h9 h10)
              c1))))))))))).
Defined.

(** The REF_DELTA object, whose base is resolved through a second
    descriptor. *)
Lemma resolution_closes_what_it_opens_witness :
  fds_fresh (boot Sample.fs)
  /\ (unpack 5 Suspending Sample.store (Resolve (to_hex Sample.id_ref))
        (boot Sample.fs)).1 <> Diverge
  /\ w_fds (unpack 5 Suspending Sample.store (Resolve (to_hex Sample.id_ref))
              (boot Sample.fs)).2 = w_fds (boot Sample.fs)
  /\ fds_fresh (unpack 5 Suspending Sample.store
                  (Resolve (to_hex Sample.id_ref)) (boot Sample.fs)).2.
Proof.
  assert (h1 : fds_fresh (boot Sample.fs)) by (unfold fds_fresh; intros fd Hfd; reflexivity).
  assert (h2 : (unpack 5 Suspending Sample.store
                  (Resolve (to_hex Sample.id_ref)) (boot Sample.fs)).1
               <> Diverge)
    by (vm_compute; intros H; discriminate H).
  exact (conj h1 (conj h2
           (resolution_closes_what_it_opens 5 Suspending Sample.store
              (to_hex Sample.id_ref) (boot Sample.fs) h1 h2))).
Defined.

(** The store of [repo/], a name that [path.join] normalises, built in a
    fresh process: its pack directory is [repo/objects/pack]. *)
Lemma returned_store_describes_pack_directory_witness :
  reachable Sample.fs (boot Sample.fs)
  /\ (initialize "repo/" (boot Sample.fs)
        = (Ok Sample.store, (initialize "repo/" (boot Sample.fs)).2)
      \/ initializeSync "repo/" (boot Sample.fs)
        = (Ok Sample.store, (initialize "repo/" (boot Sample.fs)).2))
  /\ (packFileNames Sample.store =
        match fs_dirs Sample.fs !! pack_dir_of "repo/" with
        | Some names => idx_base_names names
        | None => []
        end
      /\ hasPackFiles Sample.store
         = negb (bool_decide (packFileNames Sample.store = []))
      /\ packDir Sample.store
         = (if hasPackFiles Sample.store then pack_dir_of "repo/" else "repo/"))
  /\ pack_dir_of "repo/" = "repo/objects/pack".
Proof.
  assert (h1 : reachable Sample.fs (boot Sample.fs))
    by (exists []; reflexivity).
  assert (h2 : initialize "repo/" (boot Sample.fs)
                 = (Ok Sample.store, (initialize "repo/" (boot Sample.fs)).2)
               \/ initializeSync "repo/" (boot Sample.fs)
                 = (Ok Sample.store, (initialize "repo/" (boot Sample.fs)).2))
    by (left; vm_compute; reflexivity).
  assert (c1 : pack_dir_of "repo/" = "repo/objects/pack")
    by (vm_compute; reflexivity).
  exact (conj h1 (conj h2
           (conj
              (returned_store_describes_pack_directory Sample.fs
                 (boot Sample.fs) (initialize "repo/" (boot Sample.fs)).2
                 "repo/" Sample.store h1 h2)
              c1))).
Defined.

(** The entry of the sample commit in that store. *)
Lemma index_entries_point_into_listed_packs_witness :
  reachable Sample.fs (boot Sample.fs)
  /\ (initialize "repo" (boot Sample.fs)
        = (Ok Sample.store, (initialize "repo" (boot Sample.fs)).2)
      \/ initializeSync "repo" (boot Sample.fs)
        = (Ok Sample.store, (initialize "repo" (boot Sample.fs)).2))
  /\ packedIndexMap Sample.store !! to_hex Sample.id_commit
     = Some (mkPackedIndex 12 0)
  /\ exists names name,
       fs_dirs Sample.fs !! pack_dir_of "repo" = Some names
       /\ 0 <= idx_fileIndex (mkPackedIndex 12 0)
       /\ idx_base_names names !! Z.to_nat (idx_fileIndex (mkPackedIndex 12 0))
          = Some name
       /\ is_Some (fs_files Sample.fs
                     !! path_join (pack_dir_of "repo") (name +:+ ".idx"))
       /\ _getPackFilePath Sample.store (mkPackedIndex 12 0)
          = path_join (pack_dir_of "repo") (name +:+ ".pack")
       /\ 0 <= idx_offset (mkPackedIndex 12 0) < 2 ^ 32 + 2 ^ 16.
Proof.
  assert (h1 : reachable Sample.fs (boot Sample.fs))
    by (exists []; reflexivity).
  assert (h2 : initialize "repo" (boot Sample.fs)
                 = (Ok Sample.store, (initialize "repo" (boot Sample.fs)).2)
               \/ initializeSync "repo" (boot Sample.fs)
                 = (Ok Sample.store, (initialize "repo" (boot Sample.fs)).2))
    by (left; vm_compute; reflexivity).
  assert (h3 : packedIndexMap Sample.store !! to_hex Sample.id_commit
               = Some (mkPackedIndex 12 0))
    by (vm_compute; reflexivity).
  exact (conj h1 (conj h2 (conj h3
           (index_entries_point_into_listed_packs Sample.fs (boot Sample.fs)
              (initialize "repo" (boot Sample.fs)).2 "repo" Sample.store
              (to_hex Sample.id_commit) (mkPackedIndex 12 0) h1 h2 h3)))).
Defined.

(** A process that has initialised [repo] and [bare]. *)
Lemma registry_holds_at_most_four_stores_witness :
  reachable Sample.fs
    (run_calls [CallInitialize "repo"; CallInitializeSync "bare"]
       (boot Sample.fs))
  /\ (length (w_packsCache
                (run_calls [CallInitialize "repo"; CallInitializeSync "bare"]
                   (boot Sample.fs))) <= 4)%nat
  /\ NoDup (w_packsCache
              (run_calls [CallInitialize "repo"; CallInitializeSync "bare"]
                 (boot Sample.fs))).*1.
Proof.
  assert (h1 : reachable Sample.fs
                 (run_calls [CallInitialize "repo"; CallInitializeSync "bare"]
                    (boot Sample.fs)))
    by (exists [CallInitialize "repo"; CallInitializeSync "bare"]; reflexivity).
  exact (conj h1
           (registry_holds_at_most_four_stores Sample.fs
              (run_calls [CallInitialize "repo"; CallInitializeSync "bare"]
                 (boot Sample.fs)) h1)).
Defined.

(** A fifth directory, [e], in a process whose registry holds the stores of
    [c], [b], [a] and [bare], most recently used first: the store of [e]
    goes in front and the store of [bare] is dropped. *)
Lemma new_store_enters_at_the_front_witness :
  reachable Sample.fs (Scenes.visits 3)
  /\ lru_find "e" (w_packsCache (Scenes.visits 3)) = None
  /\ (initialize "e" (Scenes.visits 3)
        = (Ok (Scenes.empty_store_of "e" 4),
           (initializeSync "e" (Scenes.visits 3)).2)
      \/ initializeSync "e" (Scenes.visits 3)
        = (Ok (Scenes.empty_store_of "e" 4),
           (initializeSync "e" (Scenes.visits 3)).2))
  /\ w_packsCache (initializeSync "e" (Scenes.visits 3)).2
     = take 4 (("e", Scenes.empty_store_of "e" 4)
                 :: w_packsCache (Scenes.visits 3))
  /\ (w_packsCache (Scenes.visits 3)).*1 = ["c"; "b"; "a"; "bare"]
  /\ (w_packsCache (initializeSync "e" (Scenes.visits 3)).2).*1
     = ["e"; "c"; "b"; "a"].
Proof.
  assert (h1 : reachable Sample.fs (Scenes.visits 3))
    by (exists [CallInitialize "bare"; CallInitialize "a";
                CallInitializeSync "b"; CallInitialize "c"]; reflexivity).
  assert (h2 : lru_find "e" (w_packsCache (Scenes.visits 3)) = None)
    by (vm_compute; reflexivity).
  assert (h3 : initialize "e" (Scenes.visits 3)
                 = (Ok (Scenes.empty_store_of "e" 4),
                    (initializeSync "e" (Scenes.visits 3)).2)
               \/ initializeSync "e" (Scenes.visits 3)
                 = (Ok (Scenes.empty_store_of "e" 4),
                    (initializeSync "e" (Scenes.visits 3)).2))
    by (right; vm_compute; reflexivity).
  assert (c1 : (w_packsCache (Scenes.visits 3)).*1 = ["c"; "b"; "a"; "bare"])
    by (vm_compute; reflexivity).
  assert (c2 : (w_packsCache (initializeSync "e" (Scenes.visits 3)).2).*1
               = ["e"; "c"; "b"; "a"])
    by (vm_compute; reflexivity).
  exact (conj h1 (conj h2 (conj h3
           (conj
              (new_store_enters_at_the_front Sample.fs (Scenes.visits 3)
                 (initializeSync "e" (Scenes.visits 3)).2 "e"
                 (Scenes.empty_store_of "e" 4) h1 h2 h3)
              (conj c1 c2))))).
Defined.

(** The directory [torn], whose index file is empty. *)
Lemma failed_initialize_is_remembered_witness :
  initialize "torn" (boot Sample.fs)
    = (Throw RangeError, (initialize "torn" (boot Sample.fs)).2)
  /\ w_processings (initialize "torn" (boot Sample.fs)).2 !! "torn"
     = Some (inl RangeError)
  /\ w_packsCache (initialize "torn" (boot Sample.fs)).2
     = w_packsCache (boot Sample.fs)
  /\ initialize "torn" (initialize "torn" (boot Sample.fs)).2
     = (Throw RangeError, (initialize "torn" (boot Sample.fs)).2).
Proof.
  assert (h1 : initialize "torn" (boot Sample.fs)
               = (Throw RangeError, (initialize "torn" (boot Sample.fs)).2))
    by (vm_compute; reflexivity).
  exact (conj h1
           (failed_initialize_is_remembered "torn" (boot Sample.fs)
              (initialize "torn" (boot Sample.fs)).2 RangeError h1)).
Defined.

Lemma failed_initializeSync_registers_nothing_witness :
  initializeSync "torn" (boot Sample.fs)
    = (Throw RangeError, (initializeSync "torn" (boot Sample.fs)).2)
  /\ w_packsCache (initializeSync "torn" (boot Sample.fs)).2
     = w_packsCache (boot Sample.fs)
  /\ w_processings (initializeSync "torn" (boot Sample.fs)).2
     = w_processings (boot Sample.fs)
  /\ lru_find "torn" (w_packsCache (initializeSync "torn" (boot Sample.fs)).2)
     = None.
Proof.
  assert (h1 : initializeSync "torn" (boot Sample.fs)
               = (Throw RangeError, (initializeSync "torn" (boot Sample.fs)).2))
    by (vm_compute; reflexivity).
  exact (conj h1
           (failed_initializeSync_registers_nothing "torn" (boot Sample.fs)
              (initializeSync "torn" (boot Sample.fs)).2 RangeError h1)).
Defined.

(** The entries [pack-1.idx] and [pack-1.2.idx]. *)
Lemma index_base_name_stops_at_first_dot_witness :
  has_dot "pack-1" = false
  /\ idx_base_names ["pack-1" +:+ ".idx"] = ["pack-1"]
  /\ idx_base_names ["pack-1" +:+ "." +:+ "2" +:+ ".idx"] = ["pack-1"].
Proof.
  assert (h1 : has_dot "pack-1" = false) by reflexivity.
  exact (conj h1 (index_base_name_stops_at_first_dot "pack-1" "2" h1)).
Defined.

(** [repo] in a fresh process. *)
Lemma initialisation_modes_agree_witness :
  w_processings (boot Sample.fs) !! "repo" = None
  /\ ("repo" ∉ Object_prototype_names)
  /\ (initializeSync "repo" (boot Sample.fs)).1
     = (initialize "repo" (boot Sample.fs)).1
  /\ set_processings ∅ (set_trace [] (initializeSync "repo" (boot Sample.fs)).2)
     = set_processings ∅ (set_trace [] (initialize "repo" (boot Sample.fs)).2)
  /\ with_mode Blocking <$> w_trace (initializeSync "repo" (boot Sample.fs)).2
     = with_mode Blocking <$> w_trace (initialize "repo" (boot Sample.fs)).2
  /\ w_processings (initializeSync "repo" (boot Sample.fs)).2
     = w_processings (boot Sample.fs)
  /\ w_processings (initialize "repo" (boot Sample.fs)).2
     = match (initialize "repo" (boot Sample.fs)).1 with
       | Throw e => <["repo" := inl e]> (w_processings (boot Sample.fs))
       | _ => w_processings (boot Sample.fs)
       end.
Proof.
  assert (h1 : w_processings (boot Sample.fs) !! "repo" = None)
    by reflexivity.
  assert (h2 : "repo" ∉ Object_prototype_names)
    by (apply (bool_decide_unpack _); vm_compute; exact I).
  exact (conj h1 (conj h2
           (initialisation_modes_agree "repo" (boot Sample.fs) h1 h2))).
Defined.

(** The directory [bare], whose pack directory lists no index file, in a
    process that has initialised [repo]. *)
Lemma directory_without_indexes_gives_empty_store_witness :
  no_index_files (w_fs (run_calls [CallInitialize "repo"] (boot Sample.fs)))
    "bare"
  /\ lru_find "bare"
       (w_packsCache (run_calls [CallInitialize "repo"] (boot Sample.fs)))
     = None
  /\ (exists w',
        initializeSync "bare"
          (run_calls [CallInitialize "repo"] (boot Sample.fs))
          = (Ok (Scenes.empty_store_of "bare"
                   (w_next_packs
                      (run_calls [CallInitialize "repo"] (boot Sample.fs)))),
             w')
        /\ w_trace w'
           = w_trace (run_calls [CallInitialize "repo"] (boot Sample.fs))
             ++ [IoReaddir Blocking (pack_dir_of "bare")]
        /\ lru_find "bare" (w_packsCache w')
           = Some (Scenes.empty_store_of "bare"
                     (w_next_packs
                        (run_calls [CallInitialize "repo"] (boot Sample.fs)))))
  /\ (w_processings (run_calls [CallInitialize "repo"] (boot Sample.fs))
        !! "bare" = None ->
      "bare" ∉ Object_prototype_names ->
      exists w',
        initialize "bare" (run_calls [CallInitialize "repo"] (boot Sample.fs))
          = (Ok (Scenes.empty_store_of "bare"
                   (w_next_packs
                      (run_calls [CallInitialize "repo"] (boot Sample.fs)))),
             w')
        /\ w_trace w'
           = w_trace (run_calls [CallInitialize "repo"] (boot Sample.fs))
             ++ [IoReaddir Suspending (pack_dir_of "bare")]
        /\ lru_find "bare" (w_packsCache w')
           = Some (Scenes.empty_store_of "bare"
                     (w_next_packs
                        (run_calls [CallInitialize "repo"] (boot Sample.fs))))
        /\ w_processings w' !! "bare" = None)
  /\ (forall fuel hash w'',
        unpackGitObject (S fuel)
          (Scenes.empty_store_of "bare"
             (w_next_packs (run_calls [CallInitialize "repo"] (boot Sample.fs))))
          hash w''
          = (Throw (NotFound hash), w'')
        /\ unpackGitObjectSync (S fuel)
             (Scenes.empty_store_of "bare"
                (w_next_packs
                   (run_calls [CallInitialize "repo"] (boot Sample.fs))))
             hash w''
           = (Throw (NotFound hash), w'')).
Proof.
  assert (h1 : no_index_files
                 (w_fs (run_calls [CallInitialize "repo"] (boot Sample.fs)))
                 "bare")
    by (vm_compute; reflexivity).
  assert (h2 : lru_find "bare"
                 (w_packsCache
                    (run_calls [CallInitialize "repo"] (boot Sample.fs)))
               = None)
    by (vm_compute; reflexivity).
  exact (conj h1 (conj h2
           (directory_without_indexes_gives_empty_store
              (run_calls [CallInitialize "repo"] (boot Sample.fs)) "bare"
              h1 h2))).
Defined.

(** An index entry at offset 1000 of the sample pack, which has 90 bytes. *)
Lemma entry_past_end_of_pack_is_rejected_witness :
  packedIndexMap Scenes.far_store !! "ab" = Some (mkPackedIndex 1000 0)
  /\ object_cache Scenes.far_store (boot Sample.fs)
       !! cache_key (mkPackedIndex 1000 0) = None
  /\ fs_files (w_fs (boot Sample.fs))
       !! _getPackFilePath Scenes.far_store (mkPackedIndex 1000 0)
     = Some Sample.pack
  /\ Z.of_nat (length Sample.pack) <= idx_offset (mkPackedIndex 1000 0)
  /\ exists w',
       unpack (S (S 0)) Blocking Scenes.far_store (Resolve "ab")
         (boot Sample.fs)
         = (Throw (InvalidObjectType 0), w')
       /\ w_trace w' =
            w_trace (boot Sample.fs)
            ++ [IoOpen Blocking
                  (_getPackFilePath Scenes.far_store (mkPackedIndex 1000 0));
                IoRead Blocking (w_next_fd (boot Sample.fs))
                  (idx_offset (mkPackedIndex 1000 0)) 32;
                IoClose Blocking (w_next_fd (boot Sample.fs))]
       /\ w_objects w' = w_objects (boot Sample.fs).
Proof.
  assert (h1 : packedIndexMap Scenes.far_store !! "ab"
               = Some (mkPackedIndex 1000 0))
    by (vm_compute; reflexivity).
  assert (h2 : object_cache Scenes.far_store (boot Sample.fs)
                 !! cache_key (mkPackedIndex 1000 0) = None)
    by (vm_compute; reflexivity).
  assert (h3 : fs_files (w_fs (boot Sample.fs))
                 !! _getPackFilePath Scenes.far_store (mkPackedIndex 1000 0)
               = Some Sample.pack)
    by (vm_compute; reflexivity).
  assert (h4 : Z.of_nat (length Sample.pack) <= idx_offset (mkPackedIndex 1000 0))
    by (vm_compute; discriminate).
  exact (conj h1 (conj h2 (conj h3 (conj h4
           (entry_past_end_of_pack_is_rejected 0 Blocking Scenes.far_store
              "ab" (mkPackedIndex 1000 0) (boot Sample.fs) Sample.pack
              h1 h2 h3 h4))))).
Defined.

(** A pack directory that lists [pack-9.2.idx]: the file looked for is
    [pack-9.idx], which is not there. *)
Lemma unreadable_index_file_fails_the_build_witness :
  lru_find "odd" (w_packsCache (boot Scenes.odd_fs)) = None
  /\ fs_dirs (w_fs (boot Scenes.odd_fs)) !! pack_dir_of "odd"
     = Some ["pack-9.2.idx"]
  /\ idx_base_names ["pack-9.2.idx"] = "pack-9" :: []
  /\ fs_files (w_fs (boot Scenes.odd_fs))
       !! path_join (pack_dir_of "odd") ("pack-9" +:+ ".idx") = None
  /\ initializeSync "odd" (boot Scenes.odd_fs)
     = (Throw ENOENT,
        set_trace
          (w_trace (boot Scenes.odd_fs)
             ++ [IoReaddir Blocking (pack_dir_of "odd");
                 IoReadFile Blocking
                   (path_join (pack_dir_of "odd") ("pack-9" +:+ ".idx"))])
          (boot Scenes.odd_fs)).
Proof.
  assert (h1 : lru_find "odd" (w_packsCache (boot Scenes.odd_fs)) = None)
    by reflexivity.
  assert (h2 : fs_dirs (w_fs (boot Scenes.odd_fs)) !! pack_dir_of "odd"
               = Some ["pack-9.2.idx"])
    by (vm_compute; reflexivity).
  assert (h3 : idx_base_names ["pack-9.2.idx"] = "pack-9" :: [])
    by (vm_compute; reflexivity).
  assert (h4 : fs_files (w_fs (boot Scenes.odd_fs))
                 !! path_join (pack_dir_of "odd") ("pack-9" +:+ ".idx") = None)
    by (vm_compute; reflexivity).
  exact (conj h1 (conj h2 (conj h3 (conj h4
           (unreadable_index_file_fails_the_build "odd" (boot Scenes.odd_fs)
              ["pack-9.2.idx"] "pack-9" [] h1 h2 h3 h4))))).
Defined.

(** [bare], then four directories that have no pack directory. *)
Lemma four_other_directories_evict_witness :
  reachable Sample.fs (Scenes.visits 0)
  /\ NoDup ["bare"; "a"; "b"; "c"; "e"]
  /\ (initialize "a" (Scenes.visits 0)
        = (Ok (Scenes.empty_store_of "a" 1), Scenes.visits 1)
      \/ initializeSync "a" (Scenes.visits 0)
        = (Ok (Scenes.empty_store_of "a" 1), Scenes.visits 1))
  /\ (initialize "b" (Scenes.visits 1)
        = (Ok (Scenes.empty_store_of "b" 2), Scenes.visits 2)
      \/ initializeSync "b" (Scenes.visits 1)
        = (Ok (Scenes.empty_store_of "b" 2), Scenes.visits 2))
  /\ (initialize "c" (Scenes.visits 2)
        = (Ok (Scenes.empty_store_of "c" 3), Scenes.visits 3)
      \/ initializeSync "c" (Scenes.visits 2)
        = (Ok (Scenes.empty_store_of "c" 3), Scenes.visits 3))
  /\ (initialize "e" (Scenes.visits 3)
        = (Ok (Scenes.empty_store_of "e" 4), Scenes.visits 4)
      \/ initializeSync "e" (Scenes.visits 3)
        = (Ok (Scenes.empty_store_of "e" 4), Scenes.visits 4))
  /\ (w_packsCache (Scenes.visits 4)).*1 = ["e"; "c"; "b"; "a"]
  /\ lru_find "bare" (w_packsCache (Scenes.visits 4)) = None.
Proof.
  assert (h0 : reachable Sample.fs (Scenes.visits 0))
    by (exists [CallInitialize "bare"]; reflexivity).
  assert (hn : NoDup ["bare"; "a"; "b"; "c"; "e"])
    by (apply (bool_decide_unpack _); vm_compute; exact I).
  assert (h1 : initialize "a" (Scenes.visits 0)
                 = (Ok (Scenes.empty_store_of "a" 1), Scenes.visits 1)
               \/ initializeSync "a" (Scenes.visits 0)
                 = (Ok (Scenes.empty_store_of "a" 1), Scenes.visits 1))
    by (left; vm_compute; reflexivity).
  assert (h2 : initialize "b" (Scenes.visits 1)
                 = (Ok (Scenes.empty_store_of "b" 2), Scenes.visits 2)
               \/ initializeSync "b" (Scenes.visits 1)
                 = (Ok (Scenes.empty_store_of "b" 2), Scenes.visits 2))
    by (right; vm_compute; reflexivity).
  assert (h3 : initialize "c" (Scenes.visits 2)
                 = (Ok (Scenes.empty_store_of "c" 3), Scenes.visits 3)
               \/ initializeSync "c" (Scenes.visits 2)
                 = (Ok (Scenes.empty_store_of "c" 3), Scenes.visits 3))
    by (left; vm_compute; reflexivity).
  assert (h4 : initialize "e" (Scenes.visits 3)
                 = (Ok (Scenes.empty_store_of "e" 4), Scenes.visits 4)
               \/ initializeSync "e" (Scenes.visits 3)
                 = (Ok (Scenes.empty_store_of "e" 4), Scenes.visits 4))
    by (right; vm_compute; reflexivity).
  exact (conj h0 (conj hn (conj h1 (conj h2 (conj h3 (conj h4
           (four_other_directories_evict Sample.fs "bare" "a" "b" "c" "e"
              (Scenes.empty_store_of "a" 1) (Scenes.empty_store_of "b" 2)
              (Scenes.empty_store_of "c" 3) (Scenes.empty_store_of "e" 4)
              (Scenes.visits 0) (Scenes.visits 1) (Scenes.visits 2)
              (Scenes.visits 3) (Scenes.visits 4)
              h0 hn h1 h2 h3 h4))))))).
Defined.

(** The OFS_DELTA at offset 17, which declares 2 bytes, in a process that
    has resolved its base, the commit at offset 12: the payload is read with
    a buffer of 2 * 2 + 32 = 36 bytes. *)
Lemma delta_on_cached_base_is_patched_witness :
  packedIndexMap Sample.store !! to_hex Sample.id_ofs = Some (mkPackedIndex 17 0)
  /\ object_cache Sample.store Scenes.warmed
       !! (idx_fileIndex (mkPackedIndex 17 0), idx_offset (mkPackedIndex 17 0))
     = None
  /\ fs_files (w_fs Scenes.warmed)
       !! _getPackFilePath Sample.store (mkPackedIndex 17 0) = Some Sample.pack
  /\ 0 <= idx_offset (mkPackedIndex 17 0)
  /\ Scenes.ofs_head
     = buffer_fill (Buffer_alloc 32)
         (file_read Sample.pack 0 (idx_offset (mkPackedIndex 17 0)) 32)
  /\ new_PackedObject Scenes.ofs_head = Some (mkPackedObject 6 2 1)
  /\ (po_type (mkPackedObject 6 2 1) = ObjectTypeEnum.OFS_DELTA
      \/ po_type (mkPackedObject 6 2 1) = ObjectTypeEnum.REF_DELTA)
  /\ in_cache Sample.store Scenes.warmed
       (delta_base (w_next_fd Scenes.warmed) (mkPackedIndex 17 0)
          (mkPackedObject 6 2 1) Scenes.ofs_head)
       (u8 <$> [0x61; 0x62; 0x63])
  /\ 0 <= JS.add (idx_offset (mkPackedIndex 17 0))
            (po_offset (delta_payload (mkPackedObject 6 2 1) Scenes.ofs_head))
  /\ max_buffer_length < 2 ^ 53
  /\ po_size (mkPackedObject 6 2 1) * 2 + 32 <= max_buffer_length
  /\ inflate
       (attempt_input Sample.pack
          (JS.add (idx_offset (mkPackedIndex 17 0))
             (po_offset (delta_payload (mkPackedObject 6 2 1) Scenes.ofs_head)))
          (po_size (mkPackedObject 6 2 1) * 2 + 32))
     = inr (u8 <$> [0x64; 0x65])
  /\ patchDelta (u8 <$> [0x61; 0x62; 0x63]) (u8 <$> [0x64; 0x65])
     = inr (u8 <$> [0x61; 0x62; 0x63; 0x64; 0x65])
  /\ (exists w',
       unpack (S (S (S 0))) Blocking Sample.store
         (Resolve (to_hex Sample.id_ofs)) Scenes.warmed
         = (Ok (u8 <$> [0x61; 0x62; 0x63; 0x64; 0x65]), w')
       /\ w_trace w' =
            w_trace Scenes.warmed
            ++ [IoOpen Blocking
                  (_getPackFilePath Sample.store (mkPackedIndex 17 0));
                IoRead Blocking (w_next_fd Scenes.warmed)
                  (idx_offset (mkPackedIndex 17 0)) 32;
                IoRead Blocking (w_next_fd Scenes.warmed)
                  (JS.add (idx_offset (mkPackedIndex 17 0))
                     (po_offset
                        (delta_payload (mkPackedObject 6 2 1) Scenes.ofs_head)))
                  (po_size (mkPackedObject 6 2 1) * 2 + 32);
                IoClose Blocking (w_next_fd Scenes.warmed)]
       /\ object_cache Sample.store w'
          = <[(idx_fileIndex (mkPackedIndex 17 0),
               idx_offset (mkPackedIndex 17 0))
                := u8 <$> [0x61; 0x62; 0x63; 0x64; 0x65]]>
              (object_cache Sample.store Scenes.warmed))
  /\ drop (length (w_trace Scenes.warmed))
       (w_trace
          (unpack 3 Blocking Sample.store (Resolve (to_hex Sample.id_ofs))
             Scenes.warmed).2)
     = [IoOpen Blocking "repo/objects/pack/pack-1.pack";
        IoRead Blocking 4 17 32; IoRead Blocking 4 19 36;
        IoClose Blocking 4].
Proof.
  assert (h1 : packedIndexMap Sample.store !! to_hex Sample.id_ofs
               = Some (mkPackedIndex 17 0))
    by (vm_compute; reflexivity).
  assert (h2 : object_cache Sample.store Scenes.warmed
                 !! (idx_fileIndex (mkPackedIndex 17 0),
                     idx_offset (mkPackedIndex 17 0)) = None)
    by (vm_compute; reflexivity).
  assert (h3 : fs_files (w_fs Scenes.warmed)
                 !! _getPackFilePath Sample.store (mkPackedIndex 17 0)
               = Some Sample.pack)
    by (vm_compute; reflexivity).
  assert (h4 : 0 <= idx_offset (mkPackedIndex 17 0))
    by (vm_compute; discriminate).
  assert (h5 : Scenes.ofs_head
               = buffer_fill (Buffer_alloc 32)
                   (file_read Sample.pack 0 (idx_offset (mkPackedIndex 17 0)) 32))
    by reflexivity.
  assert (h6 : new_PackedObject Scenes.ofs_head = Some (mkPackedObject 6 2 1))
    by (vm_compute; reflexivity).
  assert (h7 : po_type (mkPackedObject 6 2 1) = ObjectTypeEnum.OFS_DELTA
               \/ po_type (mkPackedObject 6 2 1) = ObjectTypeEnum.REF_DELTA)
    by (left; vm_compute; reflexivity).
  assert (h8 : in_cache Sample.store Scenes.warmed
                 (delta_base (w_next_fd Scenes.warmed) (mkPackedIndex 17 0)
                    (mkPackedObject 6 2 1) Scenes.ofs_head)
                 (u8 <$> [0x61; 0x62; 0x63]))
    by (vm_compute; reflexivity).
  assert (h9 : 0 <= JS.add (idx_offset (mkPackedIndex 17 0))
                      (po_offset
                         (delta_payload (mkPackedObject 6 2 1) Scenes.ofs_head)))
    by (vm_compute; discriminate).
  assert (h10 : max_buffer_length < 2 ^ 53) by (vm_compute; reflexivity).
  assert (h11 : po_size (mkPackedObject 6 2 1) * 2 + 32 <= max_buffer_length)
    by (vm_compute; discriminate).
  assert (h12 : inflate
                  (attempt_input Sample.pack
                     (JS.add (idx_offset (mkPackedIndex 17 0))
                        (po_offset
                           (delta_payload (mkPackedObject 6 2 1)
                              Scenes.ofs_head)))
                     (po_size (mkPackedObject 6 2 1) * 2 + 32))
                = inr (u8 <$> [0x64; 0x65]))
    by (vm_compute; reflexivity).
  assert (h13 : patchDelta (u8 <$> [0x61; 0x62; 0x63]) (u8 <$> [0x64; 0x65])
                = inr (u8 <$> [0x61; 0x62; 0x63; 0x64; 0x65]))
    by (vm_compute; reflexivity).
  assert (c1 : drop (length (w_trace Scenes.warmed))
                 (w_trace
                    (unpack 3 Blocking Sample.store
                       (Resolve (to_hex Sample.id_ofs)) Scenes.warmed).2)
               = [IoOpen Blocking "repo/objects/pack/pack-1.pack";
                  IoRead Blocking 4 17 32; IoRead Blocking 4 19 36;
                  IoClose Blocking 4])
    by (vm_compute; reflexivity).
  exact (conj h1 (conj h2 (conj h3 (conj h4 (conj h5 (conj h6 (conj h7
          (conj h8 (conj h9 (conj h10 (conj h11 (conj h12 (conj h13
           (conj
              (delta_on_cached_base_is_patched 0 Blocking Sample.store
                 (to_hex Sample.id_ofs) (mkPackedIndex 17 0) Scenes.warmed
                 Sample.pack Scenes.ofs_head (mkPackedObject 6 2 1)
                 (u8 <$> [0x61; 0x62; 0x63]) (u8 <$> [0x64; 0x65])
                 (u8 <$> [0x61; 0x62; 0x63; 0x64; 0x65])
                 h1 h2 h3 h4 h5 h6 h7 h8 h9 h10 h11 h12 h13)
              c1)))))))))))))).
Defined.

End MoreWitnesses.

